(** * Session and messaging engine of the peer-to-peer chat client

    A shallow embedding of [src/lib/ratchet.ts], [src/lib/topics.ts],
    [src/lib/crypto.ts] and of the inbound/outbound pipeline of
    [src/store/chatStore.ts], with the properties stated for them.

    Conventions of the embedding.
    - A [Uint8Array] is a [list byte]; a JavaScript string is a [string].
    - A counter ([sendN], [recvN], the wire field [n]) is a [nat]; the
      [skippedKeys] object, whose property names are [String(index)], is a
      [gmap nat string] keyed by the index itself.
    - An [async] function that can reject is a function into [exc]; the
      engine's handlers run in the state-and-exception monad [M] over the
      [World] (zustand store, IndexedDB stores, transport log).  A handler
      of an incoming envelope is given as it runs when nothing else runs
      between its awaits; the send handlers, which the page starts without
      awaiting them, are given segment by segment ([Task]), cut at their
      awaits, and can be run side by side.
    - Library primitives (HMAC, base64, keccak, secretbox, ...) are the
      fields of the classes [Primitives] and [PassphrasePrimitives]; the
      laws assumed of them are section hypotheses. *)

From Stdlib Require Import ZArith Lia String Ascii.
From Stdlib.Strings Require Import Byte.
From stdpp Require Import base gmap strings list sorting pretty.

(** ** Bytes and exceptions *)

Definition bytes : Type := list byte.

Global Instance byte_eq_decision : EqDecision byte.
Proof.
  intros x y. destruct (Byte.eqb x y) eqn:E.
  - left. by apply Byte.byte_dec_bl.
  - right. by apply Byte.eqb_false.
Defined.

(** Result of a call that may throw (a rejected promise). *)
Inductive exc (A : Type) : Type :=
| Ok (a : A)
| Throw (e : string).
Arguments Ok {A} a.
Arguments Throw {A} e.

Global Instance exc_ret : MRet exc := λ A a, Ok a.
Global Instance exc_bind : MBind exc := λ A B f x,
  match x with
  | Ok a => f a
  | Throw e => Throw e
  end.

Global Instance exc_fmap : FMap exc := λ A B f x,
  match x with
  | Ok a => Ok (f a)
  | Throw e => Throw e
  end.

(** ** Enumerations of [src/types/chat.ts] *)

Inductive ChatKind := dm | group.
Inductive RequestStatus :=
  status_pending | status_accepted | status_declined | status_blocked.
Inductive MessageStatus := msg_sending | msg_sent | msg_delivered | msg_failed.
Inductive MessageKind :=
| kind_text | kind_reaction | kind_edit | kind_delete | kind_typing
| kind_attachment_meta | kind_attachment_chunk | kind_system | kind_rekey.

Global Instance ChatKind_eq_dec : EqDecision ChatKind.
Proof. solve_decision. Defined.
Global Instance RequestStatus_eq_dec : EqDecision RequestStatus.
Proof. solve_decision. Defined.

(** ** Wire format

    Every wire message is a JSON object [{v: 1, type, ..., timestamp}]; the
    sealed inner payload of a session message is a JSON object
    [{kind, ...}].  A parsed JSON value is represented by its shape, with
    the fields the handlers read; the wire counter [n] is a [nat]. *)

Record SealedEntry := mkSealed {
  sealed_toPubKey : string;
  sealed_n : nat;
  sealed_nonce : string;
  sealed_ciphertext : string
}.

Inductive Envelope :=
| chat_request (requestId fromPubKey toPubKey nonce ciphertext : string)
    (timestamp : Z)
| chat_accept (requestId fromPubKey toPubKey conversationId : string)
    (timestamp : Z)
| chat_declined (requestId fromPubKey toPubKey conversationId : string)
    (timestamp : Z)
| chat_blocked (requestId fromPubKey toPubKey conversationId : string)
    (timestamp : Z)
| group_invite (fromPubKey toPubKey nonce ciphertext : string) (timestamp : Z)
  (** [type: `group_${response}`] *)
| group_response (response : RequestStatus) (requestId : string)
    (groupId : option string) (fromPubKey toPubKey : string) (timestamp : Z)
  (** [fromPubKey] is [state.chatKey], a string or [null] *)
| dm_message (conversationId messageId : string) (fromPubKey : option string)
    (n : nat) (nonce ciphertext : string) (timestamp : Z)
| dm_ack (conversationId messageId : string) (fromPubKey : option string)
    (toPubKey : string) (timestamp : Z)
| group_message (groupId messageId fromPubKey : string)
    (sealed : list SealedEntry) (timestamp : Z)
  (** any other [type] string, [group_accept] among them *)
| other_envelope (type : string).

Inductive Inner :=
| inner_text (body : string) (replyTo : option string)
| inner_reaction (messageId emoji : string)
| inner_edit (messageId body : string)
| inner_delete (messageId : string)
| inner_typing (isTyping : bool)
| inner_attachment_meta (attachmentId name mime : string)
    (size totalChunks : nat)
| inner_attachment_chunk (attachmentId : string) (index totalChunks : nat)
    (data : string)
| inner_rekey
  (** any other [kind] *)
| inner_other (kind : string).

Inductive Json :=
  (** [null] (what [decodePayload] returns on a parse error) and the other
      falsy values *)
| JNull
  (** an object with a string field [type] *)
| JEnvelope (e : Envelope)
  (** an object with a field [kind] *)
| JInner (i : Inner)
  (** the sealed body of a group invite *)
| JInvite (groupId name : string) (members : list string)
  (** any other value *)
| JOther.

(** ** Library primitives

    The functions the sources import from [tweetnacl], [@noble/*], [viem],
    [bs58] and the platform ([btoa], [atob], [TextEncoder], WebCrypto).
    They are parameters of the embedding. *)

Class Primitives := {
  (** [crypto.ts]: HMAC-SHA256 and HKDF-SHA256 (WebCrypto or noble). *)
  hmacSha256 : bytes → bytes → bytes;
  hkdf : bytes → bytes → bytes → nat → bytes;
  (** [encoding.ts]: [btoa]/[atob] ([atob] throws on text that is not
      base64), [bs58] ([decode] throws on a character outside the alphabet),
      [TextEncoder]/[TextDecoder]. *)
  bytesToBase64 : bytes → string;
  base64ToBytes : string → exc bytes;
  bytesToBase58 : bytes → string;
  base58ToBytes : string → exc bytes;
  stringToBytes : string → bytes;
  bytesToString : bytes → string;
  (** [viem]: [keccak256] maps a hex string to a [0x]-prefixed hex digest. *)
  keccak256 : string → string;
  stringToHex : string → string;
  toHex : bytes → string;
  (** [tweetnacl]: the calls throw on a key or nonce of the wrong length;
      [open] returns [null] when authentication fails. *)
  box_before : bytes → bytes → exc bytes;
  box : bytes → bytes → bytes → bytes → exc bytes;
  box_open : bytes → bytes → bytes → bytes → exc (option bytes);
  secretbox : bytes → bytes → bytes → exc bytes;
  secretbox_open : bytes → bytes → bytes → exc (option bytes);
  (** [JSON.stringify] and [JSON.parse]. *)
  JSON_stringify : Json → string;
  JSON_parse : string → exc Json
}.

(** The values the environment supplies: the [i]-th reading of [Date.now()],
    the [i]-th [randomId()] and the [i]-th [randomBytes(length)]. *)
Class Environment := {
  clock : nat → Z;
  uuid : nat → string;
  entropy : nat → nat → bytes
}.

(** ** [src/lib/crypto.ts]: passphrase encryption

    [encryptWithPassphrase] derives a 256-bit key with PBKDF2-HMAC-SHA256
    and seals with AES-256-GCM, through WebCrypto when it is available and
    through [@noble] otherwise; both compute the same two standard
    functions.  AES-GCM and the hash are parameters.  PBKDF2 and HMAC are
    written out as RFC 8018 (section 5.2) and RFC 2104 define them, because
    the way HMAC pads its key decides which passphrases derive the same
    key. *)

Class PassphrasePrimitives := {
  (** [hasSubtleCrypto()] *)
  hasSubtleCrypto : bool;
  (** SHA-256 (block size 64 bytes, output 32 bytes) *)
  sha256 : bytes → bytes;
  (** AES-GCM under a key and an IV; decryption throws when the tag does not
      verify *)
  aesGcmEncrypt : bytes → bytes → bytes → bytes;
  aesGcmDecrypt : bytes → bytes → bytes → exc bytes
}.

Definition byte_xor (a b : byte) : byte :=
  default x00 (Byte.of_N (N.lxor (Byte.to_N a) (Byte.to_N b))).

Definition xorBytes (a b : bytes) : bytes := zip_with byte_xor a b.

(** Four-byte big-endian encoding of a block index. *)
Definition int32be (i : N) : bytes :=
  (λ shift, default x00 (Byte.of_N (N.land (N.shiftr i shift) 255)))
    <$> [24%N; 16%N; 8%N; 0%N].

Section PassphraseCrypto.
Context `{Primitives} `{PassphrasePrimitives}.

Definition AES_KEY_LENGTH : nat := 256.
Definition PBKDF2_ITERATIONS : N := 120000.

(** RFC 2104: a key longer than the block is hashed, then the key is padded
    with zero bytes to the block size. *)
Definition hmacBlockKey (key : bytes) : bytes :=
  let k0 := if 64 <? length key then sha256 key else key in
  k0 ++ replicate (64 - length k0) x00.

Definition hmacRfc2104 (key msg : bytes) : bytes :=
  let k := hmacBlockKey key in
  sha256 ((byte_xor x5c <$> k) ++ sha256 ((byte_xor x36 <$> k) ++ msg)).

(** RFC 8018: block [i] is [U_1 xor ... xor U_c] with
    [U_1 = PRF(P, S || INT(i))] and [U_j = PRF(P, U_(j-1))]. *)
Definition pbkdf2Block (password salt : bytes) (c : N) (i : N) : bytes :=
  let u1 := hmacRfc2104 password (salt ++ int32be i) in
  (N.iter (c - 1)
     (λ acc : bytes * bytes,
        let u := hmacRfc2104 password acc.1 in (u, xorBytes acc.2 u))
     (u1, u1)).2.

Definition pbkdf2 (password salt : bytes) (c : N) (dkLen : nat) : bytes :=
  let blocks := (dkLen + 31) / 32 in
  take dkLen
    (mjoin ((λ i, pbkdf2Block password salt c (N.of_nat i)) <$> seq 1 blocks)).

Definition deriveAesKeyBytes (passphrase : string) (salt : bytes) : bytes :=
  pbkdf2 (stringToBytes passphrase) salt PBKDF2_ITERATIONS (AES_KEY_LENGTH / 8).

(** [deriveAesKey]: WebCrypto's PBKDF2 [deriveKey]; the [CryptoKey] it
    returns stands for the derived key bytes. *)
Definition deriveAesKey (passphrase : string) (salt : bytes) : exc bytes :=
  if hasSubtleCrypto
  then Ok (pbkdf2 (stringToBytes passphrase) salt PBKDF2_ITERATIONS
                  (AES_KEY_LENGTH / 8))
  else Throw "WebCrypto is not available.".

Record Sealed := mkSealedData {
  sealed_ciphertext64 : string;
  sealed_iv64 : string;
  sealed_salt64 : string
}.

(** [salt] and [iv] are the values of [randomBytes(16)] and
    [randomBytes(12)]. *)
Definition encryptWithPassphrase (salt iv : bytes) (data : bytes)
    (passphrase : string) : exc Sealed :=
  if hasSubtleCrypto then
    key ← deriveAesKey passphrase salt;
    let ciphertext := aesGcmEncrypt key iv data in
    Ok (mkSealedData (bytesToBase64 ciphertext) (bytesToBase64 iv)
                     (bytesToBase64 salt))
  else
    let keyBytes := deriveAesKeyBytes passphrase salt in
    let ciphertext := aesGcmEncrypt keyBytes iv data in
    Ok (mkSealedData (bytesToBase64 ciphertext) (bytesToBase64 iv)
                     (bytesToBase64 salt)).

Definition decryptWithPassphrase (payload : Sealed) (passphrase : string)
    : exc bytes :=
  salt ← base64ToBytes (sealed_salt64 payload);
  iv ← base64ToBytes (sealed_iv64 payload);
  ciphertext ← base64ToBytes (sealed_ciphertext64 payload);
  if hasSubtleCrypto then
    key ← deriveAesKey passphrase salt;
    aesGcmDecrypt key iv ciphertext
  else
    let keyBytes := deriveAesKeyBytes passphrase salt in
    aesGcmDecrypt keyBytes iv ciphertext.

End PassphraseCrypto.

(** ** Records of [src/types/chat.ts] used by the ratchet *)

Record SessionRecord := mkSession {
  conversationId : string;
  kind : ChatKind;
  peerPubKey : string;
  groupId : option string;
  sendCK : string;
  recvCK : string;
  sendN : nat;
  recvN : nat;
  skippedKeys : gmap nat string
}.

(** [{ ...session, sendCK, sendN }] *)
Definition withSend (s : SessionRecord) (ck : string) (n : nat) : SessionRecord :=
  mkSession (conversationId s) (kind s) (peerPubKey s) (groupId s)
            ck (recvCK s) n (recvN s) (skippedKeys s).

(** [{ ...session, skippedKeys }] *)
Definition withSkipped (s : SessionRecord) (sk : gmap nat string) : SessionRecord :=
  mkSession (conversationId s) (kind s) (peerPubKey s) (groupId s)
            (sendCK s) (recvCK s) (sendN s) (recvN s) sk.

(** [{ ...session, recvCK, recvN, skippedKeys }] *)
Definition withRecv (s : SessionRecord) (ck : string) (n : nat)
    (sk : gmap nat string) : SessionRecord :=
  mkSession (conversationId s) (kind s) (peerPubKey s) (groupId s)
            (sendCK s) ck (sendN s) n sk.

(** Result object of [deriveReceiveKey]. *)
Record ReceiveResult := mkReceive {
  messageKey : option bytes;
  nextSession : SessionRecord;
  fromCache : bool
}.

(** The comparator [(a, b) => Number(a[0]) - Number(b[0])] on the entries
    of an object whose keys are indices. *)
Definition key_le (a b : nat * string) : Prop := (a.1 ≤ b.1)%nat.
Global Instance key_le_dec : RelDecision key_le.
Proof. intros a b; unfold key_le; apply _. Defined.

(** ** [src/lib/ratchet.ts] *)

Section Ratchet.
Context `{Primitives}.

Definition MSG_LABEL : bytes := stringToBytes "msg".
Definition CK_LABEL : bytes := stringToBytes "ck".

Record ChainKeys := mkChainKeys { ck_send : bytes; ck_recv : bytes }.

Definition deriveChainKeys (rootKey : bytes) (myPubKey otherPubKey : string)
    : ChainKeys :=
  let sendCK := hmacSha256 rootKey (stringToBytes ("send:" ++ myPubKey)) in
  let recvCK := hmacSha256 rootKey (stringToBytes ("send:" ++ otherPubKey)) in
  mkChainKeys sendCK recvCK.

Definition advanceSend (session : SessionRecord)
    : exc (bytes * SessionRecord) :=
  currentCK ← base64ToBytes (sendCK session);
  let messageKey := hmacSha256 currentCK MSG_LABEL in
  let nextCK := hmacSha256 currentCK CK_LABEL in
  Ok (messageKey,
      withSend session (bytesToBase64 nextCK) (sendN session + 1)).

(** [trimSkipped]: [Object.entries] sorted by numeric key, keeping the
    last [maxSkipped] of them.  The keys are distinct, so the sorted list
    does not depend on the order [Object.entries] lists them in. *)

Definition trimSkipped (skipped : gmap nat string) (maxSkipped : nat)
    : gmap nat string :=
  let entries := map_to_list skipped in
  if length entries <=? maxSkipped then skipped
  else
    let sorted := merge_sort key_le entries in
    list_to_map (drop (length sorted - maxSkipped) sorted).

(** State of the [for] loop of [deriveReceiveKey]: [ck], [derivedKey] and
    the working copy [skipped]. *)
Record LoopState := mkLoop {
  loop_ck : bytes;
  loop_derived : option bytes;
  loop_skipped : gmap nat string
}.

(** One iteration of the loop body at [index]. *)
Definition recvBody (n maxSkipped index : nat) (st : LoopState) : LoopState :=
  let messageKey := hmacSha256 (loop_ck st) MSG_LABEL in
  let ck := hmacSha256 (loop_ck st) CK_LABEL in
  if index =? n then
    mkLoop ck (Some messageKey) (loop_skipped st)
  else if size (loop_skipped st) <? maxSkipped then
    mkLoop ck (loop_derived st)
           (<[index := bytesToBase64 messageKey]> (loop_skipped st))
  else
    mkLoop ck (loop_derived st) (loop_skipped st).

(** [count] iterations starting at [index] (the loop runs
    [n + 1 - recvN] times, from [recvN] to [n]). *)
Fixpoint recvLoop (n maxSkipped count index : nat) (st : LoopState)
    : LoopState :=
  match count with
  | 0 => st
  | S count' =>
      recvLoop n maxSkipped count' (S index) (recvBody n maxSkipped index st)
  end.

Definition deriveReceiveKey (session : SessionRecord) (n maxSkipped : nat)
    : exc ReceiveResult :=
  let skipped := skippedKeys session in
  if n <? recvN session then
    match skipped !! n with
    | None => Ok (mkReceive None session false)
    | Some cached =>
        if String.eqb cached "" then Ok (mkReceive None session false)
        else
          key ← base64ToBytes cached;
          Ok (mkReceive (Some key)
                (withSkipped session (delete n skipped)) true)
    end
  else
    ck ← base64ToBytes (recvCK session);
    let st := recvLoop n maxSkipped (S n - recvN session) (recvN session)
                (mkLoop ck None skipped) in
    Ok (mkReceive (loop_derived st)
          (withRecv session (bytesToBase64 (loop_ck st)) (n + 1)
             (trimSkipped (loop_skipped st) maxSkipped))
          false).

End Ratchet.

(** ** Drivers and reference values for the ratchet *)

Section RatchetRuns.
Context `{Primitives}.

(** The chain key after [i] advancements of a chain that starts at [ck0],
    and the message key derived at step [i]. *)
Definition chainKey (ck0 : bytes) (i : nat) : bytes :=
  Nat.iter i (λ ck, hmacSha256 ck CK_LABEL) ck0.

Definition msgKey (ck0 : bytes) (i : nat) : bytes :=
  hmacSha256 (chainKey ck0 i) MSG_LABEL.

(** [k] successive calls of [advanceSend]; the key at position [i] of the
    result is the one derived at counter [sendN + i]. *)
Fixpoint advanceSendN (k : nat) (session : SessionRecord)
    : exc (list bytes * SessionRecord) :=
  match k with
  | 0 => Ok ([], session)
  | S k' =>
      r ← advanceSend session;
      rest ← advanceSendN k' r.2;
      Ok (r.1 :: rest.1, rest.2)
  end.

(** [deriveReceiveKey] applied to the counters of [order] as they arrive,
    each call continuing from the [nextSession] of the previous one. *)
Fixpoint receiveAll (maxSkipped : nat) (session : SessionRecord)
    (order : list nat) : exc (list (option bytes) * SessionRecord) :=
  match order with
  | [] => Ok ([], session)
  | n :: rest =>
      r ← deriveReceiveKey session n maxSkipped;
      more ← receiveAll maxSkipped (nextSession r) rest;
      Ok (messageKey r :: more.1, more.2)
  end.

(** No counter of [order] arrives more than [w] behind the receiver's
    [recvN], which is [hi] now and one past the largest counter seen so
    far afterwards. *)
Fixpoint within_window (w hi : nat) (order : list nat) : bool :=
  match order with
  | [] => true
  | n :: rest => (hi <=? n + w) && within_window w (Nat.max hi (S n)) rest
  end.

(** The entries [index .. index+count-1] of the chain, as the loop caches
    them. *)
Fixpoint cacheRange (ck0 : bytes) (index count : nat) (m : gmap nat string)
    : gmap nat string :=
  match count with
  | 0 => m
  | S c => cacheRange ck0 (S index) c
             (<[index := bytesToBase64 (msgKey ck0 index)]> m)
  end.

(** The cache a receiver at [recvN = hi] holds while the counters of
    [pending] are still to arrive: the keys of those below [hi]. *)
Fixpoint pendingCache (ck0 : bytes) (hi : nat) (pending : list nat)
    : gmap nat string :=
  match pending with
  | [] => ∅
  | j :: rest =>
      if decide (j < hi)
      then <[j := bytesToBase64 (msgKey ck0 j)]> (pendingCache ck0 hi rest)
      else pendingCache ck0 hi rest
  end.

(** Sessions reachable from [s0] by [advanceSend] and [deriveReceiveKey]
    calls that return. *)
Inductive reachable (maxSkipped : nat) (s0 : SessionRecord)
    : SessionRecord → Prop :=
| reach_init : reachable maxSkipped s0 s0
| reach_send s mk s' :
    reachable maxSkipped s0 s →
    advanceSend s = Ok (mk, s') →
    reachable maxSkipped s0 s'
| reach_recv s n r :
    reachable maxSkipped s0 s →
    deriveReceiveKey s n maxSkipped = Ok r →
    reachable maxSkipped s0 (nextSession r).

End RatchetRuns.

(** ** JavaScript array sorting

    [Array.prototype.sort] is stable; [le x y] says that the comparator does
    not put [y] strictly before [x].  A stable sort is determined by its
    comparator, so insertion sort stands for it. *)

Fixpoint insertSorted {A} (le : A → A → bool) (x : A) (l : list A) : list A :=
  match l with
  | [] => [x]
  | y :: l' => if le x y then x :: y :: l' else y :: insertSorted le x l'
  end.

Definition jsSort {A} (le : A → A → bool) (l : list A) : list A :=
  foldr (insertSorted le) [] l.

(** The default comparator of [sort()] on strings: code-unit order. *)
Definition stringLe (a b : string) : bool :=
  match String.compare a b with
  | Gt => false
  | _ => true
  end.

(** ** [src/lib/topics.ts] *)

Section Topics.
Context `{Primitives}.

Definition stripHexPrefix (value : string) : string :=
  if String.prefix "0x" value
  then String.substring 2 (String.length value - 2) value
  else value.

Definition inboxTopic (publicKey : bytes) : string :=
  let hash := stripHexPrefix (keccak256 (toHex publicKey)) in
  String.append "/app/1/inbox/" hash.

Definition conversationIdFromPubKeys (pubKeyA pubKeyB : string) : string :=
  let sorted := jsSort stringLe [pubKeyA; pubKeyB] in
  stripHexPrefix (keccak256 (stringToHex (String.concat ":" sorted))).

Definition dmTopic (conversationId : string) : string :=
  String.append "/app/1/dm/" conversationId.

Definition groupTopic (groupId : string) : string :=
  String.append "/app/1/group/" groupId.

Definition groupSessionId (groupId pubKeyA pubKeyB : string) : string :=
  let sorted := jsSort stringLe [pubKeyA; pubKeyB] in
  stripHexPrefix
    (keccak256
       (stringToHex
          (String.append groupId
             (String.append ":" (String.concat ":" sorted))))).

End Topics.

(** ** Records of [src/types/chat.ts] kept by the store *)

Record IdentityRecord := mkIdentity {
  identity_publicKey : string;
  encryptedSecretKey : string;
  identity_iv : string;
  identity_salt : string;
  identity_createdAt : Z
}.

Record RequestRecord := mkRequest {
  request_id : string;
  request_kind : ChatKind;
  request_fromPubKey : string;
  request_toPubKey : string;
  intro : string;
  request_status : RequestStatus;
  request_createdAt : Z;
  request_groupId : option string;
  groupName : option string;
  members : option (list string)
}.

Record RequestStateRecord := mkRequestState {
  requestState_id : string;
  requestState_status : RequestStatus;
  updatedAt : Z
}.

Record ChatRecord := mkChat {
  chat_id : string;
  chat_kind : ChatKind;
  title : string;
  participants : list string;
  accepted : bool;
  chat_createdAt : Z;
  lastMessageAt : option Z;
  unreadCount : option nat;
  chat_groupId : option string
}.

Record MessageRecord := mkMessage {
  message_id : string;
  chatId : string;
  message_type : MessageKind;
  message_fromPubKey : string;
  message_toPubKey : option string;
  body : option string;
  message_timestamp : Z;
  status : option MessageStatus;
  message_n : option nat;
  replyTo : option string;
  edited : option bool;
  deleted : option bool;
  keyMismatch : option bool;
  message_attachmentId : option string;
  localOnly : option bool
}.

Record ReactionRecord := mkReaction {
  reaction_id : string;
  reaction_messageId : string;
  reaction_fromPubKey : string;
  emoji : string;
  reaction_timestamp : Z
}.

Record AttachmentRecord := mkAttachment {
  attachment_id : string;
  attachment_messageId : string;
  attachment_name : string;
  mime : string;
  attachment_size : nat;
  attachment_data : option string;
  attachment_totalChunks : option nat;
  receivedChunks : option nat;
  chunks : option (gmap nat string);
  complete : bool
}.

(** ** The store, the database and the transport

    [ChatState] is the data part of the zustand store of
    [src/store/chatStore.ts]; [Idb] is the content of the IndexedDB object
    stores of [src/lib/idb.ts], each keyed by its key path. *)

Record ChatState := mkChatState {
  identity : option IdentityRecord;
  unlockedSecretKey : option bytes;
  chatKey : option string;
  state_inboxTopic : option string;
  requests : list RequestRecord;
  chats : list ChatRecord;
  messages : gmap string (list MessageRecord);
  reactions : gmap string (list ReactionRecord);
  attachments : gmap string AttachmentRecord;
  sessions : gmap string SessionRecord;
  typing : gmap string (gmap string bool);
  activeChatId : option string;
  wakuReady : bool;
  errors : list string
}.

Record Idb := mkIdb {
  idb_identity : option IdentityRecord;
  idb_requests : gmap string RequestRecord;
  idb_requestStates : gmap string RequestStateRecord;
  idb_chats : gmap string ChatRecord;
  idb_sessions : gmap string SessionRecord;
  idb_messages : gmap string MessageRecord;
  idb_reactions : gmap string ReactionRecord;
  idb_attachments : gmap string AttachmentRecord
}.

(** What a handler does to the outside, in the order it does it. *)
Inductive Effect :=
| PutRequest (r : RequestRecord)
| PutRequestState (r : RequestStateRecord)
| PutChat (c : ChatRecord)
| PutSession (s : SessionRecord)
| PutMessage (m : MessageRecord)
| PutReaction (r : ReactionRecord)
| PutAttachment (a : AttachmentRecord)
| Publish (contentTopic : string) (payload : bytes)
| Subscribe (contentTopic : string).

Record World := mkWorld {
  store : ChatState;
  idb : Idb;
  (** the module-level [subscribedTopics] set *)
  subscribedTopics : gset string;
  trace : list Effect;
  (** how many values of the environment have been consumed *)
  clockReads : nat;
  idDraws : nat;
  byteDraws : nat
}.

(** [{ ...state, field: f(state.field) }] for the fields the handlers
    write. *)
Definition set_requests (f : list RequestRecord → list RequestRecord)
    (st : ChatState) : ChatState :=
  mkChatState (identity st) (unlockedSecretKey st) (chatKey st)
    (state_inboxTopic st) (f (requests st)) (chats st) (messages st)
    (reactions st) (attachments st) (sessions st) (typing st)
    (activeChatId st) (wakuReady st) (errors st).

Definition set_chats (f : list ChatRecord → list ChatRecord)
    (st : ChatState) : ChatState :=
  mkChatState (identity st) (unlockedSecretKey st) (chatKey st)
    (state_inboxTopic st) (requests st) (f (chats st)) (messages st)
    (reactions st) (attachments st) (sessions st) (typing st)
    (activeChatId st) (wakuReady st) (errors st).

Definition set_messages
    (f : gmap string (list MessageRecord) → gmap string (list MessageRecord))
    (st : ChatState) : ChatState :=
  mkChatState (identity st) (unlockedSecretKey st) (chatKey st)
    (state_inboxTopic st) (requests st) (chats st) (f (messages st))
    (reactions st) (attachments st) (sessions st) (typing st)
    (activeChatId st) (wakuReady st) (errors st).

Definition set_reactions
    (f : gmap string (list ReactionRecord) → gmap string (list ReactionRecord))
    (st : ChatState) : ChatState :=
  mkChatState (identity st) (unlockedSecretKey st) (chatKey st)
    (state_inboxTopic st) (requests st) (chats st) (messages st)
    (f (reactions st)) (attachments st) (sessions st) (typing st)
    (activeChatId st) (wakuReady st) (errors st).

Definition set_attachments
    (f : gmap string AttachmentRecord → gmap string AttachmentRecord)
    (st : ChatState) : ChatState :=
  mkChatState (identity st) (unlockedSecretKey st) (chatKey st)
    (state_inboxTopic st) (requests st) (chats st) (messages st)
    (reactions st) (f (attachments st)) (sessions st) (typing st)
    (activeChatId st) (wakuReady st) (errors st).

Definition set_sessions
    (f : gmap string SessionRecord → gmap string SessionRecord)
    (st : ChatState) : ChatState :=
  mkChatState (identity st) (unlockedSecretKey st) (chatKey st)
    (state_inboxTopic st) (requests st) (chats st) (messages st)
    (reactions st) (attachments st) (f (sessions st)) (typing st)
    (activeChatId st) (wakuReady st) (errors st).

Definition set_typing
    (f : gmap string (gmap string bool) → gmap string (gmap string bool))
    (st : ChatState) : ChatState :=
  mkChatState (identity st) (unlockedSecretKey st) (chatKey st)
    (state_inboxTopic st) (requests st) (chats st) (messages st)
    (reactions st) (attachments st) (sessions st) (f (typing st))
    (activeChatId st) (wakuReady st) (errors st).

Definition set_errors (f : list string → list string)
    (st : ChatState) : ChatState :=
  mkChatState (identity st) (unlockedSecretKey st) (chatKey st)
    (state_inboxTopic st) (requests st) (chats st) (messages st)
    (reactions st) (attachments st) (sessions st) (typing st)
    (activeChatId st) (wakuReady st) (f (errors st)).

(** ** The handler monad

    A handler is a state transformer on the [World] that returns a value or
    throws; what it did before it threw stays done. *)

Definition M (A : Type) : Type := World → exc A * World.

Global Instance M_ret : MRet M := λ A a w, (Ok a, w).
Global Instance M_bind : MBind M := λ A B f m w,
  match m w with
  | (Ok a, w') => f a w'
  | (Throw e, w') => (Throw e, w')
  end.

Definition liftExc {A} (x : exc A) : M A := λ w, (x, w).
Definition throw {A} (e : string) : M A := λ w, (Throw e, w).

Definition getState : M ChatState := λ w, (Ok (store w), w).

Definition setState (f : ChatState → ChatState) : M unit := λ w,
  (Ok tt,
   mkWorld (f (store w)) (idb w) (subscribedTopics w) (trace w)
           (clockReads w) (idDraws w) (byteDraws w)).

Definition getIdb : M Idb := λ w, (Ok (idb w), w).

(** A write to the database: the new content and the effect logged. *)
Definition putIdb (f : Idb → Idb) (e : Effect) : M unit := λ w,
  (Ok tt,
   mkWorld (store w) (f (idb w)) (subscribedTopics w) (trace w ++ [e])
           (clockReads w) (idDraws w) (byteDraws w)).

Definition emit (e : Effect) : M unit := λ w,
  (Ok tt,
   mkWorld (store w) (idb w) (subscribedTopics w) (trace w ++ [e])
           (clockReads w) (idDraws w) (byteDraws w)).

(** ** [src/lib/idb.ts] and [src/lib/waku.ts] *)

Definition setRequest (r : RequestRecord) : M unit :=
  putIdb (λ d, mkIdb (idb_identity d) (<[request_id r := r]> (idb_requests d))
                (idb_requestStates d) (idb_chats d) (idb_sessions d)
                (idb_messages d) (idb_reactions d) (idb_attachments d))
         (PutRequest r).

Definition setRequestState (r : RequestStateRecord) : M unit :=
  putIdb (λ d, mkIdb (idb_identity d) (idb_requests d)
                (<[requestState_id r := r]> (idb_requestStates d))
                (idb_chats d) (idb_sessions d)
                (idb_messages d) (idb_reactions d) (idb_attachments d))
         (PutRequestState r).

Definition setChat (c : ChatRecord) : M unit :=
  putIdb (λ d, mkIdb (idb_identity d) (idb_requests d) (idb_requestStates d)
                (<[chat_id c := c]> (idb_chats d)) (idb_sessions d)
                (idb_messages d) (idb_reactions d) (idb_attachments d))
         (PutChat c).

Definition setSession (session : SessionRecord) : M unit :=
  putIdb (λ d, mkIdb (idb_identity d) (idb_requests d) (idb_requestStates d)
                (idb_chats d)
                (<[conversationId session := session]> (idb_sessions d))
                (idb_messages d) (idb_reactions d) (idb_attachments d))
         (PutSession session).

Definition setMessage (m : MessageRecord) : M unit :=
  putIdb (λ d, mkIdb (idb_identity d) (idb_requests d) (idb_requestStates d)
                (idb_chats d) (idb_sessions d)
                (<[message_id m := m]> (idb_messages d))
                (idb_reactions d) (idb_attachments d))
         (PutMessage m).

Definition setReaction (r : ReactionRecord) : M unit :=
  putIdb (λ d, mkIdb (idb_identity d) (idb_requests d) (idb_requestStates d)
                (idb_chats d) (idb_sessions d) (idb_messages d)
                (<[reaction_id r := r]> (idb_reactions d)) (idb_attachments d))
         (PutReaction r).

Definition setAttachment (a : AttachmentRecord) : M unit :=
  putIdb (λ d, mkIdb (idb_identity d) (idb_requests d) (idb_requestStates d)
                (idb_chats d) (idb_sessions d) (idb_messages d)
                (idb_reactions d) (<[attachment_id a := a]> (idb_attachments d)))
         (PutAttachment a).

Definition getSession (conversationId : string) : M (option SessionRecord) :=
  d ← getIdb; mret (idb_sessions d !! conversationId).

Definition getAttachment (attachmentId : string) : M (option AttachmentRecord) :=
  d ← getIdb; mret (idb_attachments d !! attachmentId).

Definition publishPayload (contentTopic : string) (payload : bytes) : M unit :=
  emit (Publish contentTopic payload).

(** The handler subscribed is always [handleIncoming]. *)
Definition subscribeTopic (contentTopic : string) : M unit :=
  emit (Subscribe contentTopic).

(** ** [src/store/chatStore.ts]: helpers *)

Section Engine.
Context `{Primitives} `{Environment}.

Definition MAX_SKIPPED_KEYS : nat := 50.

(** A JavaScript string is falsy exactly when it is empty. *)
Definition truthy (x : string) : bool := negb (String.eqb x "").

Definition now : M Z := λ w,
  (Ok (clock (clockReads w)),
   mkWorld (store w) (idb w) (subscribedTopics w) (trace w)
           (S (clockReads w)) (idDraws w) (byteDraws w)).

Definition randomId : M string := λ w,
  (Ok (uuid (idDraws w)),
   mkWorld (store w) (idb w) (subscribedTopics w) (trace w)
           (clockReads w) (S (idDraws w)) (byteDraws w)).

Definition randomBytes (len : nat) : M bytes := λ w,
  (Ok (entropy (byteDraws w) len),
   mkWorld (store w) (idb w) (subscribedTopics w) (trace w)
           (clockReads w) (idDraws w) (S (byteDraws w))).

(** [[...state.errors, message].slice(-5)] *)
Definition addError (message : string) : M unit :=
  setState (set_errors (λ errs,
    let all := errs ++ [message] in drop (length all - 5) all)).

Definition encodePayload (payload : Json) : bytes :=
  stringToBytes (JSON_stringify payload).

Definition decodePayload (b : bytes) : Json :=
  match JSON_parse (bytesToString b) with
  | Ok v => v
  | Throw _ => JNull
  end.

Definition messageListForChat (messages : gmap string (list MessageRecord))
    (chatId : string) : list MessageRecord :=
  default [] (messages !! chatId).

(** The comparator [(a, b) => a.timestamp - b.timestamp]. *)
Definition timestampLe (a b : MessageRecord) : bool :=
  (message_timestamp a <=? message_timestamp b)%Z.

Definition updateMessageList (messages : gmap string (list MessageRecord))
    (chatId : string) (next : MessageRecord)
    : gmap string (list MessageRecord) :=
  let list := messageListForChat messages chatId ++ [next] in
  <[chatId := jsSort timestampLe list]> messages.

Definition mergeMessageUpdate (messages : gmap string (list MessageRecord))
    (chatId messageId : string) (updater : MessageRecord → MessageRecord)
    : gmap string (list MessageRecord) :=
  let list :=
    (λ item, if String.eqb (message_id item) messageId
             then updater item else item)
      <$> messageListForChat messages chatId in
  <[chatId := list]> messages.

Definition ensureSubscription (topic : string) : M unit := λ w,
  if decide (topic ∈ subscribedTopics w) then (Ok tt, w)
  else
    match subscribeTopic topic w with
    | (Ok _, w') =>
        (Ok tt,
         mkWorld (store w') (idb w') ({[topic]} ∪ subscribedTopics w')
                 (trace w') (clockReads w') (idDraws w') (byteDraws w'))
    | (Throw e, w') => (Throw e, w')
    end.

(** [createSystemMessage(chatId, body)]; the optional third argument is
    never passed, so [timestamp] is [now()]. *)
Definition createSystemMessage (chatId body : string) : M MessageRecord :=
  timestamp ← now;
  id ← randomId;
  mret (mkMessage id chatId kind_system "system" None (Some body) timestamp
          None None None None None None None None).

(** [{ ...message, keyMismatch: true }] and the other spreads over a
    message. *)
Definition withKeyMismatch (m : MessageRecord) : MessageRecord :=
  mkMessage (message_id m) (chatId m) (message_type m) (message_fromPubKey m)
    (message_toPubKey m) (body m) (message_timestamp m) (status m)
    (message_n m) (replyTo m) (edited m) (deleted m) (Some true)
    (message_attachmentId m) (localOnly m).

Definition withStatus (st : MessageStatus) (m : MessageRecord) : MessageRecord :=
  mkMessage (message_id m) (chatId m) (message_type m) (message_fromPubKey m)
    (message_toPubKey m) (body m) (message_timestamp m) (Some st)
    (message_n m) (replyTo m) (edited m) (deleted m) (keyMismatch m)
    (message_attachmentId m) (localOnly m).

Definition withEdit (newBody : string) (m : MessageRecord) : MessageRecord :=
  mkMessage (message_id m) (chatId m) (message_type m) (message_fromPubKey m)
    (message_toPubKey m) (Some newBody) (message_timestamp m) (status m)
    (message_n m) (replyTo m) (Some true) (deleted m) (keyMismatch m)
    (message_attachmentId m) (localOnly m).

Definition withDeleted (m : MessageRecord) : MessageRecord :=
  mkMessage (message_id m) (chatId m) (message_type m) (message_fromPubKey m)
    (message_toPubKey m) (Some "") (message_timestamp m) (status m)
    (message_n m) (replyTo m) (edited m) (Some true) (keyMismatch m)
    (message_attachmentId m) (localOnly m).

Definition withRequestStatus (st : RequestStatus) (r : RequestRecord)
    : RequestRecord :=
  mkRequest (request_id r) (request_kind r) (request_fromPubKey r)
    (request_toPubKey r) (intro r) st (request_createdAt r)
    (request_groupId r) (groupName r) (members r).

(** ** Sessions *)

Definition deriveRootKey (sharedSecret : bytes) (conversationId : string)
    : bytes :=
  hkdf sharedSecret (stringToBytes conversationId) (stringToBytes "root") 32.

(** The body shared by [ensureSession] (when no session exists) and
    [resetSession]: seed a session from the Diffie-Hellman secret, store
    it and return it.  [peerPubKey] is [null] when an envelope carried
    no sender; [bs58.decode] then throws. *)
Definition seedSession (conversationId : string) (kind : ChatKind)
    (peerPubKey : option string) : M SessionRecord :=
  state ← getState;
  match unlockedSecretKey state, chatKey state with
  | Some secretKey, Some myKey =>
      if truthy myKey then
        peer ← match peerPubKey with
               | Some k => mret k
               | None => throw "TypeError"
               end;
        peerBytes ← liftExc (base58ToBytes peer);
        sharedSecret ← liftExc (box_before peerBytes secretKey);
        let rootKey := deriveRootKey sharedSecret conversationId in
        let keys := deriveChainKeys rootKey myKey peer in
        let session :=
          mkSession conversationId kind peer None
                    (bytesToBase64 (ck_send keys)) (bytesToBase64 (ck_recv keys))
                    0 0 ∅ in
        setSession session;;
        setState (set_sessions (λ ss, <[conversationId := session]> ss));;
        mret session
      else throw "Missing secret key"
  | _, _ => throw "Missing secret key"
  end.

Definition ensureSession (conversationId : string) (kind : ChatKind)
    (peerPubKey : option string) : M SessionRecord :=
  state ← getState;
  existing ← match sessions state !! conversationId with
             | Some s => mret (Some s)
             | None => getSession conversationId
             end;
  match existing with
  | Some s => mret s
  | None => seedSession conversationId kind peerPubKey
  end.

Definition resetSession (conversationId : string) (kind : ChatKind)
    (peerPubKey : option string) : M SessionRecord :=
  seedSession conversationId kind peerPubKey.

(** ** Helpers of the outbound handlers *)

(** [x || randomId()] *)
Definition orRandomId (x : option string) : M string :=
  match x with
  | Some v => if truthy v then mret v else randomId
  | None => randomId
  end.

(** [chat.participants.find((key) => key !== state.chatKey)] *)
Definition findPeer (chat : ChatRecord) (state : ChatState) : option string :=
  List.find (λ key, bool_decide (Some key ≠ chatKey state)) (participants chat).

Fixpoint forEachM {A} (f : A → M unit) (l : list A) : M unit :=
  match l with
  | [] => mret tt
  | x :: l' => f x;; forEachM f l'
  end.

Fixpoint mapM {A B} (f : A → M B) (l : list A) : M (list B) :=
  match l with
  | [] => mret []
  | x :: l' => y ← f x; ys ← mapM f l'; mret (y :: ys)
  end.

(** [prev.chats.map((item) => item.id === chatId
       ? { ...item, lastMessageAt: now() } : item)]: the clock is read
    once for every matching chat. *)
Definition touchChat (chatId : string) (item : ChatRecord) : M ChatRecord :=
  if String.eqb (chat_id item) chatId then
    t ← now;
    mret (mkChat (chat_id item) (chat_kind item) (title item)
            (participants item) (accepted item) (chat_createdAt item)
            (Some t) (unreadCount item) (chat_groupId item))
  else mret item.

(** A [set((prev) => ...)] whose callback computes the new chats in [M]. *)
Definition setChatsM (f : ChatRecord → M ChatRecord) : M unit :=
  prev ← getState;
  next ← mapM f (chats prev);
  setState (set_chats (λ _, next)).

(** ** The inbound pipeline *)

(** The key-mismatch notice of [handleEncryptedMessage]: the record is
    stored as created, the copy put in the conversation carries
    [keyMismatch: true]. *)
Definition reportKeyMismatch (chatId : string) : M unit :=
  keyMismatch ← createSystemMessage chatId "Key mismatch. Rekey to continue.";
  setMessage keyMismatch;;
  setState (set_messages (λ ms,
    updateMessageList ms chatId (withKeyMismatch keyMismatch))).

(** [state.messages[chatId]?.find((msg) => msg.id === messageId)] *)
Definition findMessage (state : ChatState) (chatId messageId : string)
    : option MessageRecord :=
  match messages state !! chatId with
  | Some l => List.find (λ msg, String.eqb (message_id msg) messageId) l
  | None => None
  end.

(** The chats update of an incoming text: [lastMessageAt: now()] and the
    unread counter, for every chat with this id. *)
Definition receiveIntoChat (chatId : string) (isActive : bool)
    (item : ChatRecord) : M ChatRecord :=
  if String.eqb (chat_id item) chatId then
    t ← now;
    mret (mkChat (chat_id item) (chat_kind item) (title item)
            (participants item) (accepted item) (chat_createdAt item)
            (Some t)
            (Some (if isActive then 0 else default 0 (unreadCount item) + 1))
            (chat_groupId item))
  else mret item.

(** The chunks in ascending index order, decoded and concatenated. *)
Fixpoint mergeChunks (ordered : list (nat * string)) : exc bytes :=
  match ordered with
  | [] => Ok []
  | (_, data) :: rest =>
      chunk ← base64ToBytes data;
      more ← mergeChunks rest;
      Ok (chunk ++ more)
  end.

Definition handleInnerPayload (chatId fromPubKey : string) (inner : Json)
    (messageId : option string) : M unit :=
  state ← getState;
  match inner with
  | JInner (inner_text body replyTo) =>
      id ← orRandomId messageId;
      timestamp ← now;
      let message :=
        mkMessage id chatId kind_text fromPubKey None (Some body) timestamp
          (Some msg_delivered) None replyTo None None None None None in
      setMessage message;;
      let isActive := bool_decide (activeChatId state = Some chatId) in
      setState (set_messages (λ ms, updateMessageList ms chatId message));;
      setChatsM (receiveIntoChat chatId isActive)
  | JInner (inner_reaction targetId emoji) =>
      id ← randomId;
      timestamp ← now;
      let reaction := mkReaction id targetId fromPubKey emoji timestamp in
      setReaction reaction;;
      setState (set_reactions (λ rs,
        <[targetId := default [] (rs !! targetId) ++ [reaction]]> rs))
  | JInner (inner_edit targetId newBody) =>
      match findMessage state chatId targetId with
      | Some existing => setMessage (withEdit newBody existing)
      | None => mret tt
      end;;
      setState (set_messages (λ ms,
        mergeMessageUpdate ms chatId targetId (withEdit newBody)))
  | JInner (inner_delete targetId) =>
      match findMessage state chatId targetId with
      | Some existing => setMessage (withDeleted existing)
      | None => mret tt
      end;;
      setState (set_messages (λ ms,
        mergeMessageUpdate ms chatId targetId withDeleted))
  | JInner (inner_typing isTyping) =>
      setState (set_typing (λ ty,
        <[chatId := <[fromPubKey := isTyping]> (default ∅ (ty !! chatId))]> ty))
  | JInner (inner_attachment_meta attachmentId name mime size totalChunks) =>
      id ← orRandomId messageId;
      timestamp ← now;
      let message :=
        mkMessage id chatId kind_attachment_meta fromPubKey None (Some name)
          timestamp (Some msg_delivered) None None None None None
          (Some attachmentId) None in
      let attachment :=
        mkAttachment attachmentId id name mime size None (Some totalChunks)
          (Some 0) (Some ∅) false in
      setMessage message;;
      setAttachment attachment;;
      setState (set_messages (λ ms, updateMessageList ms chatId message));;
      setState (set_attachments (λ ats, <[attachmentId := attachment]> ats))
  | JInner (inner_attachment_chunk attachmentId index _ data) =>
      found ← match attachments state !! attachmentId with
              | Some a => mret (Some a)
              | None => getAttachment attachmentId
              end;
      match found with
      | None => mret tt
      | Some attachment =>
          let nextChunks := <[index := data]> (default ∅ (chunks attachment)) in
          let received := size nextChunks in
          let complete :=
            bool_decide (Some received = attachment_totalChunks attachment) in
          mergedData ←
            (if complete then
               merged ← liftExc (mergeChunks
                 (merge_sort key_le (map_to_list nextChunks)));
               mret (Some (bytesToBase64 merged))
             else mret (attachment_data attachment));
          let updated :=
            mkAttachment (attachment_id attachment)
              (attachment_messageId attachment) (attachment_name attachment)
              (mime attachment) (attachment_size attachment) mergedData
              (attachment_totalChunks attachment) (Some received)
              (Some nextChunks) complete in
          setAttachment updated;;
          setState (set_attachments (λ ats,
            <[attachment_id updated := updated]> ats))
      end
  | JInner inner_rekey =>
      match List.find (λ item, String.eqb (chat_id item) chatId) (chats state)
      with
      | None => mret tt
      | Some chat =>
          resetSession chatId (chat_kind chat) (Some fromPubKey);;
          notice ← createSystemMessage chatId "Session rekeyed by peer.";
          setState (set_messages (λ ms, updateMessageList ms chatId notice))
      end
  | _ => mret tt
  end.

Definition handleEncryptedMessage (chatId messageId : string)
    (fromPubKey : option string) (n : nat) (nonce64 ciphertext64 : string)
    : M unit :=
  state ← getState;
  if bool_decide (fromPubKey = chatKey state) then mret tt
  else
    match List.find (λ item, String.eqb (chat_id item) chatId) (chats state)
    with
    | None => mret tt
    | Some chat =>
        session ← ensureSession chatId dm fromPubKey;
        r ← liftExc (deriveReceiveKey session n MAX_SKIPPED_KEYS);
        match messageKey r with
        | None => reportKeyMismatch chatId
        | Some key =>
            nonce ← liftExc (base64ToBytes nonce64);
            ciphertext ← liftExc (base64ToBytes ciphertext64);
            decrypted ← liftExc (secretbox_open ciphertext nonce key);
            match decrypted with
            | None => reportKeyMismatch chatId
            | Some plain =>
                match decodePayload plain with
                | JNull => mret tt
                | inner =>
                    setSession (nextSession r);;
                    setState (set_sessions (λ ss,
                      <[chatId := nextSession r]> ss));;
                    sender ← match fromPubKey with
                             | Some k => mret k
                             | None => throw "TypeError"
                             end;
                    senderBytes ← liftExc (base58ToBytes sender);
                    timestamp ← now;
                    publishPayload (inboxTopic senderBytes)
                      (encodePayload (JEnvelope
                         (dm_ack chatId messageId (chatKey state) sender
                                 timestamp)));;
                    handleInnerPayload chatId sender inner (Some messageId)
                end
            end
        end
    end.

Definition handleGroupMessage (groupId messageId fromPubKey : string)
    (sealed : list SealedEntry) : M unit :=
  state ← getState;
  match chatKey state with
  | None => mret tt
  | Some myKey =>
      if truthy myKey then
        match List.find (λ item, String.eqb (chat_id item) groupId)
                        (chats state),
              List.find (λ item, String.eqb (sealed_toPubKey item) myKey) sealed
        with
        | Some chat, Some entry =>
            let convId := groupSessionId groupId myKey fromPubKey in
            session ← ensureSession convId group (Some fromPubKey);
            r ← liftExc (deriveReceiveKey session (sealed_n entry)
                           MAX_SKIPPED_KEYS);
            match messageKey r with
            | None => mret tt
            | Some key =>
                ciphertext ← liftExc (base64ToBytes (sealed_ciphertext entry));
                nonce ← liftExc (base64ToBytes (sealed_nonce entry));
                decrypted ← liftExc (secretbox_open ciphertext nonce key);
                match decrypted with
                | None => mret tt
                | Some plain =>
                    match decodePayload plain with
                    | JNull => mret tt
                    | inner =>
                        setSession (nextSession r);;
                        setState (set_sessions (λ ss,
                          <[convId := nextSession r]> ss));;
                        handleInnerPayload groupId fromPubKey inner
                                           (Some messageId)
                    end
                end
            end
        | _, _ => mret tt
        end
      else mret tt
  end.

(** The [chat_request] branch of [handleIncoming]. *)
Definition handleChatRequest (state : ChatState) (myKey : string)
    (secretKey : bytes)
    (requestId fromPubKey nonce64 ciphertext64 : string) (timestamp : Z)
    : M unit :=
  let chatId := conversationIdFromPubKeys myKey fromPubKey in
  let acceptedChat :=
    List.find (λ item, String.eqb (chat_id item) chatId && accepted item)
              (chats state) in
  match acceptedChat with
  | Some _ =>
      senderBytes ← liftExc (base58ToBytes fromPubKey);
      t ← now;
      publishPayload (inboxTopic senderBytes)
        (encodePayload (JEnvelope
           (chat_accept requestId myKey fromPubKey chatId t)))
  | None =>
      let blockedRequest :=
        List.find (λ item,
                     String.eqb (request_fromPubKey item) fromPubKey
                     && String.eqb (request_toPubKey item) myKey
                     && bool_decide (request_status item = status_blocked))
                  (requests state) in
      match blockedRequest with
      | Some _ =>
          senderBytes ← liftExc (base58ToBytes fromPubKey);
          t ← now;
          publishPayload (inboxTopic senderBytes)
            (encodePayload (JEnvelope
               (chat_blocked requestId myKey fromPubKey chatId t)))
      | None =>
          nonce ← liftExc (base64ToBytes nonce64);
          ciphertext ← liftExc (base64ToBytes ciphertext64);
          senderBytes ← liftExc (base58ToBytes fromPubKey);
          introBytes ← liftExc (box_open ciphertext nonce senderBytes secretKey);
          let intro :=
            match introBytes with
            | Some b => bytesToString b
            | None => "Unable to decrypt intro."
            end in
          createdAt ← (if (timestamp =? 0)%Z then now else mret timestamp);
          let request :=
            mkRequest requestId dm fromPubKey myKey intro status_pending
                      createdAt None None None in
          setRequest request;;
          t ← now;
          setRequestState (mkRequestState requestId status_pending t);;
          setState (set_requests (λ rs,
            filter (λ item, request_id item ≠ requestId) rs ++ [request]))
      end
  end.

(** The [chat_accept] branch. *)
Definition handleChatAccept (state : ChatState) (myKey : string)
    (requestId peer : string) : M unit :=
  let chatId := conversationIdFromPubKeys myKey peer in
  createdAt ← now;
  let chat :=
    mkChat chatId dm (String.substring 0 12 peer) [myKey; peer] true createdAt
           None None None in
  setChat chat;;
  setState (set_chats (λ cs,
    filter (λ item, chat_id item ≠ chatId) cs ++ [chat]));;
  ensureSubscription (dmTopic chatId);;
  ensureSession chatId dm (Some peer);;
  match List.find (λ item, String.eqb (request_id item) requestId)
                  (requests state) with
  | Some existingRequest =>
      let updated := withRequestStatus status_accepted existingRequest in
      setRequest updated;;
      t ← now;
      setRequestState (mkRequestState (request_id updated) status_accepted t);;
      setState (set_requests (λ rs,
        (λ item, if String.eqb (request_id item) (request_id updated)
                 then updated else item) <$> rs))
  | None => mret tt
  end;;
  let existingMessages := default [] (messages state !! chatId) in
  if (length existingMessages =? 0)%nat then
    systemMessage ← createSystemMessage chatId "Chat request accepted.";
    setMessage systemMessage;;
    setState (set_messages (λ ms, updateMessageList ms chatId systemMessage))
  else mret tt.

(** The [chat_declined] / [chat_blocked] branch. *)
Definition handleChatRefusal (state : ChatState) (newStatus : RequestStatus)
    (requestId : string) : M unit :=
  match List.find (λ item, String.eqb (request_id item) requestId)
                  (requests state) with
  | Some existing =>
      setRequest (withRequestStatus newStatus existing);;
      t ← now;
      setRequestState (mkRequestState requestId newStatus t)
  | None => mret tt
  end;;
  setState (set_requests (λ rs,
    (λ item, if String.eqb (request_id item) requestId
             then withRequestStatus newStatus item else item) <$> rs)).

(** The [group_invite] branch. *)
Definition handleGroupInvite (myKey : string) (secretKey : bytes)
    (fromPubKey nonce64 ciphertext64 : string) : M unit :=
  nonce ← liftExc (base64ToBytes nonce64);
  ciphertext ← liftExc (base64ToBytes ciphertext64);
  senderBytes ← liftExc (base58ToBytes fromPubKey);
  introBytes ← liftExc (box_open ciphertext nonce senderBytes secretKey);
  match introBytes with
  | None => mret tt
  | Some plain =>
      match decodePayload plain with
      | JNull => mret tt
      | JInvite groupId name members =>
          let id := String.append groupId (String.append ":" fromPubKey) in
          let intro :=
            String.append name
              (String.append " ("
                 (String.append (pretty (length members)) " members)")) in
          createdAt ← now;
          let request :=
            mkRequest id group fromPubKey myKey intro status_pending createdAt
                      (Some groupId) (Some name) (Some members) in
          setRequest request;;
          t ← now;
          setRequestState (mkRequestState id status_pending t);;
          setState (set_requests (λ rs,
            filter (λ item, request_id item ≠ id) rs ++ [request]))
      | _ => throw "TypeError"
      end
  end.

(** The [dm_ack] branch. *)
Definition handleAck (state : ChatState) (chatId messageId : string)
    : M unit :=
  match findMessage state chatId messageId with
  | Some existing => setMessage (withStatus msg_delivered existing)
  | None => mret tt
  end;;
  setState (set_messages (λ ms,
    mergeMessageUpdate ms chatId messageId (withStatus msg_delivered))).

Definition handleIncoming (payload : bytes) : M unit :=
  state ← getState;
  match decodePayload payload with
  | JEnvelope message =>
      match chatKey state, unlockedSecretKey state, identity state with
      | Some myKey, Some secretKey, Some _ =>
          if truthy myKey then
            match message with
            | chat_request requestId fromPubKey _ nonce ciphertext timestamp =>
                handleChatRequest state myKey secretKey requestId fromPubKey
                                  nonce ciphertext timestamp
            | chat_accept requestId fromPubKey _ _ _ =>
                handleChatAccept state myKey requestId fromPubKey
            | chat_declined requestId _ _ _ _ =>
                handleChatRefusal state status_declined requestId
            | chat_blocked requestId _ _ _ _ =>
                handleChatRefusal state status_blocked requestId
            | group_invite fromPubKey _ nonce ciphertext _ =>
                handleGroupInvite myKey secretKey fromPubKey nonce ciphertext
            | dm_ack conversationId messageId _ _ _ =>
                handleAck state conversationId messageId
            | dm_message conversationId messageId fromPubKey n nonce
                         ciphertext _ =>
                handleEncryptedMessage conversationId messageId fromPubKey n
                                       nonce ciphertext
            | group_message groupId messageId fromPubKey sealed _ =>
                handleGroupMessage groupId messageId fromPubKey sealed
            | group_response _ _ _ _ _ _ => mret tt
            | other_envelope _ => mret tt
            end
          else mret tt
      | _, _, _ => mret tt
      end
  | _ => mret tt
  end.

End Engine.

(** ** Asynchronous handlers

    JavaScript runs a handler without interruption up to its next [await];
    there other handlers, started in the meantime, may run.  A [Task] is a
    handler in progress: [Segment run] is the code up to the next [await],
    which runs atomically on the world and returns what is left of the
    handler.  An exception in a segment rejects the handler's promise and
    ends the task.  Awaits between which a handler only computes count as
    one. *)

#[warnings="-register-all"]
Inductive Task : Type :=
| Finished
| Segment (run : M Task).

(** A handler awaited while nothing else runs: its segments, one after
    the other. *)
Fixpoint runTask (t : Task) (w : World) : exc unit * World :=
  match t with
  | Finished => (Ok tt, w)
  | Segment run =>
      match run w with
      | (Ok t', w') => runTask t' w'
      | (Throw e, w') => (Throw e, w')
      end
  end.

(** Handlers in progress side by side: [schedule] names, step by step, the
    task whose next segment runs.  A task that has not run yet is a call
    not made yet: a call runs the first segment. *)
Fixpoint runSchedule (schedule : list nat) (pool : list Task) (w : World)
    : list Task * World :=
  match schedule with
  | [] => (pool, w)
  | i :: rest =>
      match pool !! i with
      | Some (Segment run) =>
          match run w with
          | (Ok t', w') => runSchedule rest (<[i := t']> pool) w'
          | (Throw e, w') => runSchedule rest (<[i := Finished]> pool) w'
          end
      | _ => runSchedule rest pool w
      end
  end.

(** An async function is written with the continuation [k] of its caller's
    [await].  [returnTo k a]: the function returns [a]; the caller goes on
    in a later segment. *)
Definition returnTo {A} (k : A → M Task) (a : A) : M Task :=
  mret (Segment (k a)).

(** [await] on a call into the database or the transport: the operation
    runs in a segment of its own, after the caller has been suspended. *)
Definition awaitIO {A} (m : M A) (k : A → M Task) : M Task :=
  mret (Segment (a ← m; mret (Segment (k a)))).

(** [await] on an async function that only computes (HMAC through Web
    Crypto): it throws in the call or delivers its result later. *)
Definition awaitPure {A} (x : exc A) (k : A → M Task) : M Task :=
  a ← liftExc x; mret (Segment (k a)).

(** A call awaited while nothing else runs. *)
Definition awaited (call : (unit → M Task) → M Task) : M unit :=
  runTask (Segment (call (λ _, mret Finished))).

(** ** [src/store/chatStore.ts]: the send handlers *)

Module Async.
Section Handlers.
Context `{Primitives} `{Environment}.

(** [ensureSession]: the store is read when the call is made; the database
    is asked only when the store has no session, and a new session is
    seeded from the state read at the call. *)
Definition ensureSession (conversationId : string) (kind : ChatKind)
    (peerPubKey : option string) (k : SessionRecord → M Task) : M Task :=
  state ← getState;
  let seed : M Task :=
    match unlockedSecretKey state, chatKey state with
    | Some secretKey, Some myKey =>
        if truthy myKey then
          peer ← match peerPubKey with
                 | Some p => mret p
                 | None => throw "TypeError"
                 end;
          peerBytes ← liftExc (base58ToBytes peer);
          sharedSecret ← liftExc (box_before peerBytes secretKey);
          let rootKey := deriveRootKey sharedSecret conversationId in
          let keys := deriveChainKeys rootKey myKey peer in
          let session :=
            mkSession conversationId kind peer None
                      (bytesToBase64 (ck_send keys))
                      (bytesToBase64 (ck_recv keys)) 0 0 ∅ in
          awaitIO (setSession session) (λ _,
            setState (set_sessions (λ ss, <[conversationId := session]> ss));;
            returnTo k session)
        else throw "Missing secret key"
    | _, _ => throw "Missing secret key"
    end in
  match sessions state !! conversationId with
  | Some existing => returnTo k existing
  | None =>
      awaitIO (getSession conversationId) (λ existing,
        match existing with
        | Some s => returnTo k s
        | None => seed
        end)
  end.

Definition getSendKey (conversationId : string) (kind : ChatKind)
    (peerPubKey : string) (k : bytes * SessionRecord → M Task) : M Task :=
  ensureSession conversationId kind (Some peerPubKey) (λ session,
    awaitPure (advanceSend session) k).

(** [sendEventMessage]: [if (!peerPubKey) return] leaves on a missing and
    on an empty peer key.  The advanced session reaches the store only
    after [await publishPayload] and [await setSession]. *)
Definition sendEventMessage (chat : ChatRecord) (eventPayload : Inner)
    (messageId : option string) (k : unit → M Task) : M Task :=
  state ← getState;
  match findPeer chat state with
  | None => returnTo k tt
  | Some peerPubKey =>
      if truthy peerPubKey then
        getSendKey (chat_id chat) (chat_kind chat) peerPubKey (λ r,
          let messageKey := r.1 in
          let session := r.2 in
          let messageNumber := Nat.max 0 (sendN session - 1) in
          nonce ← randomBytes 24;
          ciphertext ← liftExc
            (secretbox (encodePayload (JInner eventPayload)) nonce messageKey);
          outboundId ← orRandomId messageId;
          timestamp ← now;
          let payload :=
            dm_message (chat_id chat) outboundId (chatKey state) messageNumber
                       (bytesToBase64 nonce) (bytesToBase64 ciphertext)
                       timestamp in
          awaitIO (publishPayload (dmTopic (chat_id chat))
                     (encodePayload (JEnvelope payload))) (λ _,
          awaitIO (setSession session) (λ _,
            setState (set_sessions (λ ss, <[chat_id chat := session]> ss));;
            returnTo k tt)))
      else returnTo k tt
  end.

(** The [for] loop of [sendGroupMessage] over the participants, with the
    accumulated [sealed] and [updatedSessions]. *)
Fixpoint sealForMembers (chat : ChatRecord) (myKey : string)
    (innerPayload : Inner) (rest : list string)
    (sealed : list SealedEntry) (updatedSessions : list SessionRecord)
    (k : list SealedEntry * list SessionRecord → M Task) : M Task :=
  match rest with
  | [] => k (sealed, updatedSessions)
  | member :: rest' =>
      if String.eqb member myKey then
        sealForMembers chat myKey innerPayload rest' sealed updatedSessions k
      else
        let convId := groupSessionId (chat_id chat) myKey member in
        getSendKey convId group member (λ r,
          let messageKey := r.1 in
          let session := r.2 in
          let messageNumber := Nat.max 0 (sendN session - 1) in
          nonce ← randomBytes 24;
          ciphertext ← liftExc
            (secretbox (encodePayload (JInner innerPayload)) nonce messageKey);
          sealForMembers chat myKey innerPayload rest'
            (sealed ++ [mkSealed member messageNumber (bytesToBase64 nonce)
                                 (bytesToBase64 ciphertext)])
            (updatedSessions ++ [session]) k)
  end.

(** [for (const session of updatedSessions) await setSession(session)] *)
Fixpoint putSessions (updatedSessions : list SessionRecord)
    (k : unit → M Task) : M Task :=
  match updatedSessions with
  | [] => k tt
  | session :: rest => awaitIO (setSession session) (λ _, putSessions rest k)
  end.

Definition sendGroupMessage (chat : ChatRecord) (innerPayload : Inner)
    (messageId : option string) (k : unit → M Task) : M Task :=
  state ← getState;
  match chatKey state, unlockedSecretKey state with
  | Some myKey, Some _ =>
      if truthy myKey then
        sealForMembers chat myKey innerPayload (participants chat) [] []
          (λ r,
             let sealed := r.1 in
             let updatedSessions := r.2 in
             outboundId ← orRandomId messageId;
             timestamp ← now;
             let payload :=
               group_message (chat_id chat) outboundId myKey sealed timestamp in
             awaitIO (publishPayload (groupTopic (chat_id chat))
                        (encodePayload (JEnvelope payload))) (λ _,
             putSessions updatedSessions (λ _,
               setState (set_sessions (λ ss,
                 foldl (λ acc session,
                          <[conversationId session := session]> acc)
                       ss updatedSessions));;
               returnTo k tt)))
      else returnTo k tt
  | _, _ => returnTo k tt
  end.

Definition sendMessage (chatId body : string) (replyTo : option string)
    (k : unit → M Task) : M Task :=
  state ← getState;
  match List.find (λ item, String.eqb (chat_id item) chatId) (chats state),
        unlockedSecretKey state, chatKey state with
  | Some chat, Some _, Some myKey =>
      if accepted chat && truthy myKey then
        match chat_kind chat with
        | group =>
            messageId ← randomId;
            timestamp ← now;
            let message :=
              mkMessage messageId chatId kind_text myKey None (Some body)
                timestamp (Some msg_sent) None replyTo None None None None
                None in
            awaitIO (setMessage message) (λ _,
              setState (set_messages
                          (λ ms, updateMessageList ms chatId message));;
              setChatsM (touchChat chatId);;
              sendGroupMessage chat (inner_text body replyTo) (Some messageId)
                (λ _, returnTo k tt))
        | dm =>
            match findPeer chat state with
            | None => returnTo k tt
            | Some peerPubKey =>
                if truthy peerPubKey then
                  getSendKey chatId (chat_kind chat) peerPubKey (λ r,
                    let messageKey := r.1 in
                    let session := r.2 in
                    let messageNumber := Nat.max 0 (sendN session - 1) in
                    nonce ← randomBytes 24;
                    let innerPayload := inner_text body replyTo in
                    ciphertext ← liftExc
                      (secretbox (encodePayload (JInner innerPayload)) nonce
                                 messageKey);
                    messageId ← randomId;
                    timestamp ← now;
                    let payload :=
                      dm_message chatId messageId (Some myKey) messageNumber
                        (bytesToBase64 nonce) (bytesToBase64 ciphertext)
                        timestamp in
                    awaitIO (publishPayload (dmTopic chatId)
                               (encodePayload (JEnvelope payload))) (λ _,
                    awaitIO (setSession session) (λ _,
                      sentAt ← now;
                      let message :=
                        mkMessage messageId chatId kind_text myKey None
                          (Some body) sentAt (Some msg_sent)
                          (Some messageNumber) replyTo None None None None
                          None in
                      awaitIO (setMessage message) (λ _,
                        setState (set_messages
                                    (λ ms, updateMessageList ms chatId message));;
                        setChatsM (touchChat chatId);;
                        setState (set_sessions (λ ss, <[chatId := session]> ss));;
                        returnTo k tt))))
                else returnTo k tt
            end
        end
      else addError "Chat not ready.";; returnTo k tt
  | _, _, _ => addError "Chat not ready.";; returnTo k tt
  end.

Definition sendTyping (chatId : string) (isTyping : bool)
    (k : unit → M Task) : M Task :=
  state ← getState;
  match List.find (λ item, String.eqb (chat_id item) chatId) (chats state) with
  | None => returnTo k tt
  | Some chat =>
      match chat_kind chat with
      | group =>
          sendGroupMessage chat (inner_typing isTyping) None
            (λ _, returnTo k tt)
      | dm =>
          sendEventMessage chat (inner_typing isTyping) None
            (λ _, returnTo k tt)
      end
  end.

End Handlers.
End Async.

(** A user action that sends on a chat. *)
Inductive Outbound :=
| SendText (body : string) (replyTo : option string)
| SendTyping (isTyping : bool).

Section Outbound.
Context `{Primitives} `{Environment}.

Definition runOutbound (chatId : string) (action : Outbound)
    (k : unit → M Task) : M Task :=
  match action with
  | SendText body replyTo => Async.sendMessage chatId body replyTo k
  | SendTyping isTyping => Async.sendTyping chatId isTyping k
  end.

(** The action as the page starts it, without awaiting it. *)
Definition outboundTask (chatId : string) (action : Outbound) : Task :=
  Segment (runOutbound chatId action (λ _, mret Finished)).

End Outbound.

(** ** Observations on the transport log *)

Definition isPublish (e : Effect) : bool :=
  match e with
  | Publish _ _ => true
  | _ => false
  end.

Definition isPutSession (e : Effect) : bool :=
  match e with
  | PutSession _ => true
  | _ => false
  end.

(** A computation that publishes nothing: whatever it appends to the log
    is a database write or a subscription. *)
Definition quiet {A} (m : M A) : Prop :=
  ∀ w, ∃ es, trace (m w).2 = trace w ++ es ∧
             Forall (λ e, isPublish e = false) es.

Definition isWireEffect (e : Effect) : bool := isPublish e || isPutSession e.

(** [c'] is [c] up to the fields a send updates ([lastMessageAt],
    [unreadCount]). *)
Definition sameChat (c c' : ChatRecord) : Prop :=
  chat_id c' = chat_id c ∧ chat_kind c' = chat_kind c ∧
  participants c' = participants c ∧ accepted c' = accepted c.

(** A computation that publishes at most [n] envelopes. *)
Definition publishesAtMost {A} (n : nat) (m : M A) : Prop :=
  ∀ w, ∃ es, trace (m w).2 = trace w ++ es ∧
             length (filter (λ e, isPublish e = true) es) ≤ n.

(** The envelopes [handleIncoming] answers on the wire. *)
Definition answered (e : Envelope) : bool :=
  match e with
  | chat_request _ _ _ _ _ _ => true
  | dm_message _ _ _ _ _ _ _ => true
  | _ => false
  end.

(** Messages in the order of their timestamps. *)
Definition timestampOrder (a b : MessageRecord) : Prop :=
  (message_timestamp a ≤ message_timestamp b)%Z.

(** ** The records of a text on its way *)

Section DeliveryRecords.
Context `{Primitives} `{Environment}.

(** The text message as its sender keeps it. *)
Definition sentMessage (cid me body : string) (replyTo : option string)
    (n : nat) (w : World) : MessageRecord :=
  mkMessage (uuid (idDraws w)) cid kind_text me None (Some body)
    (clock (S (clockReads w))) (Some msg_sent) (Some n) replyTo
    None None None None None.

(** The envelope of a text sent from the world [w] under the counter [n]
    with the ciphertext [c]. *)
Definition textEnvelope (cid me : string) (n : nat) (c : bytes) (w : World)
    : Envelope :=
  dm_message cid (uuid (idDraws w)) (Some me) n
    (bytesToBase64 (entropy (byteDraws w) 24)) (bytesToBase64 c)
    (clock (clockReads w)).

(** The text message as its receiver keeps it. *)
Definition receivedMessage (cid id sender body : string)
    (replyTo : option string) (w : World) : MessageRecord :=
  mkMessage id cid kind_text sender None (Some body)
    (clock (S (clockReads w))) (Some msg_delivered) None replyTo
    None None None None None.

End DeliveryRecords.

(** ** The chunks of an attachment *)

Section AttachmentDefs.
Context `{Primitives} `{Environment}.

(** The chunk messages of one attachment handled one after the other, in
    the order they arrive: [indices] lists the chunk indices in that
    order, [chunkAt] gives the bytes of each chunk. *)
Definition receiveChunks (chatId fromPubKey attachmentId : string)
    (totalChunks : nat) (chunkAt : nat → bytes) (indices : list nat)
    : M unit :=
  forEachM (λ index,
    handleInnerPayload chatId fromPubKey
      (JInner (inner_attachment_chunk attachmentId index totalChunks
                 (bytesToBase64 (chunkAt index))))
      None) indices.

(** The entry of chunk [i] in the [chunks] object of an attachment. *)
Definition chunkEntry (chunkAt : nat → bytes) (i : nat) : nat * string :=
  (i, bytesToBase64 (chunkAt i)).

(** An attachment record that has received the chunks [got] and no
    others. *)
Definition holdsChunks (chunkAt : nat → bytes) (got : list nat)
    (a : AttachmentRecord) : Prop :=
  ∀ j, default ∅ (chunks a) !! j
       = if decide (j ∈ got) then Some (bytesToBase64 (chunkAt j)) else None.

(** The attachment [a] of the world [w] after the chunks [got] of an
    attachment first known as [a0]. *)
Definition chunksSeen (attachmentId : string) (k : nat)
    (chunkAt : nat → bytes) (a0 : AttachmentRecord) (got : list nat)
    (w : World) (a : AttachmentRecord) : Prop :=
  attachments (store w) !! attachmentId = Some a ∧
  attachment_id a = attachmentId ∧
  attachment_totalChunks a = Some k ∧
  holdsChunks chunkAt got a ∧
  attachment_data a
    = (if decide (size (list_to_set got : gset nat) = k)
       then Some (bytesToBase64 (mjoin (chunkAt <$> seq 0 k)))
       else attachment_data a0) ∧
  attachment_messageId a = attachment_messageId a0 ∧
  attachment_name a = attachment_name a0 ∧
  mime a = mime a0 ∧
  attachment_size a = attachment_size a0 ∧
  (got ≠ [] →
     receivedChunks a = Some (size (list_to_set got : gset nat)) ∧
     complete a = bool_decide (size (list_to_set got : gset nat) = k) ∧
     idb_attachments (idb w) !! attachmentId = Some a).

End AttachmentDefs.

(** ** [src/store/chatStore.ts]: rekeying *)

Module Rekey.
Section Handlers.
Context `{Primitives} `{Environment}.

(** [resetSession], cut at its awaits: the two key derivations, then the
    write to the database. *)
Definition resetSession (conversationId : string) (kind : ChatKind)
    (peerPubKey : string) (k : SessionRecord → M Task) : M Task :=
  state ← getState;
  match unlockedSecretKey state, chatKey state with
  | Some secretKey, Some myKey =>
      if truthy myKey then
        peerBytes ← liftExc (base58ToBytes peerPubKey);
        sharedSecret ← liftExc (box_before peerBytes secretKey);
        awaitPure (Ok (deriveRootKey sharedSecret conversationId)) (λ rootKey,
        awaitPure (Ok (deriveChainKeys rootKey myKey peerPubKey)) (λ keys,
          let session :=
            mkSession conversationId kind peerPubKey None
                      (bytesToBase64 (ck_send keys))
                      (bytesToBase64 (ck_recv keys)) 0 0 ∅ in
          awaitIO (setSession session) (λ _,
            setState (set_sessions (λ ss, <[conversationId := session]> ss));;
            returnTo k session)))
      else throw "Missing secret key"
  | _, _ => throw "Missing secret key"
  end.

(** The action [rekeySession] of the store. *)
Definition rekeySession (chatId : string) (k : unit → M Task) : M Task :=
  state ← getState;
  match List.find (λ item, String.eqb (chat_id item) chatId) (chats state),
        chatKey state with
  | Some chat, Some myKey =>
      if truthy myKey then
        match findPeer chat state with
        | Some peer =>
            if truthy peer then
              resetSession chatId (chat_kind chat) peer (λ session,
                awaitIO (setSession session) (λ _,
                  notice ← createSystemMessage chatId "Session rekeyed.";
                  setState (λ prev,
                    set_messages (λ ms, updateMessageList ms chatId notice)
                      (set_sessions (λ ss, <[chatId := session]> ss) prev));;
                  match chat_kind chat with
                  | group =>
                      Async.sendGroupMessage chat inner_rekey None
                        (λ _, returnTo k tt)
                  | dm =>
                      Async.sendEventMessage chat inner_rekey None
                        (λ _, returnTo k tt)
                  end))
            else returnTo k tt
        | None => returnTo k tt
        end
      else returnTo k tt
  | _, _ => returnTo k tt
  end.

End Handlers.
End Rekey.

Section RekeyRecords.
Context `{Primitives} `{Environment}.

(** The session [resetSession] makes from the Diffie-Hellman secret, and
    the notice of a key mismatch. *)
Definition resetTo (conversationId : string) (kind : ChatKind)
    (myKey peerPubKey : string) (sharedSecret : bytes) : SessionRecord :=
  let keys :=
    deriveChainKeys (deriveRootKey sharedSecret conversationId) myKey
                    peerPubKey in
  mkSession conversationId kind peerPubKey None
            (bytesToBase64 (ck_send keys)) (bytesToBase64 (ck_recv keys))
            0 0 ∅.

Definition keyMismatchNotice (chatId : string) (w : World) : MessageRecord :=
  mkMessage (uuid (idDraws w)) chatId kind_system "system" None
    (Some "Key mismatch. Rekey to continue.") (clock (clockReads w))
    None None None None None None None None.

End RekeyRecords.

(** The chat holds [before ++ m :: after], and [m] is its one message
    with that id. *)
Definition onlyMessage (ms : gmap string (list MessageRecord))
    (chatId : string) (before : list MessageRecord) (m : MessageRecord)
    (after : list MessageRecord) : Prop :=
  default [] (ms !! chatId) = before ++ m :: after ∧
  ∀ x, x ∈ before ++ after → message_id x ≠ message_id m.

Section Readiness.
Context `{Primitives}.

(** A store ready to send on the direct chat [cid] with [peer]: unlocked
    as [me], the chat accepted, its peer key not empty, and a session
    stored whose send chain has been advanced [j] times. *)
Definition readyToSend (cid me peer : string) (j : nat) (st : ChatState)
    : Prop :=
  chatKey st = Some me ∧
  truthy me = true ∧
  is_Some (unlockedSecretKey st) ∧
  (∃ chat,
     List.find (λ item, String.eqb (chat_id item) cid) (chats st)
       = Some chat ∧
     accepted chat = true ∧
     chat_kind chat = dm ∧
     chat_id chat = cid ∧
     List.find (λ key, bool_decide (Some key ≠ Some me)) (participants chat)
       = Some peer ∧
     truthy peer = true) ∧
  (∃ session ck,
     sessions st !! cid = Some session ∧
     sendN session = j ∧
     base64ToBytes (sendCK session) = Ok ck).

(** What a publication on the chat [cid] has to be: a [dm_message] made
    from a call [advanceSend s = (key, s')], sealed under [key] and
    carrying [max(0, sendN s' - 1)], the index [sendN s] of that key. *)
Definition sealedUnderItsCounter (cid me : string) (e : Effect) : Prop :=
  match e with
  | Publish topic payload =>
      ∃ s key s' id nonce inner c timestamp,
        advanceSend s = Ok (key, s') ∧
        secretbox (encodePayload (JInner inner)) nonce key = Ok c ∧
        Nat.max 0 (sendN s' - 1) = sendN s ∧
        topic = dmTopic cid ∧
        payload = encodePayload (JEnvelope
          (dm_message cid id (Some me) (Nat.max 0 (sendN s' - 1))
             (bytesToBase64 nonce) (bytesToBase64 c) timestamp))
  | _ => True
  end.

End Readiness.

Section WireInvariant.
Context `{Primitives} `{Environment}.
Variables cid me peer : string.

Definition canSend (w : World) : Prop :=
  ∃ j, readyToSend cid me peer j (store w).

(** [m], run on a world that can send, leaves it able to send, logs only
    publications of the right form, and returns a value in [Q]. *)
Definition keeps {A} (Q : A → Prop) (m : M A) : Prop :=
  ∀ w, canSend w →
    ∃ es,
      trace (m w).2 = trace w ++ es ∧
      Forall (sealedUnderItsCounter cid me) es ∧
      canSend (m w).2 ∧
      match (m w).1 with
      | Ok a => Q a
      | Throw _ => True
      end.

(** A task every segment of which does so, whatever the world it is
    resumed in. *)
Fixpoint okTask (t : Task) : Prop :=
  match t with
  | Finished => True
  | Segment run =>
      ∀ w, canSend w →
        ∃ es,
          trace (run w).2 = trace w ++ es ∧
          Forall (sealedUnderItsCounter cid me) es ∧
          canSend (run w).2 ∧
          match (run w).1 with
          | Ok t' => okTask t'
          | Throw _ => True
          end
  end.

(** One send awaited on a ready engine: it returns to its caller, the
    engine is ready for the next counter, and on the wire there is one
    [dm_message], followed in the log by the write of the session it was
    sealed under. *)
Definition sendStep (j : nat) (call : (unit → M Task) → M Task) (w : World)
    : Prop :=
  ∃ w' e s' es,
    (∀ k, runTask (Segment (call k)) w = runTask (Segment (k tt)) w') ∧
    readyToSend cid me peer (S j) (store w') ∧
    trace w' = trace w ++ es ∧
    filter (λ x, isWireEffect x = true) es =
      [Publish (dmTopic cid) (encodePayload (JEnvelope e)); PutSession s'] ∧
    (∃ id nonce64 c64 timestamp,
       e = dm_message cid id (Some me) (Nat.max 0 (sendN s' - 1))
             nonce64 c64 timestamp) ∧
    Nat.max 0 (sendN s' - 1) = j ∧
    sessions (store w') !! cid = Some s'.

End WireInvariant.

(** ** A concrete instance of the primitives

    Simple stand-ins on which the embedding can be run: the "MAC" tags the
    concatenation of key and data, the text encodings are the identity on
    bytes.  They satisfy the functional laws the properties below assume of
    the real primitives. *)

Definition demoPrimitivesWith (parsed : Json) : Primitives := {|
  hmacSha256 k d := x68 :: (k ++ d);
  hkdf ikm salt info len := take len (ikm ++ salt ++ info);
  bytesToBase64 := string_of_list_byte;
  base64ToBytes s := Ok (list_byte_of_string s);
  bytesToBase58 := string_of_list_byte;
  base58ToBytes s := Ok (list_byte_of_string s);
  stringToBytes := list_byte_of_string;
  bytesToString := string_of_list_byte;
  keccak256 s := String.append "0x" s;
  stringToHex s := s;
  toHex := string_of_list_byte;
  box_before pk sk := Ok (pk ++ sk);
  box msg nonce pk sk := Ok (nonce ++ msg);
  box_open c nonce pk sk := Ok (Some (drop (length nonce) c));
  secretbox msg nonce key := Ok (key ++ msg);
  secretbox_open c nonce key :=
    Ok (if decide (take (length key) c = key)
        then Some (drop (length key) c) else None);
  JSON_stringify _ := "{}";
  (** every payload parses to [parsed] *)
  JSON_parse _ := Ok parsed
|}.

Definition demoPrimitives : Primitives := demoPrimitivesWith JNull.

(** The same stand-ins with a serializer that shows the wire counter of a
    [dm_message]. *)
Definition demoWirePrimitives : Primitives := {|
  hmacSha256 := hmacSha256 (Primitives := demoPrimitives);
  hkdf := hkdf (Primitives := demoPrimitives);
  bytesToBase64 := bytesToBase64 (Primitives := demoPrimitives);
  base64ToBytes := base64ToBytes (Primitives := demoPrimitives);
  bytesToBase58 := bytesToBase58 (Primitives := demoPrimitives);
  base58ToBytes := base58ToBytes (Primitives := demoPrimitives);
  stringToBytes := stringToBytes (Primitives := demoPrimitives);
  bytesToString := bytesToString (Primitives := demoPrimitives);
  keccak256 := keccak256 (Primitives := demoPrimitives);
  stringToHex := stringToHex (Primitives := demoPrimitives);
  toHex := toHex (Primitives := demoPrimitives);
  box_before := box_before (Primitives := demoPrimitives);
  box := box (Primitives := demoPrimitives);
  box_open := box_open (Primitives := demoPrimitives);
  secretbox := secretbox (Primitives := demoPrimitives);
  secretbox_open := secretbox_open (Primitives := demoPrimitives);
  JSON_stringify v :=
    match v with
    | JEnvelope (dm_message _ _ _ n _ _ _) =>
        String.append "dm_message n=" (pretty n)
    | _ => "{}"
    end;
  JSON_parse := JSON_parse (Primitives := demoPrimitives)
|}.

(** A one-byte checksum in which every byte of the message counts. *)
Definition checksum (m : bytes) : bytes :=
  [default x00
     (Byte.of_N
        (foldl (λ acc b, N.land (acc * 5 + Byte.to_N b + 1) 255)%N 7%N m))].

(** A stand-in for an authenticated cipher: the sealed text spells the key
    out, each byte behind a marker, and ends it with a terminator; opening
    checks the key byte by byte. *)
Fixpoint demoSeal (key data : bytes) : bytes :=
  match key with
  | [] => x00 :: data
  | b :: key' => x01 :: b :: demoSeal key' data
  end.

Fixpoint demoOpen (key c : bytes) : option bytes :=
  match key, c with
  | [], x00 :: data => Some data
  | b :: key', x01 :: b' :: c' =>
      if decide (b = b') then demoOpen key' c' else None
  | _, _ => None
  end.

Definition demoPassphrasePrimitives (subtle : bool) : PassphrasePrimitives := {|
  hasSubtleCrypto := subtle;
  sha256 := checksum;
  aesGcmEncrypt key iv data := demoSeal key data;
  aesGcmDecrypt key iv c :=
    match demoOpen key c with
    | Some data => Ok data
    | None => Throw "OperationError"
    end
|}.

Definition demoEnvironment : Environment := {|
  clock i := Z.of_nat (1000 + i);
  uuid i := String.append "id-" (pretty i);
  entropy i len := replicate len x2a
|}.

(** A freshly seeded session whose two chains start at the given keys. *)
Definition demoSession (sendKey recvKey : bytes) : SessionRecord :=
  mkSession "me:peer" dm "peer" None
            (string_of_list_byte sendKey) (string_of_list_byte recvKey)
            0 0 ∅.

(** An unlocked engine of the user ["me"] with one accepted direct chat,
    with ["peer"], and the given session for it. *)
Definition demoChat : ChatRecord :=
  mkChat "me:peer" dm "peer" ["me"; "peer"] true 0 None None None.

Definition demoWorld (session : SessionRecord) : World :=
  mkWorld
    (mkChatState (Some (mkIdentity "pk" "sealed" "iv" "salt" 0)) (Some [x07])
       (Some "me") (Some "/app/1/inbox/me") [] [demoChat] ∅ ∅ ∅
       {[ "me:peer" := session ]} ∅ None true [])
    (mkIdb None ∅ ∅ ∅ ∅ ∅ ∅ ∅) ∅ [] 0 0 0.

(** An engine like [demoWorld], of the user ["me"], that has blocked a
    request of ["eve"]. *)
Definition demoBlockedRequest : RequestRecord :=
  mkRequest "r0" dm "eve" "me" "hi" status_blocked 3 None None None.

Definition demoWorldWithBlocked : World :=
  mkWorld
    (mkChatState (Some (mkIdentity "pk" "sealed" "iv" "salt" 0)) (Some [x07])
       (Some "me") (Some "/app/1/inbox/me") [demoBlockedRequest] [demoChat]
       ∅ ∅ ∅ ∅ ∅ None true [])
    (mkIdb None ∅ ∅ ∅ ∅ ∅ ∅ ∅) ∅ [] 0 0 0.

(** An engine of the user ["me"] in the group ["g1"] with ["peer"], whose
    pairwise session has consumed the counters 0..2 and caches nothing. *)
Definition demoGroupSession : SessionRecord :=
  mkSession "g1:me:peer" group "peer" None "s" "r" 0 3 ∅.

Definition demoGroupWorld : World :=
  mkWorld
    (mkChatState (Some (mkIdentity "pk" "sealed" "iv" "salt" 0)) (Some [x07])
       (Some "me") (Some "/app/1/inbox/me") []
       [mkChat "g1" group "friends" ["me"; "peer"] true 0 None None (Some "g1")]
       ∅ ∅ ∅ {[ "g1:me:peer" := demoGroupSession ]} ∅ None true [])
    (mkIdb None ∅ ∅ ∅ ∅ ∅ ∅ ∅) ∅ [] 0 0 0.

(** An unlocked engine that knows no chat and holds no session. *)
Definition demoEmptyWorld (me : string) (secretKey : bytes) : World :=
  mkWorld
    (mkChatState (Some (mkIdentity "pk" "sealed" "iv" "salt" 0))
       (Some secretKey) (Some me) None [] [] ∅ ∅ ∅ ∅ ∅ None true [])
    (mkIdb None ∅ ∅ ∅ ∅ ∅ ∅ ∅) ∅ [] 0 0 0.

(** The stand-ins of [demoPrimitives] with a serializer that tells an
    envelope from an inner payload, and a parser that gives back the one
    envelope and the one inner payload of an exchange. *)
Definition demoCodecPrimitives (envelope : Envelope) (inner : Inner)
    : Primitives := {|
  hmacSha256 := hmacSha256 (Primitives := demoPrimitives);
  hkdf := hkdf (Primitives := demoPrimitives);
  bytesToBase64 := bytesToBase64 (Primitives := demoPrimitives);
  base64ToBytes := base64ToBytes (Primitives := demoPrimitives);
  bytesToBase58 := bytesToBase58 (Primitives := demoPrimitives);
  base58ToBytes := base58ToBytes (Primitives := demoPrimitives);
  stringToBytes := stringToBytes (Primitives := demoPrimitives);
  bytesToString := bytesToString (Primitives := demoPrimitives);
  keccak256 := keccak256 (Primitives := demoPrimitives);
  stringToHex := stringToHex (Primitives := demoPrimitives);
  toHex := toHex (Primitives := demoPrimitives);
  box_before := box_before (Primitives := demoPrimitives);
  box := box (Primitives := demoPrimitives);
  box_open := box_open (Primitives := demoPrimitives);
  secretbox := secretbox (Primitives := demoPrimitives);
  secretbox_open := secretbox_open (Primitives := demoPrimitives);
  JSON_stringify v :=
    match v with
    | JEnvelope _ => "E"
    | JInner _ => "I"
    | _ => "{}"
    end;
  JSON_parse s :=
    if String.eqb s "E" then Ok (JEnvelope envelope)
    else if String.eqb s "I" then Ok (JInner inner)
    else Ok JNull
|}.

(** The envelope of the text ["hello"] sent first from [demoWorld]. *)
Definition demoTextEnvelope : Envelope :=
  dm_message "me:peer" "id-0" (Some "me") 0
    (string_of_list_byte (replicate 24 x2a))
    (string_of_list_byte
       ((x68 :: x01 :: list_byte_of_string "msg") ++ list_byte_of_string "I"))
    1000.

(** The engine of the user ["peer"], with the chat of [demoChat] and the
    session that mirrors [demoSession [x01] [x02]]. *)
Definition demoPeerWorld : World :=
  mkWorld
    (mkChatState (Some (mkIdentity "pk2" "sealed" "iv" "salt" 0)) (Some [x08])
       (Some "peer") (Some "/app/1/inbox/peer") []
       [mkChat "me:peer" dm "me" ["me"; "peer"] true 0 None None None]
       ∅ ∅ ∅
       {[ "me:peer" := mkSession "me:peer" dm "me" None
                         (string_of_list_byte [x02])
                         (string_of_list_byte [x01]) 0 0 ∅ ]}
       ∅ None true [])
    (mkIdb None ∅ ∅ ∅ ∅ ∅ ∅ ∅) ∅ [] 0 0 0.

(** An attachment of three chunks, as [attachment_meta] records it, and
    an engine that holds it. *)
Definition demoAttachment : AttachmentRecord :=
  mkAttachment "a1" "m1" "notes.txt" "text/plain" 6 None (Some 3) (Some 0)
               (Some ∅) false.

Definition demoAttachmentWorld : World :=
  mkWorld
    (mkChatState (Some (mkIdentity "pk" "sealed" "iv" "salt" 0)) (Some [x07])
       (Some "me") (Some "/app/1/inbox/me") [] [demoChat] ∅ ∅
       {[ "a1" := demoAttachment ]} ∅ ∅ None true [])
    (mkIdb None ∅ ∅ ∅ ∅ ∅ ∅ ∅) ∅ [] 0 0 0.

(** Chunk [i] is [i + 1] times the letter A. *)
Definition demoChunkAt (i : nat) : bytes := replicate (S i) x41.

(** The ciphertext and the envelope of the rekey event sent first from
    [demoWorld]. *)
Definition demoRekeyCiphertext : bytes :=
  hmacSha256 (Primitives := demoPrimitives)
    (ck_send
       (deriveChainKeys (H := demoPrimitives)
          (deriveRootKey (H := demoPrimitives)
             (list_byte_of_string "peer" ++ [x07]) "me:peer")
          "me" "peer"))
    (list_byte_of_string "msg")
  ++ list_byte_of_string "I".

Definition demoRekeyEnvelope : Envelope :=
  dm_message "me:peer" "id-1" (Some "me") 0
    (string_of_list_byte (replicate 24 x2a))
    (string_of_list_byte demoRekeyCiphertext) 1001.

(** The engine of the user ["peer"] after it has received two messages. *)
Definition demoUsedPeerSession : SessionRecord :=
  mkSession "me:peer" dm "me" None "s" "r" 0 2 ∅.

Definition demoUsedPeerWorld : World :=
  mkWorld
    (mkChatState (Some (mkIdentity "pk2" "sealed" "iv" "salt" 0)) (Some [x08])
       (Some "peer") (Some "/app/1/inbox/peer") []
       [mkChat "me:peer" dm "me" ["me"; "peer"] true 0 None None None]
       ∅ ∅ ∅ {[ "me:peer" := demoUsedPeerSession ]} ∅ None true [])
    (mkIdb None ∅ ∅ ∅ ∅ ∅ ∅ ∅) ∅ [] 0 0 0.

(** The engine of [demoWorld] after it has sent the text ["hello"]. *)
Definition demoSentMessage : MessageRecord :=
  mkMessage "id-0" "me:peer" kind_text "me" None (Some "hello") 1001
    (Some msg_sent) (Some 0) None None None None None None.

Definition demoMessageWorld : World :=
  mkWorld
    (mkChatState (Some (mkIdentity "pk" "sealed" "iv" "salt" 0)) (Some [x07])
       (Some "me") (Some "/app/1/inbox/me") [] [demoChat]
       {[ "me:peer" := [demoSentMessage] ]} ∅ ∅
       {[ "me:peer" := demoSession [x01] [x02] ]} ∅ None true [])
    (mkIdb None ∅ ∅ ∅ ∅ ∅ ∅ ∅) ∅ [] 0 0 0.

(** * Properties *)

(** ** Passphrase encryption *)

Section PassphraseTheory.
Context `{Primitives} `{PassphrasePrimitives}.

Lemma N_iter_ext {A} (f g : A → A) :
  (∀ a, f a = g a) → ∀ n x, N.iter n f x = N.iter n g x.
Proof.
  intros Hfg n x. induction n as [|n IH] using N.peano_ind; [done|].
  by rewrite !N.iter_succ, IH, Hfg.
Qed.

(** HMAC pads its key with zero bytes: a key and the same key followed by a
    zero byte are the same HMAC key. *)
Lemma hmacBlockKey_nul (key : bytes) :
  length key < 64 → hmacBlockKey (key ++ [x00]) = hmacBlockKey key.
Proof.
  intros Hlen. unfold hmacBlockKey.
  assert (length (key ++ [x00]) = S (length key)) as Hl
    by (rewrite length_app; simpl; lia).
  destruct (Nat.ltb_spec 64 (length (key ++ [x00]))); [lia|].
  destruct (Nat.ltb_spec 64 (length key)); [lia|].
  rewrite Hl, <- app_assoc.
  by replace (64 - length key) with (S (64 - S (length key))) by lia.
Qed.

Lemma hmacRfc2104_nul (key msg : bytes) :
  length key < 64 → hmacRfc2104 (key ++ [x00]) msg = hmacRfc2104 key msg.
Proof. intros Hlen. unfold hmacRfc2104. by rewrite hmacBlockKey_nul. Qed.

Lemma pbkdf2_nul (password salt : bytes) (c : N) (dkLen : nat) :
  length password < 64 →
  pbkdf2 (password ++ [x00]) salt c dkLen = pbkdf2 password salt c dkLen.
Proof.
  intros Hlen. unfold pbkdf2. f_equal. f_equal.
  apply list_fmap_ext. intros _ i _. unfold pbkdf2Block.
  rewrite hmacRfc2104_nul by done. f_equal.
  apply N_iter_ext. intros acc. by rewrite hmacRfc2104_nul.
Qed.

Lemma deriveAesKeyBytes_nul (p p' : string) (salt : bytes) :
  stringToBytes p' = stringToBytes p ++ [x00] →
  length (stringToBytes p) < 64 →
  deriveAesKeyBytes p' salt = deriveAesKeyBytes p salt.
Proof.
  intros Hp' Hlen. unfold deriveAesKeyBytes. rewrite Hp'. by apply pbkdf2_nul.
Qed.

Section WithLaws.
Hypothesis base64_roundtrip : ∀ b, base64ToBytes (bytesToBase64 b) = Ok b.
Hypothesis aesGcm_opens :
  ∀ key iv data, aesGcmDecrypt key iv (aesGcmEncrypt key iv data) = Ok data.
(** Authenticity of AES-GCM, idealised: under another key the tag check
    fails, so decryption throws instead of returning a text. *)
Hypothesis aesGcm_rejects :
  ∀ key key' iv data,
    key' ≠ key →
    ∃ e, aesGcmDecrypt key' iv (aesGcmEncrypt key iv data) = Throw e.

Lemma encryptWithPassphrase_value (salt iv data : bytes) (p : string) :
  encryptWithPassphrase salt iv data p =
    Ok (mkSealedData
          (bytesToBase64 (aesGcmEncrypt (deriveAesKeyBytes p salt) iv data))
          (bytesToBase64 iv) (bytesToBase64 salt)).
Proof.
  unfold encryptWithPassphrase, deriveAesKey, deriveAesKeyBytes.
  destruct hasSubtleCrypto; reflexivity.
Qed.

Lemma decryptWithPassphrase_value (salt iv c : bytes) (p : string) :
  decryptWithPassphrase
    (mkSealedData (bytesToBase64 c) (bytesToBase64 iv) (bytesToBase64 salt)) p
  = aesGcmDecrypt (deriveAesKeyBytes p salt) iv c.
Proof.
  unfold decryptWithPassphrase, deriveAesKey, deriveAesKeyBytes.
  cbn [sealed_salt64 sealed_iv64 sealed_ciphertext64].
  rewrite !base64_roundtrip. cbn [mbind exc_bind].
  destruct hasSubtleCrypto; reflexivity.
Qed.

(** A passphrase followed by U+0000 opens what the passphrase sealed. *)
Lemma decrypt_with_nul_suffix (salt iv data : bytes) (p p' : string) :
  stringToBytes p' = stringToBytes p ++ [x00] →
  length (stringToBytes p) < 64 →
  ∃ sealed,
    encryptWithPassphrase salt iv data p = Ok sealed ∧
    decryptWithPassphrase sealed p' = Ok data.
Proof.
  intros Hp' Hlen. eexists. split; [apply encryptWithPassphrase_value|].
  rewrite decryptWithPassphrase_value, (deriveAesKeyBytes_nul p p') by done.
  apply aesGcm_opens.
Qed.


End WithLaws.

End PassphraseTheory.

(** ** Conversation identifiers *)

Section TopicsTheory.
Context `{Primitives}.

Lemma jsSort_pair_comm (a b : string) :
  jsSort stringLe [a; b] = jsSort stringLe [b; a].
Proof.
  unfold jsSort, stringLe; simpl.
  rewrite (String.compare_antisym a b).
  destruct (String.compare b a) eqn:E; simpl; try reflexivity.
  apply String.compare_eq_iff in E. by subst.
Qed.

(** C4. Conversation-identifier symmetry: the identifier of a pair of
    public keys does not depend on the order of the pair, which is sorted
    before it is hashed. *)
Theorem conversationId_symmetric (pubKeyA pubKeyB : string) :
  conversationIdFromPubKeys pubKeyA pubKeyB
    = conversationIdFromPubKeys pubKeyB pubKeyA.
Proof.
  unfold conversationIdFromPubKeys. by rewrite jsSort_pair_comm.
Qed.

(** X5. The identifier of the pairwise session of two members of a group
    does not depend on the order of the two keys: the sender, who seals
    under [groupSessionId g me member], and the receiver, who opens under
    [groupSessionId g me sender], name the same session. *)
Lemma groupSessionId_symmetric (g pubKeyA pubKeyB : string) :
  groupSessionId g pubKeyA pubKeyB = groupSessionId g pubKeyB pubKeyA.
Proof. unfold groupSessionId. by rewrite jsSort_pair_comm. Qed.

End TopicsTheory.

(** ** The ratchet *)

Section RatchetTheory.
Context `{Primitives}.

Lemma chainKey_S ck0 i :
  chainKey ck0 (S i) = hmacSha256 (chainKey ck0 i) CK_LABEL.
Proof. reflexivity. Qed.

Lemma cacheRange_lookup ck0 count : ∀ index m j,
  cacheRange ck0 index count m !! j =
    if decide (index ≤ j < index + count)
    then Some (bytesToBase64 (msgKey ck0 j)) else m !! j.
Proof.
  induction count as [|c IH]; intros index m j; simpl.
  - case_decide; [lia | done].
  - rewrite IH. repeat case_decide; try lia; try done.
    + assert (j = index) as -> by lia. by rewrite lookup_insert_eq.
    + rewrite lookup_insert_ne; [done | lia].
Qed.

Lemma recvLoop_app n mx c1 : ∀ c2 index st,
  recvLoop n mx (c1 + c2) index st =
    recvLoop n mx c2 (index + c1) (recvLoop n mx c1 index st).
Proof.
  induction c1 as [|c1 IH]; intros c2 index st; simpl.
  - by rewrite Nat.add_0_r.
  - rewrite IH. f_equal. lia.
Qed.

(** Iterations strictly below [n] while the cache has room: every key is
    cached. *)
Lemma recvLoop_cached ck0 n mx count : ∀ index st,
  index + count ≤ n →
  size (loop_skipped st) + count ≤ mx →
  loop_ck st = chainKey ck0 index →
  recvLoop n mx count index st =
    mkLoop (chainKey ck0 (index + count)) (loop_derived st)
           (cacheRange ck0 index count (loop_skipped st)).
Proof.
  induction count as [|c IH]; intros index [ck d sk] Hn Hsz Hck;
    simpl in *; subst ck.
  - by rewrite Nat.add_0_r.
  - unfold recvBody; simpl.
    destruct (Nat.eqb_spec index n); [lia|].
    destruct (Nat.ltb_spec (size sk) mx); [|lia].
    rewrite (IH (S index)); simpl.
    + by replace (index + S c) with (S index + c) by lia.
    + lia.
    + pose proof (map_size_insert index
        (bytesToBase64 (hmacSha256 (chainKey ck0 index) MSG_LABEL)) sk) as Hi.
      destruct (sk !! index); simpl in Hi; lia.
    + done.
Qed.

(** Iterations strictly below [n] once the cache is full: nothing is
    cached. *)
Lemma recvLoop_full ck0 n mx count : ∀ index st,
  index + count ≤ n →
  mx ≤ size (loop_skipped st) →
  loop_ck st = chainKey ck0 index →
  recvLoop n mx count index st =
    mkLoop (chainKey ck0 (index + count)) (loop_derived st) (loop_skipped st).
Proof.
  induction count as [|c IH]; intros index [ck d sk] Hn Hsz Hck;
    simpl in *; subst ck.
  - by rewrite Nat.add_0_r.
  - unfold recvBody; simpl.
    destruct (Nat.eqb_spec index n); [lia|].
    destruct (Nat.ltb_spec (size sk) mx); [lia|].
    rewrite (IH (S index)); simpl; [|lia|done|done].
    by replace (index + S c) with (S index + c) by lia.
Qed.

(** The last iteration, at [index = n], yields the message key. *)
Lemma recvLoop_last ck0 n mx st :
  loop_ck st = chainKey ck0 n →
  recvLoop n mx 1 n st =
    mkLoop (chainKey ck0 (S n)) (Some (msgKey ck0 n)) (loop_skipped st).
Proof.
  destruct st as [ck d sk]; simpl; intros ->.
  unfold recvBody; simpl. by rewrite Nat.eqb_refl.
Qed.

(** The loop never grows the cache beyond [mx] (or its initial size) and
    only adds indices it runs over. *)
Lemma recvLoop_bounds n mx count : ∀ index st,
  let st' := recvLoop n mx count index st in
  size (loop_skipped st') ≤ Nat.max mx (size (loop_skipped st)) ∧
  ∀ j, is_Some (loop_skipped st' !! j) →
       is_Some (loop_skipped st !! j) ∨ (index ≤ j < index + count ∧ j ≠ n).
Proof.
  induction count as [|c IH]; intros index st; simpl.
  - split; [lia | auto].
  - destruct (IH (S index) (recvBody n mx index st)) as [Hsz Hdom].
    unfold recvBody in *.
    destruct (Nat.eqb_spec index n) as [->|Hne]; simpl in *.
    + split; [lia|]. intros j Hj. destruct (Hdom j Hj) as [?|[? ?]]; [auto|].
      right. lia.
    + destruct (Nat.ltb_spec (size (loop_skipped st)) mx); simpl in *.
      * split.
        -- pose proof (map_size_insert index
             (bytesToBase64 (hmacSha256 (loop_ck st) MSG_LABEL))
             (loop_skipped st)) as Hi.
           destruct (loop_skipped st !! index); simpl in Hi; lia.
        -- intros j Hj. destruct (Hdom j Hj) as [Hs|[? ?]].
           ++ destruct (decide (j = index)) as [->|Hji].
              ** right. lia.
              ** rewrite lookup_insert_ne in Hs; [auto | congruence].
           ++ right. lia.
      * split; [lia|]. intros j Hj. destruct (Hdom j Hj) as [?|[? ?]]; [auto|].
        right. lia.
Qed.

Lemma trimSkipped_small m mx : size m ≤ mx → trimSkipped m mx = m.
Proof.
  intros Hsz. unfold trimSkipped.
  rewrite length_map_to_list.
  destruct (Nat.leb_spec (size m) mx); [done | lia].
Qed.

Lemma pendingCache_lookup ck0 hi R j :
  pendingCache ck0 hi R !! j =
    if decide (j < hi ∧ j ∈ R)
    then Some (bytesToBase64 (msgKey ck0 j)) else None.
Proof.
  induction R as [|a R IH]; simpl.
  - rewrite lookup_empty, decide_False; [done|].
    intros [_ Hin]. by apply elem_of_nil in Hin.
  - destruct (decide (a < hi)) as [Ha|Ha].
    + destruct (decide (j = a)) as [->|Hne].
      * rewrite lookup_insert_eq, decide_True; [done|].
        split; [done | apply elem_of_cons; by left].
      * rewrite lookup_insert_ne, IH by done.
        destruct (decide (j < hi ∧ j ∈ R)) as [[? ?]|Hd].
        -- rewrite decide_True; [done|].
           split; [done | apply elem_of_cons; by right].
        -- rewrite decide_False; [done|]. intros [Hlt Hin].
           apply elem_of_cons in Hin as [?|Hin]; [done | tauto].
    + rewrite IH. destruct (decide (j < hi ∧ j ∈ R)) as [[? ?]|Hd].
      * rewrite decide_True; [done|].
        split; [done | apply elem_of_cons; by right].
      * rewrite decide_False; [done|]. intros [Hlt Hin].
        apply elem_of_cons in Hin as [->|Hin]; [lia | tauto].
Qed.

Lemma pendingCache_size ck0 hi lo R :
  (∀ j, j ∈ R → lo ≤ j) → size (pendingCache ck0 hi R) ≤ hi - lo.
Proof.
  intros Hlo. rewrite <- size_dom.
  rewrite <- (size_set_seq (C := gset nat) lo (hi - lo)).
  apply subseteq_size. intros j Hj.
  apply elem_of_dom in Hj. rewrite pendingCache_lookup in Hj.
  case_decide as Hd; [|by destruct Hj].
  destruct Hd as [Hlt Hin]. apply elem_of_set_seq.
  specialize (Hlo j Hin). lia.
Qed.

Lemma within_window_bound w R : ∀ hi j,
  within_window w hi R = true → j ∈ R → hi ≤ j + w.
Proof.
  induction R as [|a R IH]; intros hi j Hw Hin; simpl in *.
  - by apply elem_of_nil in Hin.
  - apply andb_prop in Hw as [Ha Hrest]. apply Nat.leb_le in Ha.
    apply elem_of_cons in Hin as [->|Hin]; [done|].
    specialize (IH _ _ Hrest Hin). lia.
Qed.

Lemma receiveAll_cons w s n R :
  receiveAll w s (n :: R) =
    (r ← deriveReceiveKey s n w;
     more ← receiveAll w (nextSession r) R;
     Ok (messageKey r :: more.1, more.2)).
Proof. reflexivity. Qed.

(** *** The two branches of [deriveReceiveKey] *)

Lemma deriveReceiveKey_absent s n mx :
  n < recvN s → skippedKeys s !! n = None →
  deriveReceiveKey s n mx = Ok (mkReceive None s false).
Proof.
  intros Hn Hnone. unfold deriveReceiveKey.
  destruct (Nat.ltb_spec n (recvN s)); [|lia]. by rewrite Hnone.
Qed.

(** *** A jump beyond the cache capacity *)

Lemma cacheRange_size ck0 count :
  size (cacheRange ck0 0 count ∅) = count.
Proof.
  rewrite <- size_dom.
  rewrite <- (size_set_seq (C := gset nat) 0 count) at 2.
  f_equal. apply set_eq. intros j.
  rewrite elem_of_dom, cacheRange_lookup, elem_of_set_seq, lookup_empty.
  destruct (decide (0 ≤ j < 0 + count)) as [?|?].
  - split; [lia | by eexists].
  - split; [intros [? ?]; done | lia].
Qed.

Lemma deriveReceiveKey_beyond s n mx ck0 :
  recvN s = 0 → skippedKeys s = ∅ →
  base64ToBytes (recvCK s) = Ok ck0 →
  mx ≤ n →
  deriveReceiveKey s n mx =
    Ok (mkReceive (Some (msgKey ck0 n))
          (withRecv s (bytesToBase64 (chainKey ck0 (S n))) (n + 1)
             (cacheRange ck0 0 mx ∅))
          false).
Proof.
  intros HN Hsk Hck Hmx. unfold deriveReceiveKey.
  rewrite HN, Hsk, Hck. cbn [Nat.ltb Nat.leb mbind exc_bind].
  replace (S n - 0) with (mx + ((n - mx) + 1)) by lia.
  rewrite !recvLoop_app.
  rewrite (recvLoop_cached ck0 n mx mx 0 (mkLoop _ None _));
    [|lia|cbn [loop_skipped]; rewrite map_size_empty; lia|done].
  cbn [loop_derived loop_skipped].
  rewrite (recvLoop_full ck0 n mx (n - mx) (0 + mx) (mkLoop _ None _));
    [|lia|cbn [loop_skipped]; rewrite cacheRange_size; lia|done].
  cbn [loop_derived loop_skipped].
  replace (0 + mx + (n - mx)) with n by lia.
  rewrite (recvLoop_last ck0); [|done].
  cbn [loop_derived loop_skipped loop_ck].
  rewrite trimSkipped_small; [done|]. by rewrite cacheRange_size.
Qed.

(** *** Preservation of the cache bounds *)

Lemma advanceSend_cache s mk s' :
  advanceSend s = Ok (mk, s') →
  recvN s' = recvN s ∧ skippedKeys s' = skippedKeys s.
Proof.
  unfold advanceSend. destruct (base64ToBytes (sendCK s)); simpl; [|done].
  by intros [= <- <-].
Qed.

Lemma deriveReceiveKey_cache_bounds s n mx r :
  size (skippedKeys s) ≤ mx →
  (∀ j, is_Some (skippedKeys s !! j) → j < recvN s) →
  deriveReceiveKey s n mx = Ok r →
  size (skippedKeys (nextSession r)) ≤ mx ∧
  (∀ j, is_Some (skippedKeys (nextSession r) !! j) →
        j < recvN (nextSession r)).
Proof.
  intros Hsz Hdom. unfold deriveReceiveKey.
  destruct (Nat.ltb_spec n (recvN s)) as [Hlt|Hge].
  - destruct (skippedKeys s !! n) as [cached|] eqn:Hc.
    + destruct (String.eqb cached ""); [by intros [= <-]|].
      destruct (base64ToBytes cached); simpl; [|done].
      intros [= <-]; simpl. split.
      * pose proof (map_size_delete n (skippedKeys s)) as Hd.
        rewrite Hc in Hd. simpl in Hd. lia.
      * intros j Hj. apply Hdom.
        destruct (decide (j = n)) as [->|?].
        -- rewrite lookup_delete_eq in Hj. by destruct Hj.
        -- by rewrite lookup_delete_ne in Hj.
    + by intros [= <-].
  - destruct (base64ToBytes (recvCK s)) as [ck|]; simpl; [|done].
    intros [= <-]; simpl.
    destruct (recvLoop_bounds n mx (S n - recvN s) (recvN s)
                (mkLoop ck None (skippedKeys s))) as [Hs Hd]; simpl in *.
    rewrite trimSkipped_small by lia. split; [lia|].
    intros j Hj. destruct (Hd j Hj) as [Hold|[? ?]]; [|lia].
    specialize (Hdom j Hold). lia.
Qed.

Section WithBase64.
Hypothesis base64_roundtrip : ∀ b, base64ToBytes (bytesToBase64 b) = Ok b.
Hypothesis base64_key_nonempty :
  ∀ k d, bytesToBase64 (hmacSha256 k d) ≠ "".

Lemma deriveReceiveKey_cached s n mx ck0 :
  n < recvN s →
  skippedKeys s !! n = Some (bytesToBase64 (msgKey ck0 n)) →
  deriveReceiveKey s n mx =
    Ok (mkReceive (Some (msgKey ck0 n))
          (withSkipped s (delete n (skippedKeys s))) true).
Proof.
  intros Hn Hsome. unfold deriveReceiveKey.
  destruct (Nat.ltb_spec n (recvN s)); [|lia]. rewrite Hsome.
  destruct (String.eqb_spec (bytesToBase64 (msgKey ck0 n)) "") as [He|_].
  - by apply base64_key_nonempty in He.
  - by rewrite base64_roundtrip.
Qed.

Lemma deriveReceiveKey_ahead s n mx ck0 :
  recvN s ≤ n →
  base64ToBytes (recvCK s) = Ok (chainKey ck0 (recvN s)) →
  size (skippedKeys s) + (n - recvN s) ≤ mx →
  deriveReceiveKey s n mx =
    Ok (mkReceive (Some (msgKey ck0 n))
          (withRecv s (bytesToBase64 (chainKey ck0 (S n))) (n + 1)
             (trimSkipped
                (cacheRange ck0 (recvN s) (n - recvN s) (skippedKeys s))
                mx))
          false).
Proof.
  intros Hn Hck Hsz. unfold deriveReceiveKey.
  destruct (Nat.ltb_spec n (recvN s)); [lia|]. rewrite Hck; simpl.
  replace (S n - recvN s) with ((n - recvN s) + 1) by lia.
  rewrite recvLoop_app.
  rewrite (recvLoop_cached ck0 n mx (n - recvN s) (recvN s)
             (mkLoop _ None _)); [|lia|simpl; lia|done].
  replace (recvN s + (n - recvN s)) with n by lia.
  by rewrite (recvLoop_last ck0).
Qed.

(** *** Sender side *)

Lemma advanceSendN_keys ck0 k : ∀ i s,
  base64ToBytes (sendCK s) = Ok (chainKey ck0 i) →
  ∃ s', advanceSendN k s = Ok (msgKey ck0 <$> seq i k, s') ∧
        sendN s' = sendN s + k.
Proof.
  induction k as [|k IH]; intros i s Hck; simpl.
  - exists s. split; [done | lia].
  - unfold advanceSend. rewrite Hck; simpl.
    destruct (IH (S i)
      (withSend s (bytesToBase64 (hmacSha256 (chainKey ck0 i) CK_LABEL))
         (sendN s + 1))) as (s' & Hrun & HN).
    { simpl. by rewrite base64_roundtrip. }
    exists s'. rewrite Hrun; simpl. split; [done|]. simpl in HN. lia.
Qed.

(** *** Receiver side: any arrival order inside the window *)

Lemma receiveAll_window ck0 w k R : ∀ s,
  base64ToBytes (recvCK s) = Ok (chainKey ck0 (recvN s)) →
  skippedKeys s = pendingCache ck0 (recvN s) R →
  NoDup R →
  recvN s ≤ k →
  (∀ j, recvN s ≤ j < k → j ∈ R) →
  (∀ j, j ∈ R → j < k) →
  within_window w (recvN s) R = true →
  ∃ s', receiveAll w s R = Ok ((λ j, Some (msgKey ck0 j)) <$> R, s') ∧
        recvN s' = k ∧ skippedKeys s' = ∅.
Proof.
  induction R as [|n R IH]; intros s Hck Hsk Hnd Hle Hcov Hlt Hwin.
  - exists s. simpl. split; [done|]. split.
    + destruct (decide (recvN s = k)) as [?|Hne]; [done|].
      exfalso. assert (recvN s ∈ @nil nat) as Hin by (apply Hcov; lia).
      by apply elem_of_nil in Hin.
    + by rewrite Hsk.
  - apply NoDup_cons in Hnd as [Hnin Hnd].
    simpl in Hwin. apply andb_prop in Hwin as [Hn Hwin].
    apply Nat.leb_le in Hn.
    assert (n < k) as Hnk by (apply Hlt, elem_of_cons; by left).
    destruct (decide (n < recvN s)) as [Hold|Hnew].
    + (* a late message: its key is in the cache *)
      rewrite Nat.max_l in Hwin by lia.
      assert (skippedKeys s !! n = Some (bytesToBase64 (msgKey ck0 n)))
        as Hhit.
      { rewrite Hsk, pendingCache_lookup. case_decide as Hd; [done|].
        exfalso. apply Hd. split; [done | apply elem_of_cons; by left]. }
      destruct (IH (withSkipped s (delete n (skippedKeys s))))
        as (s' & Hrun & Hfin).
      { done. }
      { simpl. apply map_eq. intros j. rewrite Hsk.
        destruct (decide (j = n)) as [->|Hne].
        - rewrite lookup_delete_eq, pendingCache_lookup.
          rewrite decide_False; [done | tauto].
        - rewrite lookup_delete_ne by done.
          rewrite !pendingCache_lookup.
          destruct (decide (j < recvN s ∧ j ∈ R)) as [[? ?]|Hd].
          + rewrite decide_True; [done|]. split; [done|].
            apply elem_of_cons. by right.
          + rewrite decide_False; [done|]. intros [? Hin].
            apply elem_of_cons in Hin as [?|?]; [done|]. by apply Hd. }
      { done. }
      { done. }
      { simpl. intros j Hj. specialize (Hcov j Hj).
        apply elem_of_cons in Hcov as [->|?]; [lia | done]. }
      { intros j Hj. apply Hlt, elem_of_cons. by right. }
      { done. }
      exists s'. split; [|done].
      rewrite receiveAll_cons, (deriveReceiveKey_cached s n w ck0 Hold Hhit).
      unfold mbind, exc_bind; cbn [nextSession messageKey].
      by rewrite Hrun.
    + (* a message at or ahead of [recvN]: the loop runs up to it *)
      assert (recvN s ≤ n) as Hge by lia.
      rewrite Nat.max_r in Hwin by lia.
      assert (∀ j, j ∈ R → S n - w ≤ j) as Hlow.
      { intros j Hj. pose proof (within_window_bound _ _ _ _ Hwin Hj). lia. }
      assert (∀ j, recvN s ≤ j < n → j ∈ R) as Hgap.
      { intros j Hj. assert (j ∈ n :: R) as Hin by (apply Hcov; lia).
        apply elem_of_cons in Hin as [->|?]; [lia | done]. }
      assert (pendingCache ck0 (recvN s) (n :: R)
              = pendingCache ck0 (recvN s) R) as Hdrop.
      { simpl. by destruct (decide (n < recvN s)). }
      assert (size (skippedKeys s) + (n - recvN s) ≤ w) as Hroom.
      { rewrite Hsk, Hdrop.
        pose proof (pendingCache_size ck0 (recvN s) (S n - w) R Hlow).
        destruct (decide (recvN s = n)) as [?|Hne]; [lia|].
        assert (recvN s ∈ R) as Hin by (apply Hgap; lia).
        specialize (Hlow _ Hin). lia. }
      assert (cacheRange ck0 (recvN s) (n - recvN s) (skippedKeys s)
              = pendingCache ck0 (S n) R) as Hcache.
      { apply map_eq. intros j.
        rewrite cacheRange_lookup, Hsk, Hdrop, !pendingCache_lookup.
        destruct (decide (recvN s ≤ j < recvN s + (n - recvN s)))
          as [Hin|Hout].
        - rewrite decide_True; [done|]. split; [lia | apply Hgap; lia].
        - destruct (decide (j < recvN s ∧ j ∈ R)) as [[? ?]|Hd].
          + rewrite decide_True; [done|]. split; [lia | done].
          + rewrite decide_False; [done|]. intros [? ?].
            destruct (decide (j = n)) as [->|?]; [done|].
            apply Hd. split; [lia | done]. }
      pose proof (deriveReceiveKey_ahead s n w ck0 Hge Hck Hroom) as Hstep.
      rewrite Hcache in Hstep.
      rewrite trimSkipped_small in Hstep.
      2:{ pose proof (pendingCache_size ck0 (S n) (S n - w) R Hlow). lia. }
      destruct (IH (withRecv s (bytesToBase64 (chainKey ck0 (S n))) (n + 1)
                      (pendingCache ck0 (S n) R)))
        as (s' & Hrun & Hfin).
      { cbn [recvCK recvN withRecv].
        replace (n + 1) with (S n) by lia. apply base64_roundtrip. }
      { cbn [skippedKeys recvN withRecv].
        by replace (n + 1) with (S n) by lia. }
      { done. }
      { cbn [recvN withRecv]. lia. }
      { cbn [recvN withRecv]. intros j Hj.
        assert (j ∈ n :: R) as Hin by (apply Hcov; lia).
        apply elem_of_cons in Hin as [->|?]; [lia | done]. }
      { intros j Hj. apply Hlt, elem_of_cons. by right. }
      { cbn [recvN withRecv]. by replace (n + 1) with (S n) by lia. }
      exists s'. split; [|done].
      rewrite receiveAll_cons, Hstep.
      unfold mbind, exc_bind; cbn [nextSession messageKey].
      by rewrite Hrun.
Qed.

(** C1. Ratchet mirroring under out-of-order arrival: when the sender's
    send chain and the receiver's receive chain start from the same key,
    the [k] keys the sender derives by [advanceSend] at counters
    [0 .. k-1] are exactly the keys [deriveReceiveKey] (with
    [maxSkipped = 50]) returns to the receiver for those counters, in
    whatever order they arrive, as long as no counter arrives more than
    50 behind the receiver's [recvN]; afterwards [recvN = k] and the
    skipped-key cache is empty. *)
Theorem ratchet_mirroring_any_order
    (A B : SessionRecord) (ck0 : bytes) (k : nat) (order : list nat) :
  base64ToBytes (sendCK A) = Ok ck0 →
  recvCK B = sendCK A →
  recvN B = 0 →
  skippedKeys B = ∅ →
  order ≡ₚ seq 0 k →
  within_window 50 0 order = true →
  ∃ keys A' B',
    advanceSendN k A = Ok (keys, A') ∧
    length keys = k ∧
    sendN A' = sendN A + k ∧
    receiveAll 50 B order = Ok ((λ n, keys !! n) <$> order, B') ∧
    (∀ n, n ∈ order → is_Some (keys !! n)) ∧
    recvN B' = k ∧
    skippedKeys B' = ∅.
Proof.
  intros HA Hmirror HN Hsk Hperm Hwin.
  destruct (advanceSendN_keys ck0 k 0 A HA) as (A' & Hsend & HsendN).
  assert (∀ n, n ∈ order → n < k) as Hlt.
  { intros n Hn. rewrite Hperm in Hn. apply elem_of_seq in Hn. lia. }
  assert (∀ n, n < k → (msgKey ck0 <$> seq 0 k) !! n = Some (msgKey ck0 n))
    as Hkey.
  { intros n Hn. by rewrite list_lookup_fmap, lookup_seq_lt. }
  destruct (receiveAll_window ck0 50 k order B) as (B' & Hrecv & HB1 & HB2).
  - by rewrite HN, Hmirror.
  - rewrite Hsk, HN. apply map_eq. intros j.
    rewrite pendingCache_lookup, lookup_empty, decide_False; [done | lia].
  - rewrite Hperm. apply NoDup_seq.
  - lia.
  - intros j Hj. rewrite Hperm. apply elem_of_seq. lia.
  - done.
  - by rewrite HN.
  - exists (msgKey ck0 <$> seq 0 k), A', B'.
    split; [done|]. split; [by rewrite length_fmap, length_seq|].
    split; [done|]. split.
    + rewrite Hrecv. f_equal. f_equal.
      apply list_fmap_ext. intros i n Hin.
      symmetry. apply Hkey, Hlt. by eapply list_elem_of_lookup_2.
    + split; [|done]. intros n Hn. rewrite Hkey; [by eexists | by apply Hlt].
Qed.

(** C2 (as the code has it). From a fresh session the call
    [deriveReceiveKey(session, 59, 50)] returns the key of counter 59,
    moves [recvN] to 60 and leaves a cache of exactly 50 entries: the
    keys of the counters [0 .. 49], the first fifty it skipped.  The
    counters [50 .. 58] are not cached and stay without a key; the
    counters [0 .. 49] are still served from the cache. *)
Theorem skipped_cache_keeps_first_fifty (B : SessionRecord) (ck0 : bytes) :
  recvN B = 0 →
  skippedKeys B = ∅ →
  base64ToBytes (recvCK B) = Ok ck0 →
  ∃ r,
    deriveReceiveKey B 59 50 = Ok r ∧
    messageKey r = Some (msgKey ck0 59) ∧
    recvN (nextSession r) = 60 ∧
    size (skippedKeys (nextSession r)) = 50 ∧
    (∀ i, i < 50 →
       skippedKeys (nextSession r) !! i
         = Some (bytesToBase64 (msgKey ck0 i)) ∧
       messageKey <$> deriveReceiveKey (nextSession r) i 50
         = Ok (Some (msgKey ck0 i))) ∧
    (∀ i, 50 ≤ i < 59 →
       skippedKeys (nextSession r) !! i = None ∧
       messageKey <$> deriveReceiveKey (nextSession r) i 50 = Ok None).
Proof.
  intros HN Hsk Hck.
  eexists. split.
  { apply (deriveReceiveKey_beyond B 59 50 ck0); [done..|lia]. }
  cbn [messageKey nextSession recvN skippedKeys withRecv].
  split; [done|]. split; [done|]. split; [apply cacheRange_size|].
  assert (∀ i, i < 50 → cacheRange ck0 0 50 ∅ !! i
            = Some (bytesToBase64 (msgKey ck0 i))) as Hin.
  { intros i Hi. rewrite cacheRange_lookup, decide_True; [done | lia]. }
  assert (∀ i, 50 ≤ i → cacheRange ck0 0 50 ∅ !! i = None) as Hout.
  { intros i Hi.
    rewrite cacheRange_lookup, decide_False, lookup_empty; [done | lia]. }
  split.
  - intros i Hi. split; [by apply Hin|].
    rewrite (deriveReceiveKey_cached _ i 50 ck0); [done | simpl; lia |].
    by apply Hin.
  - intros i Hi. split; [apply Hout; lia|].
    rewrite deriveReceiveKey_absent; [done | simpl; lia |].
    apply Hout; lia.
Qed.

End WithBase64.

(** C5. Fresh-session chain mirroring: for one root key, the send chain
    key derived for [(A, B)] is the receive chain key derived for
    [(B, A)], and conversely. *)
Theorem chain_keys_mirror (rootKey : bytes) (pubA pubB : string) :
  ck_send (deriveChainKeys rootKey pubA pubB)
    = ck_recv (deriveChainKeys rootKey pubB pubA) ∧
  ck_recv (deriveChainKeys rootKey pubA pubB)
    = ck_send (deriveChainKeys rootKey pubB pubA) ∧
  ck_send (deriveChainKeys rootKey pubA pubB)
    = hmacSha256 rootKey (stringToBytes ("send:" ++ pubA)) ∧
  ck_recv (deriveChainKeys rootKey pubA pubB)
    = hmacSha256 rootKey (stringToBytes ("send:" ++ pubB)).
Proof. unfold deriveChainKeys; simpl. auto. Qed.

(** C7. Session cache invariant: in every session reachable from a
    freshly seeded one by [advanceSend] and [deriveReceiveKey] (with
    [maxSkipped = 50]) the skipped-key cache has at most 50 entries and
    every cached index is below [recvN]. *)
Theorem session_cache_invariant (s0 s : SessionRecord) :
  sendN s0 = 0 → recvN s0 = 0 → skippedKeys s0 = ∅ →
  reachable 50 s0 s →
  size (skippedKeys s) ≤ 50 ∧
  ∀ i, is_Some (skippedKeys s !! i) → i < recvN s.
Proof.
  intros _ HN Hsk Hreach.
  induction Hreach as [|s mk s' _ IH Hstep|s n r _ IH Hstep].
  - rewrite Hsk, map_size_empty. split; [lia|].
    intros i Hi. rewrite lookup_empty in Hi. by destruct Hi.
  - apply advanceSend_cache in Hstep as [-> ->]. exact IH.
  - destruct IH as [Hsz Hdom].
    exact (deriveReceiveKey_cache_bounds s n 50 r Hsz Hdom Hstep).
Qed.

End RatchetTheory.

(** *** The ratchet on the concrete instance *)

Lemma demo_base64_roundtrip (v : Json) (b : bytes) :
  base64ToBytes (Primitives := demoPrimitivesWith v)
    (bytesToBase64 (Primitives := demoPrimitivesWith v) b) = Ok b.
Proof. simpl. by rewrite list_byte_of_string_of_list_byte. Qed.

Lemma demo_base64_key_nonempty (k d : bytes) :
  bytesToBase64 (Primitives := demoPrimitives)
    (hmacSha256 (Primitives := demoPrimitives) k d) ≠ "".
Proof. simpl. discriminate. Qed.

Lemma ratchet_mirroring_any_order_witness :
  ∃ keys A' B',
    advanceSendN (H := demoPrimitives) 4 (demoSession [x01] [x02])
      = Ok (keys, A') ∧
    length keys = 4 ∧
    sendN A' = 0 + 4 ∧
    receiveAll (H := demoPrimitives) 50 (demoSession [x02] [x01]) [2; 0; 3; 1]
      = Ok ((λ n, keys !! n) <$> [2; 0; 3; 1], B') ∧
    (∀ n, n ∈ [2; 0; 3; 1] → is_Some (keys !! n)) ∧
    recvN B' = 4 ∧
    skippedKeys B' = ∅.
Proof.
  apply (@ratchet_mirroring_any_order demoPrimitives
           (demo_base64_roundtrip JNull) demo_base64_key_nonempty
           (demoSession [x01] [x02]) (demoSession [x02] [x01]) [x01] 4
           [2; 0; 3; 1]).
  - reflexivity.
  - reflexivity.
  - reflexivity.
  - reflexivity.
  - by apply (bool_decide_unpack _).
  - reflexivity.
Defined.

Lemma skipped_cache_keeps_first_fifty_witness :
  ∃ r,
    deriveReceiveKey (H := demoPrimitives) (demoSession [x01] [x02]) 59 50
      = Ok r ∧
    messageKey r = Some (msgKey (H := demoPrimitives) [x02] 59) ∧
    recvN (nextSession r) = 60 ∧
    size (skippedKeys (nextSession r)) = 50 ∧
    (∀ i, i < 50 →
       skippedKeys (nextSession r) !! i
         = Some (bytesToBase64 (Primitives := demoPrimitives)
                   (msgKey (H := demoPrimitives) [x02] i)) ∧
       messageKey <$> deriveReceiveKey (H := demoPrimitives) (nextSession r) i 50
         = Ok (Some (msgKey (H := demoPrimitives) [x02] i))) ∧
    (∀ i, 50 ≤ i < 59 →
       skippedKeys (nextSession r) !! i = None ∧
       messageKey <$> deriveReceiveKey (H := demoPrimitives) (nextSession r) i 50
         = Ok None).
Proof.
  apply (@skipped_cache_keeps_first_fifty demoPrimitives
           (demo_base64_roundtrip JNull) demo_base64_key_nonempty
           (demoSession [x01] [x02]) [x02]); reflexivity.
Defined.

(** C2 (as stated) fails: after [deriveReceiveKey(fresh, 59, 50)] the
    earliest index 0 is in the cache, not absent, and the largest skipped
    index 58 is absent, not retained. *)
Lemma newer_biased_eviction_refuted :
  ∃ r,
    deriveReceiveKey (H := demoPrimitives) (demoSession [x01] [x02]) 59 50
      = Ok r ∧
    size (skippedKeys (nextSession r)) = 50 ∧
    is_Some (skippedKeys (nextSession r) !! 0) ∧
    skippedKeys (nextSession r) !! 58 = None.
Proof.
  eexists. split.
  - apply (deriveReceiveKey_beyond (demoSession [x01] [x02]) 59 50 [x02]);
      [done..|lia].
  - cbn [nextSession skippedKeys withRecv].
    split; [apply cacheRange_size|]. split.
    + rewrite cacheRange_lookup, decide_True; [by eexists | lia].
    + rewrite cacheRange_lookup, decide_False, lookup_empty; [done | lia].
Qed.

Lemma session_cache_invariant_witness :
  match deriveReceiveKey (H := demoPrimitives) (demoSession [x01] [x02]) 2 50
  with
  | Ok r1 =>
      match deriveReceiveKey (H := demoPrimitives) (nextSession r1) 0 50 with
      | Ok r2 =>
          size (skippedKeys (nextSession r2)) ≤ 50 ∧
          ∀ i, is_Some (skippedKeys (nextSession r2) !! i) →
               i < recvN (nextSession r2)
      | Throw _ => False
      end
  | Throw _ => False
  end.
Proof.
  destruct (deriveReceiveKey (H := demoPrimitives) (demoSession [x01] [x02]) 2 50)
    as [r1|e] eqn:E1; [|vm_compute in E1; discriminate].
  destruct (deriveReceiveKey (H := demoPrimitives) (nextSession r1) 0 50)
    as [r2|e] eqn:E2.
  - apply (@session_cache_invariant demoPrimitives (demoSession [x01] [x02]) _
             eq_refl eq_refl eq_refl).
    eapply reach_recv; [eapply reach_recv; [apply reach_init | exact E1] | exact E2].
  - vm_compute in E1. injection E1 as <-. vm_compute in E2. discriminate.
Defined.

(** ** The inbound pipeline *)

Section InboundTheory.
Context `{Primitives} `{Environment}.

Lemma bind_run {A B} (m : M A) (f : A → M B) (w : World) :
  (m ≫= f) w =
    match m w with
    | (Ok a, w') => f a w'
    | (Throw e, w') => (Throw e, w')
    end.
Proof. reflexivity. Qed.

Lemma find_chat_none (cid : string) (l : list ChatRecord) :
  (∀ c, c ∈ l → chat_id c ≠ cid) →
  List.find (λ item, String.eqb (chat_id item) cid) l = None.
Proof.
  induction l as [|c l IH]; intros Hall; simpl; [done|].
  destruct (String.eqb_spec (chat_id c) cid) as [Heq|_].
  - exfalso. by apply (Hall c); [apply elem_of_cons; left|].
  - apply IH. intros c' Hc'. apply Hall, elem_of_cons. by right.
Qed.

Lemma find_accepted_chat (cid : string) (l : list ChatRecord) (chat : ChatRecord) :
  chat ∈ l → chat_id chat = cid → accepted chat = true →
  ∃ c, List.find (λ item, String.eqb (chat_id item) cid && accepted item) l
       = Some c.
Proof.
  induction l as [|c l IH]; intros Hin Hid Hacc; simpl.
  - by apply elem_of_nil in Hin.
  - destruct (String.eqb (chat_id c) cid && accepted c) eqn:E; [by eexists|].
    apply elem_of_cons in Hin as [->|Hin]; [|by apply IH].
    rewrite Hid, Hacc, String.eqb_refl in E. done.
Qed.

(** *** Computations that publish nothing *)

Lemma quiet_same_trace {A} (m : M A) :
  (∀ w, trace (m w).2 = trace w) → quiet m.
Proof.
  intros Hm w. exists []. rewrite Hm, app_nil_r. by split.
Qed.

Lemma quiet_ret {A} (a : A) : quiet (mret a : M A).
Proof. by apply quiet_same_trace. Qed.

Lemma quiet_throw {A} (e : string) : quiet (throw e : M A).
Proof. by apply quiet_same_trace. Qed.

Lemma quiet_liftExc {A} (x : exc A) : quiet (liftExc x).
Proof. by apply quiet_same_trace. Qed.

Lemma quiet_getState : quiet getState.
Proof. by apply quiet_same_trace. Qed.

Lemma quiet_getIdb : quiet getIdb.
Proof. by apply quiet_same_trace. Qed.

Lemma quiet_setState f : quiet (setState f).
Proof. by apply quiet_same_trace. Qed.

Lemma quiet_now : quiet now.
Proof. by apply quiet_same_trace. Qed.

Lemma quiet_randomId : quiet randomId.
Proof. by apply quiet_same_trace. Qed.

Lemma quiet_randomBytes len : quiet (randomBytes len).
Proof. by apply quiet_same_trace. Qed.

Lemma quiet_putIdb f e : isPublish e = false → quiet (putIdb f e).
Proof. intros He w. exists [e]. split; [done|]. by constructor. Qed.

Lemma quiet_bind {A B} (m : M A) (f : A → M B) :
  quiet m → (∀ a, quiet (f a)) → quiet (m ≫= f).
Proof.
  intros Hm Hf w. rewrite bind_run.
  destruct (Hm w) as (es1 & Ht1 & Hq1).
  destruct (m w) as [[a|e] w1]; simpl in *.
  - destruct (Hf a w1) as (es2 & Ht2 & Hq2).
    exists (es1 ++ es2). rewrite Ht2, Ht1, app_assoc. split; [done|].
    by apply Forall_app.
  - by exists es1.
Qed.

Lemma quiet_mapM {A B} (f : A → M B) (l : list A) :
  (∀ a, quiet (f a)) → quiet (mapM f l).
Proof.
  intros Hf. induction l as [|x l IH]; simpl.
  - apply quiet_ret.
  - apply quiet_bind; [done|]. intros y.
    apply quiet_bind; [done|]. intros ys. apply quiet_ret.
Qed.

Create HintDb quiet.
#[local] Hint Resolve quiet_ret quiet_throw quiet_liftExc quiet_getState
  quiet_getIdb quiet_setState quiet_now quiet_randomId quiet_randomBytes
  quiet_mapM : quiet.

(** Walk down a handler: binds, then the branches of its conditionals. *)
Ltac quiet_step :=
  match goal with
  | |- quiet (_ ≫= _) => apply quiet_bind; [|intros ?]
  | |- quiet (putIdb _ _) => by apply quiet_putIdb
  | |- quiet (match ?x with _ => _ end) => destruct x
  | |- quiet _ => by auto with quiet
  end.

Lemma quiet_setMessage m : quiet (setMessage m).
Proof. unfold setMessage. quiet_step. Qed.

Lemma quiet_setSession s : quiet (setSession s).
Proof. unfold setSession. quiet_step. Qed.

Lemma quiet_setReaction r : quiet (setReaction r).
Proof. unfold setReaction. quiet_step. Qed.

Lemma quiet_setAttachment a : quiet (setAttachment a).
Proof. unfold setAttachment. quiet_step. Qed.

Lemma quiet_getAttachment a : quiet (getAttachment a).
Proof. unfold getAttachment. repeat quiet_step. Qed.

Lemma quiet_getSession c : quiet (getSession c).
Proof. unfold getSession. repeat quiet_step. Qed.

#[local] Hint Resolve quiet_setMessage quiet_setSession quiet_setReaction
  quiet_setAttachment quiet_getAttachment quiet_getSession : quiet.

Lemma quiet_createSystemMessage c b : quiet (createSystemMessage c b).
Proof. unfold createSystemMessage. repeat quiet_step. Qed.

Lemma quiet_orRandomId x : quiet (orRandomId x).
Proof. unfold orRandomId. repeat quiet_step. Qed.

Lemma quiet_seedSession c k p : quiet (seedSession c k p).
Proof. unfold seedSession. repeat quiet_step. Qed.

#[local] Hint Resolve quiet_createSystemMessage quiet_orRandomId
  quiet_seedSession : quiet.

Lemma quiet_ensureSession c k p : quiet (ensureSession c k p).
Proof. unfold ensureSession. repeat quiet_step. Qed.

Lemma quiet_receiveIntoChat c a item : quiet (receiveIntoChat c a item).
Proof. unfold receiveIntoChat. repeat quiet_step. Qed.

Lemma quiet_setChatsM f : (∀ c, quiet (f c)) → quiet (setChatsM f).
Proof. intros Hf. unfold setChatsM. repeat quiet_step. Qed.

#[local] Hint Resolve quiet_ensureSession quiet_receiveIntoChat
  quiet_setChatsM : quiet.

Lemma quiet_handleInnerPayload c f inner mid :
  quiet (handleInnerPayload c f inner mid).
Proof.
  unfold handleInnerPayload, resetSession. repeat quiet_step.
Qed.

Lemma quiet_reportKeyMismatch c : quiet (reportKeyMismatch c).
Proof. unfold reportKeyMismatch. repeat quiet_step. Qed.

Lemma ensureSession_existing (w : World) cid k p :
  is_Some (sessions (store w) !! cid) ∨ is_Some (idb_sessions (idb w) !! cid) →
  ∃ s, ensureSession cid k p w = (Ok s, w).
Proof.
  intros Hex. unfold ensureSession. rewrite bind_run. cbn [getState].
  destruct (sessions (store w) !! cid) as [s|] eqn:Hs.
  - by exists s.
  - destruct Hex as [[? ?]|[s Hi]]; [done|].
    exists s. rewrite bind_run. unfold getSession. rewrite bind_run.
    cbn [getIdb]. by rewrite Hi.
Qed.

(** The notice [reportKeyMismatch] files in a world: the stored record and
    the copy shown in the conversation. *)
Lemma reportKeyMismatch_run (w : World) (cid : string) :
  let notice :=
    mkMessage (uuid (idDraws w)) cid kind_system "system" None
      (Some "Key mismatch. Rekey to continue.") (clock (clockReads w))
      None None None None None None None None in
  ∃ w',
    reportKeyMismatch cid w = (Ok tt, w') ∧
    sessions (store w') = sessions (store w) ∧
    idb_sessions (idb w') = idb_sessions (idb w) ∧
    messages (store w')
      = updateMessageList (messages (store w)) cid (withKeyMismatch notice) ∧
    trace w' = trace w ++ [PutMessage notice].
Proof. intros notice. eexists. split; [reflexivity|]. done. Qed.

(** C3. Receive-failure atomicity for an inbound [dm_message].
    - Whatever the outcome, the handler publishes at most one envelope, the
      [dm_ack]; when it does, the receive key was derived, secretbox-open
      returned the plaintext, and the write of the advanced session to the
      database comes immediately before the publication in the log.
    - When the receive key is absent or secretbox-open fails, the handler
      returns, the session in the store and in the database is the one
      [ensureSession] returned (the stored one, untouched, when there was
      one), the conversation gains the system message "Key mismatch. Rekey
      to continue." with [keyMismatch = true], and the only effect logged
      is the write of that notice: nothing is published. *)
Theorem receive_failure_atomic
    (w : World) (cid mid sender : string) (n : nat)
    (nonce64 ciphertext64 : string) :
  (∃ es,
     trace (handleEncryptedMessage cid mid (Some sender) n nonce64
              ciphertext64 w).2 = trace w ++ es ∧
     (Forall (λ e, isPublish e = false) es ∨
      ∃ session w1 r key nonce ciphertext plain senderBytes timestamp pre post,
        ensureSession cid dm (Some sender) w = (Ok session, w1) ∧
        deriveReceiveKey session n MAX_SKIPPED_KEYS = Ok r ∧
        messageKey r = Some key ∧
        base64ToBytes nonce64 = Ok nonce ∧
        base64ToBytes ciphertext64 = Ok ciphertext ∧
        secretbox_open ciphertext nonce key = Ok (Some plain) ∧
        base58ToBytes sender = Ok senderBytes ∧
        es = pre ++
             PutSession (nextSession r) ::
             Publish (inboxTopic senderBytes)
               (encodePayload (JEnvelope
                  (dm_ack cid mid (chatKey (store w)) sender timestamp))) ::
             post ∧
        Forall (λ e, isPublish e = false) pre ∧
        Forall (λ e, isPublish e = false) post)) ∧
  ∀ (chat : ChatRecord) (session : SessionRecord) (w1 : World)
    (r : ReceiveResult),
    Some sender ≠ chatKey (store w) →
    chat ∈ chats (store w) →
    chat_id chat = cid →
    ensureSession cid dm (Some sender) w = (Ok session, w1) →
    deriveReceiveKey session n MAX_SKIPPED_KEYS = Ok r →
    (messageKey r = None ∨
     ∃ key nonce ciphertext,
       messageKey r = Some key ∧
       base64ToBytes nonce64 = Ok nonce ∧
       base64ToBytes ciphertext64 = Ok ciphertext ∧
       secretbox_open ciphertext nonce key = Ok None) →
    let notice :=
      mkMessage (uuid (idDraws w1)) cid kind_system "system" None
        (Some "Key mismatch. Rekey to continue.") (clock (clockReads w1))
        None None None None None None None None in
    ∃ w',
      handleEncryptedMessage cid mid (Some sender) n nonce64 ciphertext64 w
        = (Ok tt, w') ∧
      sessions (store w') = sessions (store w1) ∧
      idb_sessions (idb w') = idb_sessions (idb w1) ∧
      (is_Some (sessions (store w) !! cid) ∨
       is_Some (idb_sessions (idb w) !! cid) →
       w1 = w) ∧
      messages (store w')
        = updateMessageList (messages (store w1)) cid (withKeyMismatch notice) ∧
      keyMismatch (withKeyMismatch notice) = Some true ∧
      trace w' = trace w1 ++ [PutMessage notice].
Proof.
  split.
  - (* what can be published *)
    unfold handleEncryptedMessage. rewrite bind_run. cbn [getState].
    case_bool_decide; [exists []; rewrite app_nil_r; by split; [|left]|].
    destruct (List.find _ (chats (store w))) as [chat|];
      [|exists []; rewrite app_nil_r; by split; [|left]].
    rewrite bind_run.
    destruct (quiet_ensureSession cid dm (Some sender) w) as (es0 & Ht0 & Hq0).
    destruct (ensureSession cid dm (Some sender) w) as [[session|e] w1] eqn:Hens;
      simpl in Ht0; [|exists es0; by split; [|left]].
    rewrite bind_run. unfold liftExc at 1.
    destruct (deriveReceiveKey session n MAX_SKIPPED_KEYS) as [r|e] eqn:Hr;
      [|exists es0; by split; [|left]].
    destruct (messageKey r) as [key|] eqn:Hkey.
    2:{ destruct (quiet_reportKeyMismatch cid w1) as (es1 & Ht1 & Hq1).
        exists (es0 ++ es1). rewrite Ht1, Ht0, app_assoc.
        split; [done|]. left. by apply Forall_app. }
    rewrite bind_run. unfold liftExc at 1.
    destruct (base64ToBytes nonce64) as [nonce|e] eqn:Hnonce;
      [|exists es0; by split; [|left]].
    rewrite bind_run. unfold liftExc at 1.
    destruct (base64ToBytes ciphertext64) as [ciphertext|e] eqn:Hct;
      [|exists es0; by split; [|left]].
    rewrite bind_run. unfold liftExc at 1.
    destruct (secretbox_open ciphertext nonce key) as [[plain|]|e] eqn:Hopen;
      [| |exists es0; by split; [|left]].
    2:{ destruct (quiet_reportKeyMismatch cid w1) as (es1 & Ht1 & Hq1).
        exists (es0 ++ es1). rewrite Ht1, Ht0, app_assoc.
        split; [done|]. left. by apply Forall_app. }
    assert (∀ inner,
      ∃ es,
        trace ((setSession (nextSession r);;
                setState (set_sessions (λ ss, <[cid := nextSession r]> ss));;
                sender' ← mret sender;
                senderBytes ← liftExc (base58ToBytes sender');
                timestamp ← now;
                publishPayload (inboxTopic senderBytes)
                  (encodePayload (JEnvelope
                     (dm_ack cid mid (chatKey (store w)) sender' timestamp)));;
                handleInnerPayload cid sender' inner (Some mid)) w1).2
          = trace w1 ++ es ∧
        (Forall (λ e, isPublish e = false) es ∨
         ∃ senderBytes timestamp post,
           base58ToBytes sender = Ok senderBytes ∧
           es = PutSession (nextSession r) ::
                Publish (inboxTopic senderBytes)
                  (encodePayload (JEnvelope
                     (dm_ack cid mid (chatKey (store w)) sender timestamp))) ::
                post ∧
           Forall (λ e, isPublish e = false) post)) as Htail.
    { intros inner.
      unfold mbind, M_bind, mret, M_ret, setSession, putIdb, setState, liftExc,
        now, publishPayload, emit.
      destruct (base58ToBytes sender) as [senderBytes|e] eqn:Hb58.
      - match goal with
        | |- context [handleInnerPayload cid sender inner (Some mid) ?w2] =>
            destruct (quiet_handleInnerPayload cid sender inner (Some mid) w2)
              as (es2 & Ht2 & Hq2);
            destruct (handleInnerPayload cid sender inner (Some mid) w2)
              as [res w3]
        end.
        cbn [trace snd] in *.
        eexists. split; [rewrite Ht2, <- !app_assoc; reflexivity|].
        right. by eexists _, _, es2.
      - cbn [trace snd]. exists [PutSession (nextSession r)].
        split; [done|]. left. by repeat constructor. }
    assert (∀ inner,
      ∃ es,
        trace ((setSession (nextSession r);;
                setState (set_sessions (λ ss, <[cid := nextSession r]> ss));;
                sender' ← mret sender;
                senderBytes ← liftExc (base58ToBytes sender');
                timestamp ← now;
                publishPayload (inboxTopic senderBytes)
                  (encodePayload (JEnvelope
                     (dm_ack cid mid (chatKey (store w)) sender' timestamp)));;
                handleInnerPayload cid sender' inner (Some mid)) w1).2
          = trace w ++ es ∧
        (Forall (λ e, isPublish e = false) es ∨
         ∃ senderBytes timestamp pre post,
           base58ToBytes sender = Ok senderBytes ∧
           es = pre ++
                PutSession (nextSession r) ::
                Publish (inboxTopic senderBytes)
                  (encodePayload (JEnvelope
                     (dm_ack cid mid (chatKey (store w)) sender timestamp))) ::
                post ∧
           Forall (λ e, isPublish e = false) pre ∧
           Forall (λ e, isPublish e = false) post)) as Hfull.
    { intros inner. destruct (Htail inner) as (es & Ht & [Hq|Hack]).
      - exists (es0 ++ es). rewrite Ht, Ht0, app_assoc. split; [done|].
        left. by apply Forall_app.
      - destruct Hack as (sb & ts & post & Hb & -> & Hpost).
        exists (es0 ++ PutSession (nextSession r) :: Publish (inboxTopic sb)
                  (encodePayload (JEnvelope
                     (dm_ack cid mid (chatKey (store w)) sender ts))) :: post).
        rewrite Ht, Ht0, app_assoc. split; [done|].
        right. by exists sb, ts, es0, post. }
    destruct (decodePayload plain) as [|e|i|g nm ms|] eqn:Hdec.
    1:{ exists es0. split; [done | by left]. }
    all: match goal with
         | |- context [handleInnerPayload _ _ ?inner _] =>
             destruct (Hfull inner) as (es & Ht & [Hq|Hack]);
             exists es; (split; [exact Ht|]);
             [by left|
              destruct Hack as (sb & ts & pre & post & Hb & -> & Hpre & Hpost);
              right;
              by exists session, w1, r, key, nonce, ciphertext, plain, sb, ts,
                        pre, post]
         end.
  - (* the failure paths *)
    intros chat session w1 r Hme Hin Hid Hens Hr Hfail notice.
    assert (List.find (λ item, String.eqb (chat_id item) cid) (chats (store w))
            ≠ None) as Hfound.
    { intros Hnone. apply find_none with (x := chat) in Hnone.
      - rewrite Hid, String.eqb_refl in Hnone. done.
      - by apply list_elem_of_In. }
    destruct (reportKeyMismatch_run w1 cid) as (w' & Hrun & Hs & Hi & Hm & Ht).
    exists w'.
    assert (handleEncryptedMessage cid mid (Some sender) n nonce64 ciphertext64 w
            = (Ok tt, w')) as Hhandle.
    { unfold handleEncryptedMessage. rewrite bind_run. cbn [getState].
      rewrite bool_decide_false by done.
      destruct (List.find _ (chats (store w))); [|done].
      rewrite bind_run, Hens, bind_run. unfold liftExc at 1. rewrite Hr.
      destruct Hfail as [->|(key & nonce & ct & -> & Hn & Hc & Hopen)];
        [done|].
      rewrite bind_run. unfold liftExc at 1. rewrite Hn.
      rewrite bind_run. unfold liftExc at 1. rewrite Hc.
      rewrite bind_run. unfold liftExc at 1. rewrite Hopen. done. }
    split; [done|]. split; [done|]. split; [done|]. split; [|done].
    intros Hex.
    destruct (ensureSession_existing w cid dm (Some sender) Hex) as [s Hs0].
    rewrite Hs0 in Hens. by injection Hens as _ ->.
Qed.

(** C10. An inbound [dm_message] whose [conversationId] is the id of no
    local chat is dropped before any ratchet work: [handleIncoming]
    returns and the whole world (store, database, subscriptions, transport
    log) is as before. *)
Theorem dm_message_unknown_chat_dropped
    (w : World) (payload : bytes) (cid mid : string) (sender : option string)
    (n : nat) (nonce ciphertext : string) (timestamp : Z) :
  decodePayload payload
    = JEnvelope (dm_message cid mid sender n nonce ciphertext timestamp) →
  (∀ c, c ∈ chats (store w) → chat_id c ≠ cid) →
  handleIncoming payload w = (Ok tt, w).
Proof.
  intros Hdec Hnone. unfold handleIncoming.
  rewrite bind_run. cbn [getState]. rewrite Hdec.
  destruct (chatKey (store w)) as [me|]; [|done].
  destruct (unlockedSecretKey (store w)); [|done].
  destruct (identity (store w)); [|done].
  destruct (truthy me); [|done].
  unfold handleEncryptedMessage. rewrite bind_run. cbn [getState].
  case_bool_decide; [done|].
  by rewrite (find_chat_none cid _ Hnone).
Qed.

(** C9. Acceptance idempotency: a [chat_request] from a peer with whom an
    accepted chat already exists makes the handler publish one
    [chat_accept] envelope to that peer's inbox topic and nothing else:
    the store (requests, chats, sessions, ...) and the database are
    unchanged and no other effect is logged. *)
Theorem chat_request_on_accepted_chat
    (w : World) (payload : bytes)
    (requestId sender recipient nonce ciphertext : string) (timestamp : Z)
    (me : string) (secretKey : bytes) (ident : IdentityRecord)
    (chat : ChatRecord) (senderBytes : bytes) :
  decodePayload payload
    = JEnvelope (chat_request requestId sender recipient nonce ciphertext
                              timestamp) →
  chatKey (store w) = Some me →
  truthy me = true →
  unlockedSecretKey (store w) = Some secretKey →
  identity (store w) = Some ident →
  chat ∈ chats (store w) →
  chat_id chat = conversationIdFromPubKeys me sender →
  accepted chat = true →
  base58ToBytes sender = Ok senderBytes →
  ∃ w',
    handleIncoming payload w = (Ok tt, w') ∧
    store w' = store w ∧
    idb w' = idb w ∧
    subscribedTopics w' = subscribedTopics w ∧
    trace w' = trace w ++
      [Publish (inboxTopic senderBytes)
         (encodePayload (JEnvelope
            (chat_accept requestId me sender
               (conversationIdFromPubKeys me sender)
               (clock (clockReads w)))))].
Proof.
  intros Hdec Hme Htruthy Hsk Hid Hin Hcid Hacc Hb58.
  unfold handleIncoming. rewrite bind_run. cbn [getState].
  rewrite Hdec, Hme, Hsk, Hid, Htruthy.
  unfold handleChatRequest.
  destruct (find_accepted_chat _ _ _ Hin Hcid Hacc) as [c ->].
  rewrite bind_run. unfold liftExc at 1. rewrite Hb58.
  eexists. split; [reflexivity|]. done.
Qed.

End InboundTheory.

(** ** Outbound messages *)

Section OutboundTheory.
Context `{Primitives} `{Environment}.
Variables cid me peer : string.

Hypothesis base64_roundtrip : ∀ b, base64ToBytes (bytesToBase64 b) = Ok b.
(** [nacl.secretbox] accepts a 24-byte nonce from [randomBytes] and a key
    that is an HMAC-SHA256 output. *)
Hypothesis secretbox_fits :
  ∀ msg i k d, ∃ c, secretbox msg (entropy i 24) (hmacSha256 k d) = Ok c.

Local Abbreviation canSend := (canSend cid me peer).
Local Abbreviation keeps := (keeps cid me peer).
Local Abbreviation okTask := (okTask cid me peer).
Local Abbreviation sendStep := (sendStep cid me peer).

Lemma orRandomId_run (x : option string) (w : World) :
  ∃ id w',
    orRandomId x w = (Ok id, w') ∧
    store w' = store w ∧ idb w' = idb w ∧ trace w' = trace w ∧
    clockReads w' = clockReads w ∧ byteDraws w' = byteDraws w ∧
    subscribedTopics w' = subscribedTopics w.
Proof.
  unfold orRandomId. destruct x as [v|]; [destruct (truthy v)|];
    eexists _, _; (split; [reflexivity|]); done.
Qed.

Lemma touchChat_run chatId (c : ChatRecord) (w : World) :
  ∃ c' k,
    touchChat chatId c w =
      (Ok c', mkWorld (store w) (idb w) (subscribedTopics w) (trace w)
                      (clockReads w + k) (idDraws w) (byteDraws w)) ∧
    sameChat c c'.
Proof.
  destruct w as [st db sub tr cr ir br]. unfold touchChat.
  destruct (String.eqb (chat_id c) chatId).
  - eexists _, 1. rewrite bind_run. cbn.
    split; [by rewrite Nat.add_1_r | by repeat split].
  - exists c, 0. cbn. rewrite Nat.add_0_r. by repeat split.
Qed.

Lemma mapM_touchChat chatId (l : list ChatRecord) : ∀ w,
  ∃ l' k,
    mapM (touchChat chatId) l w =
      (Ok l', mkWorld (store w) (idb w) (subscribedTopics w) (trace w)
                      (clockReads w + k) (idDraws w) (byteDraws w)) ∧
    Forall2 sameChat l l'.
Proof.
  induction l as [|c l IH]; intros w; cbn [mapM].
  - exists [], 0. destruct w. cbn. rewrite Nat.add_0_r. by split.
  - rewrite bind_run.
    destruct (touchChat_run chatId c w) as (c' & k1 & -> & Hc).
    rewrite bind_run.
    match goal with
    | |- context [mapM (touchChat chatId) l ?w1] =>
        destruct (IH w1) as (l' & k2 & -> & Hall)
    end.
    exists (c' :: l'), (k1 + k2). cbn. rewrite Nat.add_assoc.
    split; [done | by constructor].
Qed.

Lemma find_sameChat chatId (l l' : list ChatRecord) c :
  Forall2 sameChat l l' →
  List.find (λ item, String.eqb (chat_id item) chatId) l = Some c →
  ∃ c', List.find (λ item, String.eqb (chat_id item) chatId) l' = Some c' ∧
        sameChat c c'.
Proof.
  induction 1 as [|x x' l l' Hx _ IH]; simpl; [done|].
  destruct Hx as (Hid & Hk & Hp & Ha). rewrite Hid.
  destruct (String.eqb (chat_id x) chatId).
  - intros [= <-]. exists x'. by repeat split.
  - exact IH.
Qed.

(** *** Sends side by side

    Every step of a send keeps the engine able to send and publishes only
    envelopes that carry the index of the key they are sealed under,
    whatever other sends have done to the world in between. *)

Lemma okTask_Segment (run : M Task) : okTask (Segment run) = keeps okTask run.
Proof. reflexivity. Qed.

Lemma keeps_ret {A} (Q : A → Prop) (a : A) : Q a → keeps Q (mret a).
Proof. intros HQ w Hw. exists []. rewrite app_nil_r. by repeat split. Qed.

Lemma keeps_bind {A B} (Q : A → Prop) (R : B → Prop) (m : M A) (f : A → M B) :
  keeps Q m → (∀ a, Q a → keeps R (f a)) → keeps R (m ≫= f).
Proof.
  intros Hm Hf w Hw. unfold mbind, M_bind.
  destruct (Hm w Hw) as (es1 & Ht1 & Hs1 & Hc1 & HQ).
  destruct (m w) as [[a|e] w1]; simpl in *.
  - destruct (Hf a HQ w1 Hc1) as (es2 & Ht2 & Hs2 & Hc2 & HR).
    exists (es1 ++ es2). rewrite Ht2, Ht1, app_assoc.
    split; [done|]. split; [by apply Forall_app|]. by split.
  - exists es1. by repeat split.
Qed.

(** Steps that leave the store and the log alone. *)
Lemma keeps_silent {A} (Q : A → Prop) (m : M A) :
  (∀ w, store (m w).2 = store w ∧ trace (m w).2 = trace w ∧
        match (m w).1 with Ok a => Q a | Throw _ => True end) →
  keeps Q m.
Proof.
  intros Hm w Hw. destruct (Hm w) as (Hst & Htr & HQ).
  exists []. rewrite app_nil_r. split; [done|]. split; [done|].
  split; [|done]. destruct Hw as [j Hj]. exists j. by rewrite Hst.
Qed.

Lemma keeps_getState :
  keeps (λ st, ∃ j, readyToSend cid me peer j st) getState.
Proof. intros w Hw. exists []. rewrite app_nil_r. by repeat split. Qed.

Lemma keeps_liftExc {A} (x : exc A) : keeps (λ a, x = Ok a) (liftExc x).
Proof. apply keeps_silent. intros w. by destruct x. Qed.

Lemma keeps_now : keeps (λ _, True) now.
Proof. by apply keeps_silent. Qed.

Lemma keeps_randomId : keeps (λ _, True) randomId.
Proof. by apply keeps_silent. Qed.

Lemma keeps_randomBytes len : keeps (λ _, True) (randomBytes len).
Proof. by apply keeps_silent. Qed.

Lemma keeps_orRandomId x : keeps (λ _, True) (orRandomId x).
Proof.
  apply keeps_silent. intros w. unfold orRandomId.
  destruct x as [v|]; [destruct (truthy v)|]; done.
Qed.

(** A database write is logged, and is no publication. *)
Lemma keeps_putIdb f e :
  isPublish e = false → keeps (λ _, True) (putIdb f e).
Proof.
  intros He w Hw. exists [e]. split; [done|]. split; [|done].
  constructor; [|done]. by destruct e.
Qed.

Lemma keeps_publish topic payload :
  sealedUnderItsCounter cid me (Publish topic payload) →
  keeps (λ _, True) (publishPayload topic payload).
Proof.
  intros Hp w Hw. exists [Publish topic payload]. split; [done|].
  split; [by constructor | done].
Qed.

Lemma keeps_storeSession (s : SessionRecord) (ck : bytes) :
  base64ToBytes (sendCK s) = Ok ck →
  keeps (λ _, True) (setState (set_sessions (λ ss, <[cid := s]> ss))).
Proof.
  intros Hck w (j & Hme & Htr & Hsk & Hchat & _).
  exists []. rewrite app_nil_r. split; [done|]. split; [done|].
  split; [|done]. exists (sendN s). unfold readyToSend. cbn.
  split; [done|]. split; [done|]. split; [done|]. split; [done|].
  exists s, ck. by rewrite lookup_insert_eq.
Qed.

Lemma keeps_setMessages f :
  keeps (λ _, True) (setState (set_messages f)).
Proof. intros w Hw. exists []. rewrite app_nil_r. by repeat split. Qed.

Lemma keeps_touchChats chatId :
  keeps (λ _, True) (setChatsM (touchChat chatId)).
Proof.
  intros w (j & Hme & Htr & Hsk & (chat & Hfind & Hacc & Hkind & Hid & Hpeer)
            & Hsess).
  unfold setChatsM. rewrite bind_run. cbn [getState]. rewrite bind_run.
  destruct (mapM_touchChat chatId (chats (store w)) w)
    as (l' & k' & -> & Hall).
  destruct (find_sameChat cid _ _ chat Hall Hfind)
    as (chat' & Hfind' & Hid' & Hkind' & Hparts' & Hacc').
  exists []. rewrite app_nil_r. split; [done|]. split; [done|].
  split; [|done]. exists j. unfold readyToSend. cbn.
  split; [done|]. split; [done|]. split; [done|]. split; [|done].
  exists chat'. rewrite Hfind', Hacc', Hkind', Hid', Hparts'. done.
Qed.

Lemma okM_returnTo {A} (k : A → M Task) (a : A) :
  keeps okTask (k a) → keeps okTask (returnTo k a).
Proof. intros Hk. by apply keeps_ret. Qed.

Lemma okM_awaitIO {A} (Q : A → Prop) (m : M A) (k : A → M Task) :
  keeps Q m → (∀ a, Q a → keeps okTask (k a)) → keeps okTask (awaitIO m k).
Proof.
  intros Hm Hk. apply keeps_ret. rewrite okTask_Segment.
  apply (keeps_bind Q); [done|]. intros a Ha. apply keeps_ret. by apply Hk.
Qed.

Lemma okM_awaitPure {A} (x : exc A) (k : A → M Task) :
  (∀ a, x = Ok a → keeps okTask (k a)) → keeps okTask (awaitPure x k).
Proof.
  intros Hk. apply (keeps_bind (λ a, x = Ok a)); [apply keeps_liftExc|].
  intros a Ha. apply keeps_ret. by apply Hk.
Qed.

(** The session a send works with is the stored one as the call found it;
    [advanceSend] gives the key at its [sendN] and the session to store. *)
Lemma okM_getSendKey kind p (k : bytes * SessionRecord → M Task) :
  (∀ s key s' ck,
     advanceSend s = Ok (key, s') →
     Nat.max 0 (sendN s' - 1) = sendN s →
     base64ToBytes (sendCK s') = Ok ck →
     keeps okTask (k (key, s'))) →
  keeps okTask (Async.getSendKey cid kind p k).
Proof.
  intros Hk. unfold Async.getSendKey, Async.ensureSession.
  apply (keeps_bind _ _ _ _ keeps_getState).
  intros st (j & _ & _ & _ & _ & (s & ck & -> & _ & Hck)).
  apply okM_returnTo, okM_awaitPure. intros [key s'] Hadv.
  pose proof Hadv as Hadv'. unfold advanceSend in Hadv'. rewrite Hck in Hadv'.
  injection Hadv' as <- <-.
  eapply Hk; [exact Hadv | cbn; lia | cbn; apply base64_roundtrip].
Qed.

Lemma okM_sendEventMessage chat ev mid (k : unit → M Task) :
  chat_id chat = cid →
  keeps okTask (k tt) →
  keeps okTask (Async.sendEventMessage chat ev mid k).
Proof.
  intros Hcid Hk. unfold Async.sendEventMessage.
  apply (keeps_bind _ _ _ _ keeps_getState).
  intros st (j & Hme & _).
  destruct (findPeer chat st) as [p|]; [|by apply okM_returnTo].
  destruct (truthy p); [|by apply okM_returnTo].
  rewrite Hcid. apply okM_getSendKey. intros s key s' ck Hadv Hn Hck.
  cbn [fst snd].
  apply (keeps_bind _ _ _ _ (keeps_randomBytes 24)). intros nonce _.
  apply (keeps_bind _ _ _ _ (keeps_liftExc _)). intros c Hc.
  apply (keeps_bind _ _ _ _ (keeps_orRandomId mid)). intros id _.
  apply (keeps_bind _ _ _ _ keeps_now). intros ts _.
  apply (okM_awaitIO (λ _, True)).
  { apply keeps_publish. rewrite Hme.
    by exists s, key, s', id, nonce, ev, c, ts. }
  intros _ _. apply (okM_awaitIO (λ _, True)).
  { by apply keeps_putIdb. }
  intros _ _. apply (keeps_bind _ _ _ _ (keeps_storeSession s' ck Hck)).
  intros _ _. by apply okM_returnTo.
Qed.

Lemma okM_sendTyping isTyping (k : unit → M Task) :
  keeps okTask (k tt) →
  keeps okTask (Async.sendTyping cid isTyping k).
Proof.
  intros Hk. unfold Async.sendTyping.
  apply (keeps_bind _ _ _ _ keeps_getState).
  intros st (j & _ & _ & _ & (chat & -> & _ & -> & Hid & _) & _).
  apply okM_sendEventMessage; [done|]. by apply okM_returnTo.
Qed.

Lemma okM_sendMessage body replyTo (k : unit → M Task) :
  keeps okTask (k tt) →
  keeps okTask (Async.sendMessage cid body replyTo k).
Proof.
  intros Hk. unfold Async.sendMessage.
  apply (keeps_bind _ _ _ _ keeps_getState).
  intros st (j & Hme & Htr & [sk Hsk]
             & (chat & -> & -> & -> & Hid & Hpeer & Htp) & _).
  rewrite Hsk, Hme, Htr. cbn [andb].
  unfold findPeer. rewrite Hme, Hpeer, Htp.
  apply okM_getSendKey. intros s key s' ck Hadv Hn Hck. cbn [fst snd].
  apply (keeps_bind _ _ _ _ (keeps_randomBytes 24)). intros nonce _.
  apply (keeps_bind _ _ _ _ (keeps_liftExc _)). intros c Hc.
  apply (keeps_bind _ _ _ _ keeps_randomId). intros id _.
  apply (keeps_bind _ _ _ _ keeps_now). intros ts _.
  apply (okM_awaitIO (λ _, True)).
  { apply keeps_publish.
    by exists s, key, s', id, nonce, (inner_text body replyTo), c, ts. }
  intros _ _. apply (okM_awaitIO (λ _, True)).
  { by apply keeps_putIdb. }
  intros _ _. apply (keeps_bind _ _ _ _ keeps_now). intros sentAt _.
  apply (okM_awaitIO (λ _, True)).
  { by apply keeps_putIdb. }
  intros _ _. apply (keeps_bind _ _ _ _ (keeps_setMessages _)). intros _ _.
  apply (keeps_bind _ _ _ _ (keeps_touchChats cid)). intros _ _.
  apply (keeps_bind _ _ _ _ (keeps_storeSession s' ck Hck)). intros _ _.
  by apply okM_returnTo.
Qed.

Lemma okTask_outbound action : okTask (outboundTask cid action).
Proof.
  unfold outboundTask. rewrite okTask_Segment.
  destruct action; cbn [runOutbound].
  - apply okM_sendMessage. by apply keeps_ret.
  - apply okM_sendTyping. by apply keeps_ret.
Qed.

Lemma runSchedule_keeps (schedule : list nat) :
  ∀ (pool : list Task) (w : World),
    canSend w → Forall okTask pool →
    ∃ es,
      trace (runSchedule schedule pool w).2 = trace w ++ es ∧
      Forall (sealedUnderItsCounter cid me) es ∧
      canSend (runSchedule schedule pool w).2 ∧
      Forall okTask (runSchedule schedule pool w).1.
Proof.
  induction schedule as [|i rest IH]; intros pool w Hw Hpool;
    cbn [runSchedule].
  - exists []. rewrite app_nil_r. by repeat split.
  - destruct (pool !! i) as [[|run]|] eqn:Hi; [by apply IH| |by apply IH].
    pose proof (Forall_lookup_1 _ _ _ _ Hpool Hi) as Hrun.
    rewrite okTask_Segment in Hrun.
    destruct (Hrun w Hw) as (es1 & Ht1 & Hs1 & Hc1 & Hnext).
    destruct (run w) as [[t'|e] w1]; cbn [fst snd] in *.
    + destruct (IH (<[i := t']> pool) w1 Hc1)
        as (es2 & Ht2 & Hs2 & Hc2 & Hp2).
      { by apply Forall_insert. }
      exists (es1 ++ es2). rewrite Ht2, Ht1, app_assoc.
      split; [done|]. split; [by apply Forall_app|]. by split.
    + destruct (IH (<[i := Finished]> pool) w1 Hc1)
        as (es2 & Ht2 & Hs2 & Hc2 & Hp2).
      { by apply Forall_insert. }
      exists (es1 ++ es2). rewrite Ht2, Ht1, app_assoc.
      split; [done|]. split; [by apply Forall_app|]. by split.
Qed.

(** *** Sends one after the other *)

Lemma runTask_Segment (run : M Task) (w : World) :
  runTask (Segment run) w =
    match run w with
    | (Ok t', w') => runTask t' w'
    | (Throw e, w') => (Throw e, w')
    end.
Proof. reflexivity. Qed.

Lemma getSendKey_run (w : World) chatId kind p s ck
    (k : bytes * SessionRecord → M Task) :
  sessions (store w) !! chatId = Some s →
  base64ToBytes (sendCK s) = Ok ck →
  runTask (Segment (Async.getSendKey chatId kind p k)) w =
    runTask
      (Segment (k (hmacSha256 ck MSG_LABEL,
                   withSend s (bytesToBase64 (hmacSha256 ck CK_LABEL))
                            (sendN s + 1)))) w.
Proof.
  intros Hs Hck. rewrite runTask_Segment.
  unfold Async.getSendKey, Async.ensureSession. rewrite bind_run.
  cbn [getState]. rewrite Hs. unfold returnTo. cbn [mret M_ret].
  rewrite runTask_Segment. unfold awaitPure. rewrite bind_run.
  unfold liftExc, advanceSend. rewrite Hck. cbn [mbind exc_bind mret M_ret].
  reflexivity.
Qed.

(** Run the next operation of a handler on an explicit world. *)
Ltac world_simpl :=
  cbn [getState setState getIdb putIdb emit now randomId randomBytes
       publishPayload setSession setMessage mret M_ret
       store idb subscribedTopics trace clockReads idDraws byteDraws fst snd
       set_requests set_chats set_messages set_reactions set_attachments
       set_sessions set_typing set_errors
       identity unlockedSecretKey chatKey state_inboxTopic requests chats
       messages reactions attachments sessions typing activeChatId wakuReady
       errors
       idb_identity idb_requests idb_requestStates idb_chats idb_sessions
       idb_messages idb_reactions idb_attachments].
Ltac run_step := rewrite bind_run; world_simpl.

Lemma sendEventMessage_run (w : World) chat ev mid p s ck :
  chatKey (store w) = Some me →
  findPeer chat (store w) = Some p →
  truthy p = true →
  sessions (store w) !! chat_id chat = Some s →
  base64ToBytes (sendCK s) = Ok ck →
  let s' := withSend s (bytesToBase64 (hmacSha256 ck CK_LABEL)) (sendN s + 1) in
  ∃ w' id nonce64 c64 ts,
    (∀ k, runTask (Segment (Async.sendEventMessage chat ev mid k)) w
          = runTask (Segment (k tt)) w') ∧
    store w' = set_sessions (λ ss, <[chat_id chat := s']> ss) (store w) ∧
    trace w' = trace w ++
      [Publish (dmTopic (chat_id chat))
         (encodePayload (JEnvelope
            (dm_message (chat_id chat) id (Some me)
               (Nat.max 0 (sendN s' - 1)) nonce64 c64 ts)));
       PutSession s'].
Proof.
  intros Hme Hpeer Htp Hs Hck s'.
  destruct w as [st db sub tr cr ir br]; cbn [store trace] in *.
  destruct (secretbox_fits (encodePayload (JInner ev)) br ck MSG_LABEL)
    as [c Hc].
  pose (w1 := mkWorld st db sub tr cr ir (S br)).
  destruct (orRandomId_run mid w1)
    as (id & w2 & Hid & Hst & Hidb & Htr & Hcr & Hbr & Hsub).
  destruct w2 as [st2 db2 sub2 tr2 c2 i2 b2].
  cbn in Hst, Hidb, Htr, Hcr, Hbr, Hsub. subst.
  eexists _, id, _, _, _. split.
  { intros k. rewrite runTask_Segment. unfold Async.sendEventMessage.
    run_step. rewrite Hpeer, Htp.
    rewrite <- runTask_Segment, (getSendKey_run _ _ _ _ s ck); [|done|done].
    rewrite runTask_Segment. cbn [fst snd].
    run_step. rewrite bind_run; unfold liftExc at 1; rewrite Hc.
    rewrite bind_run. fold w1. rewrite Hid.
    run_step. unfold awaitIO. world_simpl.
    rewrite runTask_Segment. run_step. rewrite runTask_Segment. world_simpl.
    rewrite runTask_Segment. run_step. rewrite runTask_Segment.
    run_step. unfold returnTo. world_simpl. rewrite Hme. reflexivity. }
  world_simpl. split; [done|]. by rewrite <- app_assoc.
Qed.

Lemma sendTyping_step j isTyping w :
  readyToSend cid me peer j (store w) →
  sendStep j (Async.sendTyping cid isTyping) w.
Proof.
  intros (Hme & Htruthy & Hsk
          & (chat & Hfind & Hacc & Hkind & Hid & Hpeer & Htp)
          & (s & ck & Hs & HN & Hck)).
  assert (findPeer chat (store w) = Some peer) as Hfp
    by (unfold findPeer; by rewrite Hme).
  rewrite <- Hid in Hs.
  destruct (sendEventMessage_run w chat (inner_typing isTyping) None peer
              s ck Hme Hfp Htp Hs Hck)
    as (w' & id & n64 & c64 & ts & Hrun & Hst & Htr).
  set (s' := withSend s (bytesToBase64 (hmacSha256 ck CK_LABEL)) (sendN s + 1))
    in *.
  exists w',
    (dm_message cid id (Some me) (Nat.max 0 (sendN s' - 1)) n64 c64 ts), s',
    [Publish (dmTopic cid) (encodePayload (JEnvelope
       (dm_message cid id (Some me) (Nat.max 0 (sendN s' - 1)) n64 c64 ts)));
     PutSession s'].
  split.
  { intros k. rewrite runTask_Segment. unfold Async.sendTyping.
    rewrite bind_run. cbn [getState]. rewrite Hfind, Hkind.
    rewrite <- runTask_Segment, Hrun. rewrite runTask_Segment.
    unfold returnTo. reflexivity. }
  split.
  { unfold readyToSend. rewrite Hst. cbn.
    split; [done|]. split; [done|]. split; [done|]. split.
    - exists chat. by rewrite Hfind.
    - eexists _, (hmacSha256 ck CK_LABEL). rewrite <- Hid, lookup_insert_eq.
      split; [done|]. cbn. split; [lia | apply base64_roundtrip]. }
  split; [by rewrite Htr, Hid|]. split; [done|].
  split; [by eexists _, _, _, _|].
  split; [cbn; lia|]. by rewrite Hst, <- Hid; cbn; rewrite lookup_insert_eq.
Qed.

Lemma sendMessage_step j body replyTo w :
  readyToSend cid me peer j (store w) →
  sendStep j (Async.sendMessage cid body replyTo) w.
Proof.
  intros (Hme & Htruthy & [sk Hsk]
          & (chat & Hfind & Hacc & Hkind & Hid & Hpeer & Htp)
          & (s & ck & Hs & HN & Hck)).
  destruct w as [st db sub tr cr ir br]; cbn [store] in *.
  destruct (secretbox_fits (encodePayload (JInner (inner_text body replyTo)))
              br ck MSG_LABEL) as [c Hc].
  set (s' := withSend s (bytesToBase64 (hmacSha256 ck CK_LABEL)) (sendN s + 1)).
  set (message :=
    mkMessage (uuid ir) cid kind_text me None (Some body) (clock (S cr))
      (Some msg_sent) (Some (Nat.max 0 (sendN s' - 1))) replyTo
      None None None None None).
  (* the world in which the chats are touched *)
  pose (w5 := mkWorld
    (set_messages (λ ms, updateMessageList ms cid message) st)
    (mkIdb (idb_identity db) (idb_requests db) (idb_requestStates db)
       (idb_chats db) (<[conversationId s' := s']> (idb_sessions db))
       (<[uuid ir := message]> (idb_messages db))
       (idb_reactions db) (idb_attachments db))
    sub
    (((tr ++ [Publish (dmTopic cid) (encodePayload (JEnvelope
         (dm_message cid (uuid ir) (Some me) (Nat.max 0 (sendN s' - 1))
            (bytesToBase64 (entropy br 24)) (bytesToBase64 c) (clock cr))))])
        ++ [PutSession s'])
       ++ [PutMessage message])
    (S (S cr)) (S ir) (S br)).
  destruct (mapM_touchChat cid (chats st) w5) as (l2 & k2 & Hmap & Hall2).
  destruct (find_sameChat cid _ _ chat Hall2 Hfind)
    as (chat2 & Hfind2 & Hid2 & Hkind2 & Hparts2 & Hacc2).
  eexists _, _, s', _. split.
  { intros k. rewrite runTask_Segment. unfold Async.sendMessage.
    run_step.
    rewrite Hfind, Hsk, Hme, Hacc, Htruthy. cbn [andb]. rewrite Hkind.
    unfold findPeer. world_simpl. rewrite Hme, Hpeer, Htp.
    rewrite <- runTask_Segment, (getSendKey_run _ _ _ _ s ck); [|done|done].
    rewrite runTask_Segment. cbn [fst snd]. fold s'.
    run_step.
    rewrite bind_run; unfold liftExc at 1; rewrite Hc.
    do 2 run_step.
    unfold awaitIO. world_simpl.
    rewrite runTask_Segment. run_step. rewrite runTask_Segment. world_simpl.
    rewrite runTask_Segment. run_step. rewrite runTask_Segment.
    run_step. rewrite runTask_Segment. run_step. rewrite runTask_Segment.
    run_step. rewrite bind_run. unfold setChatsM. run_step. rewrite bind_run.
    match goal with
    | |- context [mapM (touchChat cid) (chats st) ?w1] => change w1 with w5
    end.
    rewrite Hmap. world_simpl. subst w5. world_simpl.
    run_step. unfold returnTo. world_simpl. reflexivity. }
  world_simpl.
  split.
  { unfold readyToSend. world_simpl.
    split; [done|]. split; [done|]. split; [by eexists|]. split.
    - exists chat2. rewrite Hfind2, Hacc2, Hkind2, Hid2, Hparts2. done.
    - eexists _, (hmacSha256 ck CK_LABEL). rewrite lookup_insert_eq.
      split; [done|]. cbn. split; [lia | apply base64_roundtrip]. }
  split; [by rewrite <- !app_assoc|].
  split; [done|]. split; [by eexists _, _, _, _|]. split; [cbn; lia|].
  by rewrite lookup_insert_eq.
Qed.

Lemma runOutbound_step j action w :
  readyToSend cid me peer j (store w) →
  sendStep j (runOutbound cid action) w.
Proof.
  destruct action; [apply sendMessage_step | apply sendTyping_step].
Qed.


End OutboundTheory.

(** ** The engine and the passphrase envelope on the concrete instance *)

Lemma demoWire_base64_roundtrip (b : bytes) :
  base64ToBytes (Primitives := demoWirePrimitives)
    (bytesToBase64 (Primitives := demoWirePrimitives) b) = Ok b.
Proof. simpl. by rewrite list_byte_of_string_of_list_byte. Qed.

Lemma demoWire_secretbox_fits (msg : bytes) (i : nat) (k d : bytes) :
  ∃ c, secretbox (Primitives := demoWirePrimitives) msg
         (entropy (Environment := demoEnvironment) i 24)
         (hmacSha256 (Primitives := demoWirePrimitives) k d) = Ok c.
Proof. by eexists. Qed.

Lemma demo_aesGcm_opens (subtle : bool) (key iv data : bytes) :
  aesGcmDecrypt (PassphrasePrimitives := demoPassphrasePrimitives subtle) key iv
    (aesGcmEncrypt (PassphrasePrimitives := demoPassphrasePrimitives subtle)
       key iv data) = Ok data.
Proof.
  simpl. replace (demoOpen key (demoSeal key data)) with (Some data); [done|].
  induction key as [|b key IH]; simpl; [done|].
  by rewrite decide_True.
Qed.

Lemma demoOpen_key (key' key data data' : bytes) :
  demoOpen key' (demoSeal key data) = Some data' → key' = key.
Proof.
  revert key. induction key' as [|b' key' IH]; intros [|b key]; simpl;
    try done.
  case_decide; [|done]. intros Hopen. f_equal; [done|]. by apply IH.
Qed.

Lemma demo_aesGcm_rejects (subtle : bool) (key key' iv data : bytes) :
  key' ≠ key →
  ∃ e, aesGcmDecrypt (PassphrasePrimitives := demoPassphrasePrimitives subtle)
         key' iv
         (aesGcmEncrypt (PassphrasePrimitives := demoPassphrasePrimitives subtle)
            key iv data) = Throw e.
Proof.
  intros Hne. simpl.
  destruct (demoOpen key' (demoSeal key data)) as [d|] eqn:Hopen;
    [|by eexists].
  by apply demoOpen_key in Hopen.
Qed.

Lemma demoWire_ready :
  readyToSend (H := demoWirePrimitives) "me:peer" "me" "peer" 0
    (store (demoWorld (demoSession [x01] [x02]))).
Proof.
  split; [reflexivity|]. split; [reflexivity|]. split; [by eexists|]. split.
  - exists demoChat. by repeat split.
  - eexists _, _. split; [reflexivity|]. by split.
Qed.

Lemma dm_message_unknown_chat_dropped_witness :
  handleIncoming
    (H := demoPrimitivesWith
            (JEnvelope (dm_message "elsewhere" "m1" (Some "peer") 0 "" "" 5)))
    (H0 := demoEnvironment) [] (demoWorld (demoSession [x01] [x02]))
  = (Ok tt, demoWorld (demoSession [x01] [x02])).
Proof.
  apply (@dm_message_unknown_chat_dropped
           (demoPrimitivesWith
              (JEnvelope (dm_message "elsewhere" "m1" (Some "peer") 0 "" "" 5)))
           demoEnvironment (demoWorld (demoSession [x01] [x02])) []
           "elsewhere" "m1" (Some "peer") 0 "" "" 5).
  - reflexivity.
  - intros c Hc. apply list_elem_of_singleton in Hc. by subst.
Defined.

Lemma chat_request_on_accepted_chat_witness :
  ∃ w',
    handleIncoming
      (H := demoPrimitivesWith
              (JEnvelope (chat_request "r1" "peer" "me" "" "" 9)))
      (H0 := demoEnvironment) [] (demoWorld (demoSession [x01] [x02]))
    = (Ok tt, w') ∧
    store w' = store (demoWorld (demoSession [x01] [x02])) ∧
    idb w' = idb (demoWorld (demoSession [x01] [x02])) ∧
    subscribedTopics w' = ∅ ∧
    trace w' =
      [Publish "/app/1/inbox/peer"
         (encodePayload
            (H := demoPrimitivesWith
                    (JEnvelope (chat_request "r1" "peer" "me" "" "" 9)))
            (JEnvelope (chat_accept "r1" "me" "peer" "me:peer" 1000)))].
Proof.
  apply (@chat_request_on_accepted_chat
           (demoPrimitivesWith
              (JEnvelope (chat_request "r1" "peer" "me" "" "" 9)))
           demoEnvironment (demoWorld (demoSession [x01] [x02])) []
           "r1" "peer" "me" "" "" 9 "me" [x07]
           (mkIdentity "pk" "sealed" "iv" "salt" 0) demoChat
           (list_byte_of_string "peer")).
  - reflexivity.
  - reflexivity.
  - reflexivity.
  - reflexivity.
  - reflexivity.
  - apply list_elem_of_singleton. reflexivity.
  - reflexivity.
  - reflexivity.
  - reflexivity.
Defined.

(** A session that has consumed the counters 0..2 and caches nothing: an
    envelope for counter 1 finds no key. *)
Lemma receive_failure_atomic_witness :
  ∃ w',
    handleEncryptedMessage (H := demoPrimitives) (H0 := demoEnvironment)
      "me:peer" "m1" (Some "peer") 1 "" ""
      (demoWorld (mkSession "me:peer" dm "peer" None "s" "r" 0 3 ∅))
    = (Ok tt, w') ∧
    sessions (store w') = {[ "me:peer" := mkSession "me:peer" dm "peer" None "s" "r" 0 3 ∅ ]} ∧
    idb_sessions (idb w') = ∅ ∧
    (∃ notice,
       messages (store w') !! "me:peer" = Some [notice] ∧
       body notice = Some "Key mismatch. Rekey to continue." ∧
       keyMismatch notice = Some true) ∧
    Forall (λ e, isPublish e = false) (trace w').
Proof.
  destruct (proj2 (@receive_failure_atomic demoPrimitives demoEnvironment
                     (demoWorld (mkSession "me:peer" dm "peer" None "s" "r" 0 3 ∅))
                     "me:peer" "m1" "peer" 1 "" "")
              demoChat (mkSession "me:peer" dm "peer" None "s" "r" 0 3 ∅)
              (demoWorld (mkSession "me:peer" dm "peer" None "s" "r" 0 3 ∅))
              (mkReceive None (mkSession "me:peer" dm "peer" None "s" "r" 0 3 ∅)
                         false))
    as (w' & Hrun & Hs & Hi & _ & Hm & Hk & Ht).
  - discriminate.
  - apply list_elem_of_singleton. reflexivity.
  - reflexivity.
  - reflexivity.
  - reflexivity.
  - left. reflexivity.
  - exists w'. split; [exact Hrun|]. split; [exact Hs|]. split; [exact Hi|].
    split.
    + eexists. rewrite Hm. split; [reflexivity|]. split; reflexivity.
    + rewrite Ht. repeat constructor.
Defined.





(** The instance of the example above does tell passwords apart: already
    after a hundred rounds the keys derived from ["a"] and ["b"] differ. *)
Lemma demo_keys_differ :
  pbkdf2 (H0 := demoPassphrasePrimitives false)
    (stringToBytes (Primitives := demoPrimitives) "a") [x10] 100 32
  ≠ pbkdf2 (H0 := demoPassphrasePrimitives false)
      (stringToBytes (Primitives := demoPrimitives) "b") [x10] 100 32.
Proof. vm_compute. discriminate. Qed.

(** * Further properties of the code *)

(** ** More on the ratchet *)

Section RatchetMore.
Context `{Primitives}.

Local Instance key_le_total : Total key_le.
Proof. intros a b. unfold key_le. lia. Qed.
Local Instance key_le_trans : Transitive key_le.
Proof. intros a b c. unfold key_le. lia. Qed.

Lemma trimSkipped_lookup (m : gmap nat string) (mx i : nat) (v : string) :
  trimSkipped m mx !! i = Some v → m !! i = Some v.
Proof.
  unfold trimSkipped. destruct (length (map_to_list m) <=? mx); [done|].
  intros Hi. apply elem_of_list_to_map_2 in Hi.
  apply elem_of_map_to_list.
  rewrite <- (merge_sort_Permutation key_le (map_to_list m)).
  by apply (subseteq_drop _ _ _ Hi).
Qed.

Lemma trimSkipped_size (m : gmap nat string) (mx : nat) :
  size (trimSkipped m mx) = Nat.min (size m) mx.
Proof.
  unfold trimSkipped. rewrite length_map_to_list.
  destruct (Nat.leb_spec (size m) mx) as [Hle|Hgt]; [lia|].
  rewrite map_size_list_to_map.
  - rewrite length_drop, merge_sort_Permutation, length_map_to_list. lia.
  - rewrite fmap_drop.
    apply (sublist_NoDup _ ((merge_sort key_le (map_to_list m)).*1));
      [|apply sublist_drop].
    rewrite merge_sort_Permutation. apply NoDup_fst_map_to_list.
Qed.

(** X1. [trimSkipped] returns the map itself when it has at most
    [maxSkipped] entries; otherwise it keeps exactly [maxSkipped] of them,
    with their values, and every index it drops is below every index it
    keeps. *)
Theorem trimSkipped_keeps_largest (m : gmap nat string) (mx : nat) :
  (size m ≤ mx → trimSkipped m mx = m) ∧
  trimSkipped m mx ⊆ m ∧
  size (trimSkipped m mx) = Nat.min (size m) mx ∧
  ∀ i j, is_Some (trimSkipped m mx !! i) → is_Some (m !! j) →
         trimSkipped m mx !! j = None → j < i.
Proof.
  split; [apply trimSkipped_small|].
  split.
  { apply map_subseteq_spec. intros i v. apply trimSkipped_lookup. }
  split; [apply trimSkipped_size|].
  unfold trimSkipped. rewrite length_map_to_list.
  destruct (Nat.leb_spec (size m) mx) as [Hle|Hgt].
  { intros i j _ [v Hv] Hn. congruence. }
  set (sorted := merge_sort key_le (map_to_list m)).
  assert (sorted ≡ₚ map_to_list m) as Hperm by apply merge_sort_Permutation.
  assert (NoDup sorted.*1) as Hnd.
  { rewrite Hperm. apply NoDup_fst_map_to_list. }
  assert (StronglySorted key_le sorted) as Hss
    by (apply StronglySorted_merge_sort; apply _).
  rewrite <- (take_drop (length sorted - mx) sorted) in Hnd, Hss.
  set (kept := drop (length sorted - mx) sorted) in *.
  set (gone := take (length sorted - mx) sorted) in *.
  rewrite fmap_app in Hnd. apply NoDup_app in Hnd as (_ & Hdisj & Hndk).
  intros i j [v Hi] [u Hj] Hnone.
  apply elem_of_list_to_map_2 in Hi.
  apply not_elem_of_list_to_map in Hnone.
  assert ((j, u) ∈ gone) as Hgone.
  { apply elem_of_map_to_list in Hj. rewrite <- Hperm in Hj.
    rewrite <- (take_drop (length sorted - mx) sorted) in Hj.
    apply elem_of_app in Hj as [?|Hk]; [done|].
    exfalso. apply Hnone. apply list_elem_of_fmap. by exists (j, u). }
  pose proof (StronglySorted_app_1_elem_of _ _ _ _ _ Hss Hgone Hi) as Hle.
  unfold key_le in Hle. simpl in Hle.
  destruct (decide (j = i)) as [->|]; [|lia].
  exfalso. apply (Hdisj i).
  - apply list_elem_of_fmap. by exists (i, u).
  - apply list_elem_of_fmap. by exists (i, v).
Qed.

Lemma chainKey_shift (ck : bytes) (c : nat) :
  chainKey (hmacSha256 ck CK_LABEL) c = chainKey ck (S c).
Proof. unfold chainKey. by rewrite Nat.iter_succ_r. Qed.

Lemma recvLoop_ck n mx count : ∀ index st,
  loop_ck (recvLoop n mx count index st) = chainKey (loop_ck st) count.
Proof.
  induction count as [|c IH]; intros index st; [done|].
  cbn [recvLoop]. rewrite IH, <- chainKey_shift. f_equal.
  unfold recvBody. by repeat case_match.
Qed.

Lemma recvLoop_derived n mx c index st :
  index + c = n →
  loop_derived (recvLoop n mx (c + 1) index st) = Some (msgKey (loop_ck st) c).
Proof.
  intros Hn. rewrite recvLoop_app. cbn [recvLoop]. unfold recvBody at 1.
  rewrite Hn, Nat.eqb_refl. cbn [loop_derived].
  by rewrite recvLoop_ck.
Qed.


(** X3. No key is handed out twice: in a session whose cached indices are
    all below [recvN], once [deriveReceiveKey] has returned the key of
    counter [n], asking for [n] again returns no key and leaves the
    session as it is. *)
Theorem receive_key_issued_once (s : SessionRecord) (n mx : nat)
    (r : ReceiveResult) :
  (∀ j, is_Some (skippedKeys s !! j) → j < recvN s) →
  deriveReceiveKey s n mx = Ok r →
  is_Some (messageKey r) →
  deriveReceiveKey (nextSession r) n mx
    = Ok (mkReceive None (nextSession r) false).
Proof.
  intros Hdom Hr Hkey.
  destruct (Nat.lt_ge_cases n (recvN s)) as [Hlt|Hge].
  - revert Hr. unfold deriveReceiveKey at 1.
    destruct (Nat.ltb_spec n (recvN s)); [|lia].
    destruct (skippedKeys s !! n) as [cached|] eqn:Hc.
    + destruct (String.eqb cached "").
      { intros [= <-]. by destruct Hkey. }
      destruct (base64ToBytes cached); simpl; [|done].
      intros [= <-]. simpl. apply deriveReceiveKey_absent; simpl; [done|].
      apply lookup_delete_eq.
    + intros [= <-]. by destruct Hkey.
  - revert Hr. unfold deriveReceiveKey at 1.
    destruct (Nat.ltb_spec n (recvN s)); [lia|].
    destruct (base64ToBytes (recvCK s)) as [ck|]; simpl; [|done].
    intros [= <-]. simpl. apply deriveReceiveKey_absent; simpl; [lia|].
    apply eq_None_not_Some. intros [v Hv]. apply trimSkipped_lookup in Hv.
    destruct (recvLoop_bounds n mx (S n - recvN s) (recvN s)
                (mkLoop ck None (skippedKeys s))) as [_ Hd].
    destruct (Hd n) as [Hold|[_ ?]]; [by eexists| |done].
    apply Hdom in Hold. simpl in *. lia.
Qed.

(** X4. What [deriveReceiveKey] leaves alone.  It returns no key only for
    a counter below [recvN], and then returns the session it was given;
    a key from the cache costs that one cache entry and nothing else; in
    every case [recvN] becomes the larger of [recvN] and [n + 1], and the
    send chain, the conversation and the peer are untouched. *)
Theorem receive_miss_leaves_session (s : SessionRecord) (n mx : nat)
    (r : ReceiveResult) :
  deriveReceiveKey s n mx = Ok r →
  (messageKey r = None →
     n < recvN s ∧ nextSession r = s ∧ fromCache r = false) ∧
  (fromCache r = true →
     n < recvN s ∧ recvCK (nextSession r) = recvCK s ∧
     skippedKeys (nextSession r) = delete n (skippedKeys s)) ∧
  recvN (nextSession r) = Nat.max (recvN s) (n + 1) ∧
  sendCK (nextSession r) = sendCK s ∧
  sendN (nextSession r) = sendN s ∧
  conversationId (nextSession r) = conversationId s ∧
  peerPubKey (nextSession r) = peerPubKey s.
Proof.
  unfold deriveReceiveKey.
  destruct (Nat.ltb_spec n (recvN s)) as [Hlt|Hge].
  - destruct (skippedKeys s !! n) as [cached|].
    + destruct (String.eqb cached "").
      { intros [= <-]. simpl. repeat split; try done; lia. }
      destruct (base64ToBytes cached); simpl; [|done].
      intros [= <-]. simpl. repeat split; try done; lia.
    + intros [= <-]. simpl. repeat split; try done; lia.
  - destruct (base64ToBytes (recvCK s)) as [ck|]; simpl; [|done].
    intros [= <-]. simpl.
    replace (S n - recvN s) with ((n - recvN s) + 1) by lia.
    rewrite recvLoop_derived by lia.
    repeat split; try done; lia.
Qed.

End RatchetMore.

(** ** More on topics and on the helpers of the store *)

Section TopicsMore.
Context `{Primitives}.

(** X6. The three families of content topics never meet: a direct-chat
    topic, a group topic and an inbox topic are pairwise different
    whatever their arguments, and [dmTopic] and [groupTopic] are
    injective; an inbox topic starts with [/app/1/inbox/]. *)
Theorem topic_families_apart (a b : string) (publicKey : bytes) :
  dmTopic a ≠ groupTopic b ∧
  dmTopic a ≠ inboxTopic publicKey ∧
  groupTopic b ≠ inboxTopic publicKey ∧
  (dmTopic a = dmTopic b → a = b) ∧
  (groupTopic a = groupTopic b → a = b) ∧
  String.prefix "/app/1/inbox/" (inboxTopic publicKey) = true.
Proof.
  unfold dmTopic, groupTopic, inboxTopic. simpl.
  split; [discriminate|]. split; [discriminate|]. split; [discriminate|].
  split; [by intros [= Hab]|]. split; [by intros [= Hab]|].
  by destruct (stripHexPrefix _).
Qed.

End TopicsMore.

Section StoreHelpers.
Context `{Primitives} `{Environment}.

Lemma insertSorted_Permutation {A} (le : A → A → bool) (x : A) (l : list A) :
  insertSorted le x l ≡ₚ x :: l.
Proof.
  induction l as [|y l IH]; simpl; [done|].
  destruct (le x y); [done|]. rewrite IH. apply Permutation_swap.
Qed.

Lemma jsSort_Permutation {A} (le : A → A → bool) (l : list A) :
  jsSort le l ≡ₚ l.
Proof.
  induction l as [|x l IH]; simpl; [done|].
  unfold jsSort in *. simpl. by rewrite insertSorted_Permutation, IH.
Qed.

Lemma insertSorted_timestamp (x : MessageRecord) (l : list MessageRecord) :
  StronglySorted timestampOrder l →
  StronglySorted timestampOrder (insertSorted timestampLe x l).
Proof.
  induction 1 as [|y l Hl IH Hy]; simpl.
  - by repeat constructor.
  - unfold timestampLe at 1.
    destruct (Z.leb_spec (message_timestamp x) (message_timestamp y)) as [Hle|Hgt].
    + constructor; [by constructor|]. constructor; [done|].
      eapply Forall_impl; [exact Hy|]. unfold timestampOrder. simpl.
      intros z Hz. lia.
    + constructor; [done|].
      rewrite insertSorted_Permutation. constructor; [|done].
      unfold timestampOrder. lia.
Qed.

Lemma jsSort_timestamp (l : list MessageRecord) :
  StronglySorted timestampOrder (jsSort timestampLe l).
Proof.
  induction l as [|x l IH]; [constructor|].
  unfold jsSort in *. simpl. by apply insertSorted_timestamp.
Qed.

(** X7. [updateMessageList] leaves the messages of the chat in timestamp
    order, whatever order they were in: the new list holds the old
    messages and the new one, each once, sorted by timestamp; the lists of
    the other chats are untouched. *)
Theorem updateMessageList_sorted (messages : gmap string (list MessageRecord))
    (chatId : string) (next : MessageRecord) :
  ∃ l,
    updateMessageList messages chatId next !! chatId = Some l ∧
    l ≡ₚ messageListForChat messages chatId ++ [next] ∧
    StronglySorted timestampOrder l ∧
    ∀ other, other ≠ chatId →
      updateMessageList messages chatId next !! other = messages !! other.
Proof.
  unfold updateMessageList. eexists. split; [apply lookup_insert_eq|].
  split; [apply jsSort_Permutation|]. split; [apply jsSort_timestamp|].
  intros other Hne. by rewrite lookup_insert_ne.
Qed.

(** X8. [addError] keeps the five most recent errors: the list becomes the
    last five entries of the old list followed by the new message, so it
    never holds more than five and always ends with the new message;
    nothing else in the world changes. *)
Theorem addError_keeps_last_five (message : string) (w : World) :
  ∃ w',
    addError message w = (Ok tt, w') ∧
    errors (store w') `suffix_of` errors (store w) ++ [message] ∧
    length (errors (store w')) = Nat.min 5 (length (errors (store w)) + 1) ∧
    last (errors (store w')) = Some message ∧
    set_errors (λ _, errors (store w)) (store w') = store w ∧
    idb w' = idb w ∧ trace w' = trace w ∧
    subscribedTopics w' = subscribedTopics w.
Proof.
  eexists. split; [reflexivity|]. destruct w as [st db sub tr cr ir br].
  destruct st; cbn -[Nat.min].
  split; [apply suffix_drop|].
  split; [rewrite length_drop, !length_app; cbn [length]; lia|].
  split; [|done].
  rewrite last_lookup, length_drop, lookup_drop, !length_app.
  cbn [length].
  rewrite lookup_app_r by lia.
  match goal with |- [_] !! ?i = _ => replace i with 0 by lia end. done.
Qed.


End StoreHelpers.

(** ** More on the inbound pipeline *)

Section InboundMore.
Context `{Primitives} `{Environment}.

(** X10. Before the identity is unlocked, and on a payload that is no
    envelope or an envelope of a type without a handler, [handleIncoming]
    does nothing at all. *)
Theorem handleIncoming_ignores (payload : bytes) (w : World) :
  (∀ e, decodePayload payload ≠ JEnvelope e) ∨
  chatKey (store w) = None ∨
  chatKey (store w) = Some EmptyString ∨
  unlockedSecretKey (store w) = None ∨
  identity (store w) = None ∨
  (∃ type, decodePayload payload = JEnvelope (other_envelope type)) ∨
  (∃ response requestId groupId fromPubKey toPubKey timestamp,
     decodePayload payload
       = JEnvelope (group_response response requestId groupId fromPubKey
                                   toPubKey timestamp)) →
  handleIncoming payload w = (Ok tt, w).
Proof.
  intros Hcase. unfold handleIncoming. rewrite bind_run. cbn [getState].
  destruct Hcase as [Hno|[Hk|[Hk|[Hs|[Hi|[[t Ht]|Hg]]]]]].
  - destruct (decodePayload payload); try done. by destruct (Hno e).
  - rewrite Hk. by destruct (decodePayload payload).
  - rewrite Hk. destruct (decodePayload payload); try done.
    by destruct (unlockedSecretKey (store w)), (identity (store w)).
  - rewrite Hs. destruct (decodePayload payload); try done.
    by destruct (chatKey (store w)).
  - rewrite Hi. destruct (decodePayload payload); try done.
    by destruct (chatKey (store w)), (unlockedSecretKey (store w)).
  - rewrite Ht.
    destruct (chatKey (store w)) as [me|]; [|done].
    destruct (unlockedSecretKey (store w)), (identity (store w)); try done.
    by destruct (truthy me).
  - destruct Hg as (r & id & g & f & t & ts & ->).
    destruct (chatKey (store w)) as [me|]; [|done].
    destruct (unlockedSecretKey (store w)), (identity (store w)); try done.
    by destruct (truthy me).
Qed.

(** X11. A [dm_message] that carries the engine's own chat key as its
    sender (its own message, heard on the chat's topic) is dropped: no
    session is touched, nothing is stored, nothing is published. *)
Theorem own_dm_message_dropped (payload : bytes) (w : World)
    (cid mid nonce ciphertext : string) (n : nat) (timestamp : Z) :
  decodePayload payload
    = JEnvelope (dm_message cid mid (chatKey (store w)) n nonce ciphertext
                            timestamp) →
  handleIncoming payload w = (Ok tt, w).
Proof.
  intros Hdec. unfold handleIncoming. rewrite bind_run. cbn [getState].
  rewrite Hdec.
  destruct (chatKey (store w)) as [me|] eqn:Hme; [|done].
  destruct (unlockedSecretKey (store w)), (identity (store w)); try done.
  destruct (truthy me); [|done].
  unfold handleEncryptedMessage. rewrite bind_run. cbn [getState].
  by rewrite Hme, bool_decide_true.
Qed.

Lemma find_none_forall {A} (f : A → bool) (l : list A) :
  (∀ x, x ∈ l → f x = false) → List.find f l = None.
Proof.
  induction l as [|x l IH]; intros Hall; simpl; [done|].
  rewrite (Hall x) by (apply elem_of_cons; by left).
  apply IH. intros y Hy. apply Hall, elem_of_cons. by right.
Qed.

Lemma find_some_exists {A} (f : A → bool) (l : list A) (x : A) :
  x ∈ l → f x = true → ∃ y, List.find f l = Some y.
Proof.
  induction l as [|z l IH]; intros Hin Hx; simpl.
  - by apply elem_of_nil in Hin.
  - destruct (f z) eqn:Hz; [by eexists|].
    apply elem_of_cons in Hin as [->|Hin]; [congruence | by apply IH].
Qed.

(** X12. A [chat_request] from a peer whose earlier request was blocked is
    answered with one [chat_blocked] envelope to that peer's inbox topic
    and nothing else: no request is recorded again, the store and the
    database stay as they are. *)
Theorem chat_request_from_blocked_peer
    (w : World) (payload : bytes)
    (requestId sender recipient nonce ciphertext : string) (timestamp : Z)
    (me : string) (secretKey : bytes) (ident : IdentityRecord)
    (blocked : RequestRecord) (senderBytes : bytes) :
  decodePayload payload
    = JEnvelope (chat_request requestId sender recipient nonce ciphertext
                              timestamp) →
  chatKey (store w) = Some me →
  truthy me = true →
  unlockedSecretKey (store w) = Some secretKey →
  identity (store w) = Some ident →
  (∀ c, c ∈ chats (store w) →
        chat_id c = conversationIdFromPubKeys me sender → accepted c = false) →
  blocked ∈ requests (store w) →
  request_fromPubKey blocked = sender →
  request_toPubKey blocked = me →
  request_status blocked = status_blocked →
  base58ToBytes sender = Ok senderBytes →
  ∃ w',
    handleIncoming payload w = (Ok tt, w') ∧
    store w' = store w ∧
    idb w' = idb w ∧
    subscribedTopics w' = subscribedTopics w ∧
    trace w' = trace w ++
      [Publish (inboxTopic senderBytes)
         (encodePayload (JEnvelope
            (chat_blocked requestId me sender
               (conversationIdFromPubKeys me sender)
               (clock (clockReads w)))))].
Proof.
  intros Hdec Hme Htruthy Hsk Hid Hnone Hin Hfrom Hto Hst Hb58.
  unfold handleIncoming. rewrite bind_run. cbn [getState].
  rewrite Hdec, Hme, Hsk, Hid, Htruthy.
  unfold handleChatRequest.
  rewrite find_none_forall.
  2:{ intros c Hc. destruct (String.eqb_spec (chat_id c)
        (conversationIdFromPubKeys me sender)) as [Heq|]; [|done].
      by rewrite (Hnone c Hc Heq). }
  destruct (find_some_exists
    (λ item, String.eqb (request_fromPubKey item) sender
             && String.eqb (request_toPubKey item) me
             && bool_decide (request_status item = status_blocked))
    (requests (store w)) blocked Hin) as [b ->].
  { rewrite Hfrom, Hto, Hst, !String.eqb_refl. by rewrite bool_decide_true. }
  rewrite bind_run. unfold liftExc at 1. rewrite Hb58.
  eexists. split; [reflexivity|]. done.
Qed.

Lemma filter_other_ids (requestId : string) (l : list RequestRecord) :
  filter (λ item, request_id item = requestId)
         (filter (λ item, request_id item ≠ requestId) l) = [].
Proof.
  induction l as [|r l IH]; [done|].
  rewrite (filter_cons (λ item, request_id item ≠ requestId)).
  case_decide; [|done]. rewrite filter_cons. by rewrite decide_False.
Qed.

(** X13. A [chat_request] from a peer with no accepted chat and no blocked
    request is recorded, pending, in the store and in the database, and
    nothing is published.  The request list holds it once, whatever it
    held under that id before; its intro is the decrypted text, or
    "Unable to decrypt intro." when the box does not open; its creation
    time is the envelope's timestamp, or the clock when that is 0. *)
Theorem chat_request_recorded
    (w : World) (payload : bytes)
    (requestId sender recipient nonce64 ciphertext64 : string) (timestamp : Z)
    (me : string) (secretKey : bytes) (ident : IdentityRecord)
    (nonce ciphertext senderBytes : bytes) (introBytes : option bytes) :
  decodePayload payload
    = JEnvelope (chat_request requestId sender recipient nonce64 ciphertext64
                              timestamp) →
  chatKey (store w) = Some me →
  truthy me = true →
  unlockedSecretKey (store w) = Some secretKey →
  identity (store w) = Some ident →
  (∀ c, c ∈ chats (store w) →
        chat_id c = conversationIdFromPubKeys me sender → accepted c = false) →
  (∀ r, r ∈ requests (store w) →
        request_fromPubKey r = sender → request_toPubKey r = me →
        request_status r ≠ status_blocked) →
  base64ToBytes nonce64 = Ok nonce →
  base64ToBytes ciphertext64 = Ok ciphertext →
  base58ToBytes sender = Ok senderBytes →
  box_open ciphertext nonce senderBytes secretKey = Ok introBytes →
  let createdAt :=
    if (timestamp =? 0)%Z then clock (clockReads w) else timestamp in
  let request :=
    mkRequest requestId dm sender me
      (match introBytes with
       | Some b => bytesToString b
       | None => "Unable to decrypt intro."
       end)
      status_pending createdAt None None None in
  ∃ w' updatedAt,
    handleIncoming payload w = (Ok tt, w') ∧
    requests (store w')
      = filter (λ item, request_id item ≠ requestId) (requests (store w))
        ++ [request] ∧
    filter (λ item, request_id item = requestId) (requests (store w'))
      = [request] ∧
    idb_requests (idb w') = <[requestId := request]> (idb_requests (idb w)) ∧
    idb_requestStates (idb w')
      = <[requestId := mkRequestState requestId status_pending updatedAt]>
          (idb_requestStates (idb w)) ∧
    chats (store w') = chats (store w) ∧
    sessions (store w') = sessions (store w) ∧
    trace w' = trace w ++
      [PutRequest request;
       PutRequestState (mkRequestState requestId status_pending updatedAt)].
Proof.
  intros Hdec Hme Htruthy Hsk Hid Hnone Hnotblocked Hn Hc Hb58 Hopen
    createdAt request.
  destruct w as [st db sub tr cr ir br]; cbn [store clockReads] in *.
  unfold handleIncoming. rewrite bind_run. cbn [getState store].
  rewrite Hdec, Hme, Hsk, Hid, Htruthy.
  unfold handleChatRequest.
  rewrite find_none_forall.
  2:{ intros c Hc'. destruct (String.eqb_spec (chat_id c)
        (conversationIdFromPubKeys me sender)) as [Heq|]; [|done].
      by rewrite (Hnone c Hc' Heq). }
  rewrite find_none_forall.
  2:{ intros r Hr.
      destruct (String.eqb_spec (request_fromPubKey r) sender) as [Hf|]; [|done].
      destruct (String.eqb_spec (request_toPubKey r) me) as [Ht|]; [|done].
      simpl. apply bool_decide_eq_false. by apply Hnotblocked. }
  rewrite bind_run. unfold liftExc at 1. rewrite Hn.
  rewrite bind_run. unfold liftExc at 1. rewrite Hc.
  rewrite bind_run. unfold liftExc at 1. rewrite Hb58.
  rewrite bind_run. unfold liftExc at 1. rewrite Hopen.
  assert (∃ w1,
    (if (timestamp =? 0)%Z then now else mret timestamp)
      (mkWorld st db sub tr cr ir br) = (Ok createdAt, w1) ∧
    store w1 = st ∧ idb w1 = db ∧ trace w1 = tr) as (w1 & Hw1 & Hst1 & Hdb1 & Htr1).
  { unfold createdAt. destruct (timestamp =? 0)%Z; by eexists. }
  rewrite bind_run, Hw1.
  destruct w1 as [st1 db1 sub1 tr1 cr1 ir1 br1]. cbn in Hst1, Hdb1, Htr1. subst.
  eexists _, _. split; [reflexivity|]. cbn.
  split; [done|]. split; [|by rewrite <- app_assoc].
  rewrite filter_app, filter_other_ids.
  cbn. by rewrite decide_True.
Qed.

End InboundMore.

Section Replies.
Context `{Primitives} `{Environment}.

Lemma publishesAtMost_quiet {A} (m : M A) : quiet m → publishesAtMost 0 m.
Proof.
  intros Hm w. destruct (Hm w) as (es & Htr & Hq). exists es.
  split; [done|]. clear Htr. induction Hq as [|e es He _ IH]; [done|].
  rewrite filter_cons. rewrite decide_False by (by rewrite He). done.
Qed.

Lemma publishesAtMost_le {A} (a b : nat) (m : M A) :
  publishesAtMost a m → a ≤ b → publishesAtMost b m.
Proof.
  intros Hm Hab w. destruct (Hm w) as (es & Htr & Hn). exists es.
  split; [done | lia].
Qed.

Lemma publishesAtMost_bind {A B} (a b : nat) (m : M A) (f : A → M B) :
  publishesAtMost a m → (∀ x, publishesAtMost b (f x)) →
  publishesAtMost (a + b) (m ≫= f).
Proof.
  intros Hm Hf w. rewrite bind_run.
  destruct (Hm w) as (es1 & Ht1 & Hn1).
  destruct (m w) as [[x|e] w1]; simpl in *.
  - destruct (Hf x w1) as (es2 & Ht2 & Hn2).
    exists (es1 ++ es2). rewrite Ht2, Ht1, app_assoc. split; [done|].
    rewrite filter_app, length_app. lia.
  - exists es1. split; [done | lia].
Qed.

Lemma publishesAtMost_publish topic payload :
  publishesAtMost 1 (publishPayload topic payload).
Proof. intros w. exists [Publish topic payload]. by split. Qed.

(** A quiet step, then at most one publication. *)
Lemma publishesAtMost_after {A B} (m : M A) (f : A → M B) :
  quiet m → (∀ x, publishesAtMost 1 (f x)) → publishesAtMost 1 (m ≫= f).
Proof.
  intros Hm Hf. apply (publishesAtMost_bind 0 1); [|done].
  by apply publishesAtMost_quiet.
Qed.

(** The publication, then quiet steps. *)
Lemma publishesAtMost_then {B} topic payload (f : unit → M B) :
  (∀ x, quiet (f x)) →
  publishesAtMost 1 (publishPayload topic payload ≫= f).
Proof.
  intros Hf. apply (publishesAtMost_bind 1 0).
  - apply publishesAtMost_publish.
  - intros x. by apply publishesAtMost_quiet.
Qed.

Lemma quiet_ensureSubscription topic : quiet (ensureSubscription topic).
Proof.
  intros w. unfold ensureSubscription.
  destruct (decide (topic ∈ subscribedTopics w)).
  - exists []. rewrite app_nil_r. by split.
  - exists [Subscribe topic]. split; [done|]. by repeat constructor.
Qed.

Create HintDb replies.
#[local] Hint Resolve quiet_ret quiet_throw quiet_liftExc quiet_getState
  quiet_getIdb quiet_setState quiet_now quiet_randomId quiet_randomBytes
  quiet_mapM quiet_setMessage quiet_setSession quiet_setReaction
  quiet_setAttachment quiet_getAttachment quiet_getSession
  quiet_createSystemMessage quiet_orRandomId quiet_seedSession
  quiet_ensureSession quiet_receiveIntoChat quiet_setChatsM
  quiet_handleInnerPayload quiet_reportKeyMismatch
  quiet_ensureSubscription : replies.

Ltac quiet_walk :=
  repeat match goal with
  | |- quiet (_ ≫= _) => apply quiet_bind; [|intros ?]
  | |- quiet (putIdb _ _) => by apply quiet_putIdb
  | |- quiet (match ?x with _ => _ end) => destruct x
  | |- quiet (if ?x then _ else _) => destruct x
  | |- quiet _ => by auto with replies
  end.

Lemma quiet_handleChatAccept st me rid peer :
  quiet (handleChatAccept st me rid peer).
Proof.
  unfold handleChatAccept, setChat, setRequest, setRequestState. quiet_walk.
Qed.

Lemma quiet_handleChatRefusal st status rid :
  quiet (handleChatRefusal st status rid).
Proof.
  unfold handleChatRefusal, setRequest, setRequestState. quiet_walk.
Qed.

Lemma quiet_handleGroupInvite me sk sender nonce ciphertext :
  quiet (handleGroupInvite me sk sender nonce ciphertext).
Proof.
  unfold handleGroupInvite, setRequest, setRequestState. quiet_walk.
Qed.

Lemma quiet_handleAck st cid mid : quiet (handleAck st cid mid).
Proof. unfold handleAck. quiet_walk. Qed.

Lemma quiet_handleGroupMessage gid mid sender sealed :
  quiet (handleGroupMessage gid mid sender sealed).
Proof. unfold handleGroupMessage. quiet_walk. Qed.

Lemma publishesAtMost_handleChatRequest st me sk rid sender nonce ct ts :
  publishesAtMost 1 (handleChatRequest st me sk rid sender nonce ct ts).
Proof.
  unfold handleChatRequest.
  destruct (List.find _ (chats st)).
  { apply publishesAtMost_after; [quiet_walk|]. intros ?.
    apply publishesAtMost_after; [quiet_walk|]. intros ?.
    apply publishesAtMost_publish. }
  destruct (List.find _ (requests st)).
  { apply publishesAtMost_after; [quiet_walk|]. intros ?.
    apply publishesAtMost_after; [quiet_walk|]. intros ?.
    apply publishesAtMost_publish. }
  apply (publishesAtMost_le 0); [|lia]. apply publishesAtMost_quiet.
  unfold setRequest, setRequestState. quiet_walk.
Qed.

Lemma publishesAtMost_handleEncryptedMessage cid mid sender n nonce ct :
  publishesAtMost 1 (handleEncryptedMessage cid mid sender n nonce ct).
Proof.
  unfold handleEncryptedMessage.
  apply publishesAtMost_after; [quiet_walk|]. intros st.
  assert (∀ {A} (m : M A), quiet m → publishesAtMost 1 m) as Hq.
  { intros A m Hm. apply (publishesAtMost_le 0); [|lia].
    by apply publishesAtMost_quiet. }
  destruct (bool_decide _); [apply Hq; quiet_walk|].
  destruct (List.find _ _); [|apply Hq; quiet_walk].
  apply publishesAtMost_after; [quiet_walk|]. intros session.
  apply publishesAtMost_after; [quiet_walk|]. intros r.
  destruct (messageKey r); [|apply Hq; quiet_walk].
  apply publishesAtMost_after; [quiet_walk|]. intros ?.
  apply publishesAtMost_after; [quiet_walk|]. intros ?.
  apply publishesAtMost_after; [quiet_walk|]. intros decrypted.
  destruct decrypted as [plain|]; [|apply Hq; quiet_walk].
  assert (∀ inner,
    publishesAtMost 1
      (setSession (nextSession r);;
       setState (set_sessions (λ ss, <[cid := nextSession r]> ss));;
       sender' ← match sender with
                 | Some k => mret k
                 | None => throw "TypeError"
                 end;
       senderBytes ← liftExc (base58ToBytes sender');
       timestamp ← now;
       publishPayload (inboxTopic senderBytes)
         (encodePayload (JEnvelope
            (dm_ack cid mid (chatKey st) sender' timestamp)));;
       handleInnerPayload cid sender' inner (Some mid))) as Hrest.
  { intros inner.
    apply publishesAtMost_after; [quiet_walk|]. intros ?.
    apply publishesAtMost_after; [quiet_walk|]. intros ?.
    apply publishesAtMost_after; [quiet_walk|]. intros ?.
    apply publishesAtMost_after; [quiet_walk|]. intros ?.
    apply publishesAtMost_after; [quiet_walk|]. intros ?.
    apply publishesAtMost_then. intros ?. apply quiet_handleInnerPayload. }
  destruct (decodePayload plain); try apply Hrest. apply Hq; quiet_walk.
Qed.

(** X14. [handleIncoming] publishes at most one envelope for an incoming
    payload, and none unless the payload is a [chat_request] or a
    [dm_message]: an acknowledgement, an acceptance, a refusal, an invite
    or a group message is never answered on the wire. *)
Theorem handleIncoming_replies_at_most_once (payload : bytes) :
  publishesAtMost 1 (handleIncoming payload) ∧
  ∀ e, decodePayload payload = JEnvelope e → answered e = false →
       quiet (handleIncoming payload).
Proof.
  assert (∀ {A} (m : M A), quiet m → publishesAtMost 1 m) as Hq.
  { intros A m Hm. apply (publishesAtMost_le 0); [|lia].
    by apply publishesAtMost_quiet. }
  split.
  - unfold handleIncoming.
    apply publishesAtMost_after; [quiet_walk|]. intros st.
    destruct (decodePayload payload) as [|e| | |];
      try solve [apply Hq; quiet_walk].
    destruct (chatKey st) as [me|]; [|apply Hq; quiet_walk].
    destruct (unlockedSecretKey st) as [sk|]; [|apply Hq; quiet_walk].
    destruct (identity st); [|apply Hq; quiet_walk].
    destruct (truthy me); [|apply Hq; quiet_walk].
    destruct e.
    + apply publishesAtMost_handleChatRequest.
    + apply Hq, quiet_handleChatAccept.
    + apply Hq, quiet_handleChatRefusal.
    + apply Hq, quiet_handleChatRefusal.
    + apply Hq, quiet_handleGroupInvite.
    + apply Hq; quiet_walk.
    + apply publishesAtMost_handleEncryptedMessage.
    + apply Hq, quiet_handleAck.
    + apply Hq, quiet_handleGroupMessage.
    + apply Hq; quiet_walk.
  - intros e Hdec Hans. unfold handleIncoming.
    apply quiet_bind; [quiet_walk|]. intros st. rewrite Hdec.
    destruct (chatKey st) as [me|]; [|quiet_walk].
    destruct (unlockedSecretKey st) as [sk|]; [|quiet_walk].
    destruct (identity st); [|quiet_walk].
    destruct (truthy me); [|quiet_walk].
    destruct e; try discriminate Hans.
    + apply quiet_handleChatAccept.
    + apply quiet_handleChatRefusal.
    + apply quiet_handleChatRefusal.
    + apply quiet_handleGroupInvite.
    + quiet_walk.
    + apply quiet_handleAck.
    + apply quiet_handleGroupMessage.
    + quiet_walk.
Qed.

(** X15. A group message that cannot be opened is dropped in silence:
    when the receive key is absent or secretbox-open returns nothing,
    [handleGroupMessage] returns in the world [ensureSession] left, which
    is the world it started in when the session existed.  No session is
    advanced, no notice is added to the conversation, nothing is
    published. *)
Theorem group_receive_failure_silent
    (w w1 : World) (groupId messageId sender me : string)
    (sealed : list SealedEntry) (chat : ChatRecord) (entry : SealedEntry)
    (session : SessionRecord) (r : ReceiveResult) :
  chatKey (store w) = Some me →
  truthy me = true →
  List.find (λ item, String.eqb (chat_id item) groupId) (chats (store w))
    = Some chat →
  List.find (λ item, String.eqb (sealed_toPubKey item) me) sealed
    = Some entry →
  ensureSession (groupSessionId groupId me sender) group (Some sender) w
    = (Ok session, w1) →
  deriveReceiveKey session (sealed_n entry) MAX_SKIPPED_KEYS = Ok r →
  (messageKey r = None ∨
   ∃ key ciphertext nonce,
     messageKey r = Some key ∧
     base64ToBytes (sealed_ciphertext entry) = Ok ciphertext ∧
     base64ToBytes (sealed_nonce entry) = Ok nonce ∧
     secretbox_open ciphertext nonce key = Ok None) →
  handleGroupMessage groupId messageId sender sealed w = (Ok tt, w1) ∧
  (is_Some (sessions (store w) !! groupSessionId groupId me sender) → w1 = w).
Proof.
  intros Hme Htruthy Hchat Hentry Hens Hr Hfail. split.
  - unfold handleGroupMessage. rewrite bind_run. cbn [getState].
    rewrite Hme, Htruthy, Hchat, Hentry.
    rewrite bind_run, Hens, bind_run. unfold liftExc at 1. rewrite Hr.
    destruct Hfail as [->|(key & ct & nonce & -> & Hc & Hn & Hopen)]; [done|].
    rewrite bind_run. unfold liftExc at 1. rewrite Hc.
    rewrite bind_run. unfold liftExc at 1. rewrite Hn.
    rewrite bind_run. unfold liftExc at 1. rewrite Hopen. done.
  - intros Hex.
    destruct (ensureSession_existing w (groupSessionId groupId me sender)
                group (Some sender)) as [s Hs]; [by left|].
    rewrite Hs in Hens. by injection Hens as _ ->.
Qed.

End Replies.

Section SendsMore.
Context `{Primitives} `{Environment}.

(** X16. [sendMessage] on a chat that is not ready sends nothing: when the
    chat is unknown or not accepted, or the identity is locked, the call
    returns after adding the error "Chat not ready." to the (five most
    recent) errors; the log, the database and the rest of the store are
    as before. *)
Theorem sendMessage_not_ready (chatId body : string)
    (replyTo : option string) (w : World) :
  List.find (λ item, String.eqb (chat_id item) chatId) (chats (store w)) = None
  ∨ (∃ chat,
       List.find (λ item, String.eqb (chat_id item) chatId) (chats (store w))
         = Some chat ∧ accepted chat = false)
  ∨ unlockedSecretKey (store w) = None
  ∨ chatKey (store w) = None
  ∨ chatKey (store w) = Some EmptyString →
  ∃ w',
    awaited (Async.sendMessage chatId body replyTo) w = (Ok tt, w') ∧
    addError "Chat not ready." w = (Ok tt, w') ∧
    trace w' = trace w ∧ idb w' = idb w ∧
    sessions (store w') = sessions (store w) ∧
    messages (store w') = messages (store w).
Proof.
  intros Hcase. eexists. split; [|split; [reflexivity|done]].
  unfold awaited. cbn [runTask]. unfold Async.sendMessage.
  rewrite bind_run. cbn [getState].
  assert (∀ m : M Task,
    m = (addError "Chat not ready.";; returnTo (λ _, mret Finished) tt) →
    match m w with
    | (Ok t', w') => runTask t' w'
    | (Throw e, w') => (Throw e, w')
    end = addError "Chat not ready." w) as Hrun.
  { intros m ->. reflexivity. }
  apply Hrun.
  destruct Hcase as [Hf|[(chat & Hf & Hacc)|[Hs|[Hk|Hk]]]].
  - by rewrite Hf.
  - rewrite Hf. destruct (unlockedSecretKey _); [|done].
    destruct (chatKey _); [|done]. by rewrite Hacc.
  - rewrite Hs. by destruct (List.find _ _).
  - rewrite Hk. destruct (List.find _ _); [|done].
    by destruct (unlockedSecretKey (store w)).
  - rewrite Hk. destruct (List.find _ _) as [chat|]; [|done].
    destruct (unlockedSecretKey (store w)); [|done]. cbn [truthy].
    by rewrite andb_false_r.
Qed.

(** X17. A send on a direct chat without a usable peer key does nothing:
    when no participant differs from the engine's own key, or the one
    found is the empty string, [sendEventMessage] returns to its caller at
    once; the world is as before, nothing is sealed or published. *)
Theorem sendEventMessage_without_peer (chat : ChatRecord) (ev : Inner)
    (messageId : option string) (w : World) :
  findPeer chat (store w) = None ∨
  findPeer chat (store w) = Some EmptyString →
  awaited (Async.sendEventMessage chat ev messageId) w = (Ok tt, w).
Proof.
  intros Hpeer. unfold awaited. cbn [runTask].
  unfold Async.sendEventMessage. rewrite bind_run. cbn [getState].
  by destruct Hpeer as [->| ->].
Qed.

(** X18. Sessions seeded on the two sides mirror each other.  When the two
    parties of a conversation, neither holding a session for it, call
    [ensureSession] with each other's key, and the two Diffie-Hellman
    computations agree, both get a session at counters 0 with an empty
    cache, stored in the store and in the database, and the send chain
    key of each is the receive chain key of the other. *)
Theorem seeded_sessions_mirror
    (wA wB : World) (cid a b : string) (kind : ChatKind)
    (skA skB pkA pkB shared : bytes) :
  sessions (store wA) !! cid = None → idb_sessions (idb wA) !! cid = None →
  sessions (store wB) !! cid = None → idb_sessions (idb wB) !! cid = None →
  chatKey (store wA) = Some a → truthy a = true →
  chatKey (store wB) = Some b → truthy b = true →
  unlockedSecretKey (store wA) = Some skA →
  unlockedSecretKey (store wB) = Some skB →
  base58ToBytes a = Ok pkA → base58ToBytes b = Ok pkB →
  box_before pkB skA = Ok shared →
  box_before pkA skB = Ok shared →
  ∃ sA sB wA' wB',
    ensureSession cid kind (Some b) wA = (Ok sA, wA') ∧
    ensureSession cid kind (Some a) wB = (Ok sB, wB') ∧
    sendCK sA = recvCK sB ∧ recvCK sA = sendCK sB ∧
    sendN sA = 0 ∧ recvN sA = 0 ∧ skippedKeys sA = ∅ ∧
    sendN sB = 0 ∧ recvN sB = 0 ∧ skippedKeys sB = ∅ ∧
    sessions (store wA') !! cid = Some sA ∧
    idb_sessions (idb wA') !! cid = Some sA ∧
    sessions (store wB') !! cid = Some sB ∧
    idb_sessions (idb wB') !! cid = Some sB.
Proof.
  intros HsA HiA HsB HiB HkA HtA HkB HtB HskA HskB HpA HpB HdhA HdhB.
  eexists _, _, _, _.
  split.
  { unfold ensureSession. rewrite bind_run. cbn [getState]. rewrite HsA.
    rewrite bind_run. unfold getSession. rewrite bind_run. cbn [getIdb].
    rewrite HiA. cbn [mret M_ret].
    unfold seedSession. rewrite bind_run. cbn [getState].
    rewrite HskA, HkA, HtA. rewrite bind_run. cbn [mret M_ret].
    rewrite bind_run. unfold liftExc at 1. rewrite HpB.
    rewrite bind_run. unfold liftExc at 1. rewrite HdhA.
    reflexivity. }
  split.
  { unfold ensureSession. rewrite bind_run. cbn [getState]. rewrite HsB.
    rewrite bind_run. unfold getSession. rewrite bind_run. cbn [getIdb].
    rewrite HiB. cbn [mret M_ret].
    unfold seedSession. rewrite bind_run. cbn [getState].
    rewrite HskB, HkB, HtB. rewrite bind_run. cbn [mret M_ret].
    rewrite bind_run. unfold liftExc at 1. rewrite HpA.
    rewrite bind_run. unfold liftExc at 1. rewrite HdhB.
    reflexivity. }
  cbn. rewrite !lookup_insert_eq. by repeat split.
Qed.

End SendsMore.

Section Delivery.
Context `{Primitives} `{Environment}.

Hypothesis base64_roundtrip : ∀ b, base64ToBytes (bytesToBase64 b) = Ok b.
(** [nacl.secretbox.open] opens what [nacl.secretbox] sealed under the
    same nonce and key. *)
Hypothesis secretbox_opens :
  ∀ msg nonce key c,
    secretbox msg nonce key = Ok c →
    secretbox_open c nonce key = Ok (Some msg).

Ltac world_simpl :=
  cbn [getState setState getIdb putIdb emit now randomId randomBytes
       publishPayload setSession setMessage mret M_ret
       store idb subscribedTopics trace clockReads idDraws byteDraws fst snd
       set_requests set_chats set_messages set_reactions set_attachments
       set_sessions set_typing set_errors
       identity unlockedSecretKey chatKey state_inboxTopic requests chats
       messages reactions attachments sessions typing activeChatId wakuReady
       errors
       idb_identity idb_requests idb_requestStates idb_chats idb_sessions
       idb_messages idb_reactions idb_attachments].
Ltac run_step := rewrite bind_run; world_simpl.

Lemma sendMessage_run (w : World) (cid me peer body : string)
    (replyTo : option string) (chat : ChatRecord) (s : SessionRecord)
    (ck c : bytes) :
  chatKey (store w) = Some me →
  truthy me = true →
  is_Some (unlockedSecretKey (store w)) →
  List.find (λ item, String.eqb (chat_id item) cid) (chats (store w))
    = Some chat →
  accepted chat = true →
  chat_kind chat = dm →
  findPeer chat (store w) = Some peer →
  truthy peer = true →
  sessions (store w) !! cid = Some s →
  base64ToBytes (sendCK s) = Ok ck →
  secretbox (encodePayload (JInner (inner_text body replyTo)))
            (entropy (byteDraws w) 24) (hmacSha256 ck MSG_LABEL) = Ok c →
  let s' := withSend s (bytesToBase64 (hmacSha256 ck CK_LABEL)) (sendN s + 1) in
  ∃ w',
    awaited (Async.sendMessage cid body replyTo) w = (Ok tt, w') ∧
    trace w' = trace w ++
      [Publish (dmTopic cid)
         (encodePayload (JEnvelope (textEnvelope cid me (sendN s) c w)));
       PutSession s';
       PutMessage (sentMessage cid me body replyTo (sendN s) w)] ∧
    sessions (store w') = <[cid := s']> (sessions (store w)) ∧
    messages (store w')
      = updateMessageList (messages (store w)) cid
          (sentMessage cid me body replyTo (sendN s) w).
Proof.
  intros Hme Htruthy [sk Hsk] Hfind Hacc Hkind Hpeer Htp Hs Hck Hc s'.
  assert (Nat.max 0 (sendN s' - 1) = sendN s) as Hn by (cbn; lia).
  destruct w as [st db sub tr cr ir br]; cbn [store byteDraws] in *.
  pose (message := sentMessage cid me body replyTo (sendN s)
                     (mkWorld st db sub tr cr ir br)).
  pose (w5 := mkWorld
    (set_messages (λ ms, updateMessageList ms cid message) st)
    (mkIdb (idb_identity db) (idb_requests db) (idb_requestStates db)
       (idb_chats db) (<[conversationId s' := s']> (idb_sessions db))
       (<[uuid ir := message]> (idb_messages db))
       (idb_reactions db) (idb_attachments db))
    sub
    (((tr ++ [Publish (dmTopic cid) (encodePayload (JEnvelope
         (textEnvelope cid me (sendN s) c (mkWorld st db sub tr cr ir br))))])
        ++ [PutSession s'])
       ++ [PutMessage message])
    (S (S cr)) (S ir) (S br)).
  destruct (mapM_touchChat cid (chats st) w5) as (l2 & k2 & Hmap & Hall2).
  eexists. split.
  { unfold awaited. rewrite runTask_Segment. unfold Async.sendMessage.
    run_step.
    rewrite Hfind, Hsk, Hme, Hacc, Htruthy. cbn [andb]. rewrite Hkind.
    rewrite Hpeer, Htp.
    rewrite <- runTask_Segment, (getSendKey_run _ _ _ _ s ck); [|done|done].
    rewrite runTask_Segment. cbn [fst snd]. fold s'. rewrite Hn.
    run_step.
    rewrite bind_run; unfold liftExc at 1; rewrite Hc.
    do 2 run_step.
    unfold awaitIO. world_simpl.
    rewrite runTask_Segment. run_step. rewrite runTask_Segment. world_simpl.
    rewrite runTask_Segment. run_step. rewrite runTask_Segment.
    run_step. rewrite runTask_Segment. run_step. rewrite runTask_Segment.
    run_step. rewrite bind_run. unfold setChatsM. run_step. rewrite bind_run.
    match goal with
    | |- context [mapM (touchChat cid) (chats st) ?w1] => change w1 with w5
    end.
    rewrite Hmap. world_simpl. subst w5. world_simpl.
    run_step. unfold returnTo. world_simpl. rewrite runTask_Segment.
    reflexivity. }
  world_simpl. split; [by rewrite <- !app_assoc|]. done.
Qed.

Lemma mapM_receiveIntoChat chatId isActive (l : list ChatRecord) : ∀ w,
  ∃ l' k,
    mapM (receiveIntoChat chatId isActive) l w =
      (Ok l', mkWorld (store w) (idb w) (subscribedTopics w) (trace w)
                      (clockReads w + k) (idDraws w) (byteDraws w)) ∧
    chat_id <$> l' = chat_id <$> l.
Proof.
  induction l as [|c l IH]; intros w; cbn [mapM].
  - exists [], 0. destruct w. cbn. rewrite Nat.add_0_r. by split.
  - rewrite bind_run.
    assert (∃ c' k1,
      receiveIntoChat chatId isActive c w =
        (Ok c', mkWorld (store w) (idb w) (subscribedTopics w) (trace w)
                        (clockReads w + k1) (idDraws w) (byteDraws w)) ∧
      chat_id c' = chat_id c) as (c' & k1 & -> & Hc).
    { destruct w as [st db sub tr cr ir br]. unfold receiveIntoChat.
      destruct (String.eqb (chat_id c) chatId).
      - eexists _, 1. rewrite bind_run. cbn.
        split; [by rewrite (Nat.add_1_r cr) | done].
      - exists c, 0. cbn. by rewrite Nat.add_0_r. }
    rewrite bind_run.
    match goal with
    | |- context [mapM (receiveIntoChat chatId isActive) l ?w1] =>
        destruct (IH w1) as (l' & k2 & -> & Hall)
    end.
    exists (c' :: l'), (k1 + k2). cbn. rewrite Nat.add_assoc.
    split; [done | by rewrite Hc, Hall].
Qed.

Lemma handleIncoming_text (w : World) (payload : bytes)
    (cid id sender me body : string) (replyTo : option string) (n : nat)
    (nonce c ck plain senderBytes : bytes) (timestamp : Z)
    (chat : ChatRecord) (s : SessionRecord) :
  decodePayload payload
    = JEnvelope (dm_message cid id (Some sender) n (bytesToBase64 nonce)
                            (bytesToBase64 c) timestamp) →
  chatKey (store w) = Some me →
  truthy me = true →
  sender ≠ me →
  is_Some (unlockedSecretKey (store w)) →
  is_Some (identity (store w)) →
  List.find (λ item, String.eqb (chat_id item) cid) (chats (store w))
    = Some chat →
  sessions (store w) !! cid = Some s →
  recvN s = n →
  base64ToBytes (recvCK s) = Ok ck →
  secretbox_open c nonce (hmacSha256 ck MSG_LABEL) = Ok (Some plain) →
  decodePayload plain = JInner (inner_text body replyTo) →
  base58ToBytes sender = Ok senderBytes →
  truthy id = true →
  let s' := withRecv s (bytesToBase64 (hmacSha256 ck CK_LABEL)) (n + 1)
              (trimSkipped (skippedKeys s) MAX_SKIPPED_KEYS) in
  let message := receivedMessage cid id sender body replyTo w in
  ∃ w',
    handleIncoming payload w = (Ok tt, w') ∧
    trace w' = trace w ++
      [PutSession s';
       Publish (inboxTopic senderBytes)
         (encodePayload (JEnvelope
            (dm_ack cid id (Some me) sender (clock (clockReads w)))));
       PutMessage message] ∧
    sessions (store w') = <[cid := s']> (sessions (store w)) ∧
    messages (store w') = updateMessageList (messages (store w)) cid message ∧
    idb_messages (idb w') = <[id := message]> (idb_messages (idb w)) ∧
    idb_sessions (idb w')
      = <[conversationId s := s']> (idb_sessions (idb w)).
Proof.
  intros Hdec Hme Htruthy Hne [sk Hsk] [ident Hident] Hfind Hs HN Hck Hopen
    Hinner Hb58 Hid s' message.
  destruct w as [st db sub tr cr ir br]; cbn [store clockReads] in *.
  assert (deriveReceiveKey s n MAX_SKIPPED_KEYS
          = Ok (mkReceive (Some (hmacSha256 ck MSG_LABEL)) s' false)) as Hr.
  { unfold deriveReceiveKey. rewrite HN.
    rewrite Nat.ltb_irrefl, Hck. cbn [mbind exc_bind].
    replace (S n - n) with 1 by lia. cbn [recvLoop]. unfold recvBody.
    rewrite Nat.eqb_refl. reflexivity. }
  pose (w5 := mkWorld
    (set_messages (λ ms, updateMessageList ms cid message)
       (set_sessions (λ ss, <[cid := s']> ss) st))
    (mkIdb (idb_identity db) (idb_requests db) (idb_requestStates db)
       (idb_chats db) (<[conversationId s' := s']> (idb_sessions db))
       (<[id := message]> (idb_messages db))
       (idb_reactions db) (idb_attachments db))
    sub
    (((tr ++ [PutSession s'])
        ++ [Publish (inboxTopic senderBytes)
              (encodePayload (JEnvelope
                 (dm_ack cid id (Some me) sender (clock cr))))])
       ++ [PutMessage message])
    (S (S cr)) ir br).
  destruct (mapM_receiveIntoChat cid
              (bool_decide (activeChatId st = Some cid)) (chats st) w5)
    as (l2 & k2 & Hmap & _).
  eexists. split.
  { unfold handleIncoming. run_step.
    rewrite Hdec, Hme, Hsk, Hident, Htruthy.
    unfold handleEncryptedMessage. run_step.
    rewrite Hme, bool_decide_false by congruence.
    rewrite Hfind. rewrite bind_run.
    unfold ensureSession at 1. run_step. rewrite Hs. run_step.
    rewrite bind_run. unfold liftExc at 1. rewrite Hr.
    cbn [messageKey nextSession].
    rewrite bind_run. unfold liftExc at 1. rewrite base64_roundtrip.
    rewrite bind_run. unfold liftExc at 1. rewrite base64_roundtrip.
    rewrite bind_run. unfold liftExc at 1. rewrite Hopen.
    rewrite Hinner.
    do 3 run_step.
    rewrite bind_run. unfold liftExc at 1. rewrite Hb58.
    do 2 run_step.
    unfold handleInnerPayload. run_step.
    rewrite bind_run. unfold orRandomId. rewrite Hid. world_simpl.
    do 3 run_step. unfold setChatsM. run_step. rewrite bind_run.
    match goal with
    | |- context [mapM (receiveIntoChat cid _) _ ?w1] => change w1 with w5
    end.
    rewrite Hmap. world_simpl. reflexivity. }
  subst w5. world_simpl. split; [by rewrite <- !app_assoc|]. done.
Qed.

(** X19. A text sent on a ready direct chat reaches the peer.  The sender
    [a] holds a session whose send chain is at [ck], the receiver [b] one
    whose receive chain is at the same key and the same counter.  When the
    secretbox seals the text and the serializer gives back the envelope
    and the inner payload it was given, [sendMessage] publishes one
    envelope on the chat's topic, and [handleIncoming] on that envelope
    stores, at the receiver, a delivered message with the sender's
    message id, body and reply reference, acknowledges it to the sender's
    inbox under that id, and leaves the receiver's receive chain equal to
    the sender's send chain, one counter further. *)
Theorem text_reaches_the_peer
    (wA wB : World) (cid a b text : string) (reply : option string)
    (chatA chatB : ChatRecord) (sA sB : SessionRecord)
    (ck c aBytes : bytes) :
  let inner := JInner (inner_text text reply) in
  let envelope := JEnvelope (textEnvelope cid a (sendN sA) c wA) in
  (* the sender *)
  chatKey (store wA) = Some a →
  truthy a = true →
  is_Some (unlockedSecretKey (store wA)) →
  List.find (λ item, String.eqb (chat_id item) cid) (chats (store wA))
    = Some chatA →
  accepted chatA = true →
  chat_kind chatA = dm →
  findPeer chatA (store wA) = Some b →
  truthy b = true →
  sessions (store wA) !! cid = Some sA →
  base64ToBytes (sendCK sA) = Ok ck →
  uuid (idDraws wA) ≠ EmptyString →
  (* the receiver *)
  chatKey (store wB) = Some b →
  a ≠ b →
  is_Some (unlockedSecretKey (store wB)) →
  is_Some (identity (store wB)) →
  List.find (λ item, String.eqb (chat_id item) cid) (chats (store wB))
    = Some chatB →
  sessions (store wB) !! cid = Some sB →
  recvCK sB = sendCK sA →
  recvN sB = sendN sA →
  base58ToBytes a = Ok aBytes →
  (* the box and the serializer *)
  secretbox (encodePayload inner) (entropy (byteDraws wA) 24)
            (hmacSha256 ck MSG_LABEL) = Ok c →
  decodePayload (encodePayload inner) = inner →
  decodePayload (encodePayload envelope) = envelope →
  ∃ wA' wB' sA' sB' mA mB,
    awaited (Async.sendMessage cid text reply) wA = (Ok tt, wA') ∧
    trace wA' = trace wA ++
      [Publish (dmTopic cid) (encodePayload envelope);
       PutSession sA'; PutMessage mA] ∧
    handleIncoming (encodePayload envelope) wB = (Ok tt, wB') ∧
    trace wB' = trace wB ++
      [PutSession sB';
       Publish (inboxTopic aBytes)
         (encodePayload (JEnvelope
            (dm_ack cid (message_id mA) (Some b) a (clock (clockReads wB)))));
       PutMessage mB] ∧
    messages (store wA') = updateMessageList (messages (store wA)) cid mA ∧
    messages (store wB') = updateMessageList (messages (store wB)) cid mB ∧
    idb_messages (idb wB') !! message_id mA = Some mB ∧
    message_id mB = message_id mA ∧
    body mA = Some text ∧ body mB = Some text ∧
    replyTo mA = reply ∧ replyTo mB = reply ∧
    message_fromPubKey mA = a ∧ message_fromPubKey mB = a ∧
    status mA = Some msg_sent ∧ status mB = Some msg_delivered ∧
    message_n mA = Some (sendN sA) ∧
    sessions (store wA') !! cid = Some sA' ∧
    sessions (store wB') !! cid = Some sB' ∧
    sendN sA' = sendN sA + 1 ∧
    recvN sB' = sendN sA' ∧
    recvCK sB' = sendCK sA'.
Proof.
  intros inner envelope HmeA HtA HskA HfindA Hacc Hkind Hpeer HtB HsA Hck
    Hid HmeB Hne HskB HidentB HfindB HsB Hmirror HN Hb58 Hc Hinner Henv.
  destruct (sendMessage_run wA cid a b text reply chatA sA ck c
              HmeA HtA HskA HfindA Hacc Hkind Hpeer HtB HsA Hck Hc)
    as (wA' & HrunA & HtrA & HssA & HmsA).
  assert (truthy (uuid (idDraws wA)) = true) as Htid.
  { unfold truthy. by destruct (String.eqb_spec (uuid (idDraws wA)) ""). }
  rewrite <- Hmirror in Hck.
  destruct (handleIncoming_text wB (encodePayload envelope) cid
              (uuid (idDraws wA)) a b text reply (sendN sA)
              (entropy (byteDraws wA) 24) c ck (encodePayload inner) aBytes
              (clock (clockReads wA)) chatB sB)
    as (wB' & HrunB & HtrB & HssB & HmsB & HdbB & _);
    [exact Henv | done | done | done | done | done | done | done | done | done
    | by apply secretbox_opens | exact Hinner | done | done |].
  eexists wA', wB', _, _, _, _.
  split; [exact HrunA|]. split; [exact HtrA|].
  split; [exact HrunB|]. split; [exact HtrB|].
  split; [exact HmsA|]. split; [exact HmsB|].
  split; [by rewrite HdbB; cbn; rewrite lookup_insert_eq|].
  rewrite HssA, HssB, !lookup_insert_eq. cbn.
  repeat split; done.
Qed.

End Delivery.

Section Attachments.
Context `{Primitives} `{Environment}.

Hypothesis base64_roundtrip : ∀ b, base64ToBytes (bytesToBase64 b) = Ok b.

Local Instance key_le_total' : Total key_le.
Proof. intros a b. unfold key_le. lia. Qed.
Local Instance key_le_trans' : Transitive key_le.
Proof. intros a b c. unfold key_le. lia. Qed.

Lemma mergeChunks_entries (chunkAt : nat → bytes) (l : list nat) :
  mergeChunks (chunkEntry chunkAt <$> l) = Ok (mjoin (chunkAt <$> l)).
Proof.
  induction l as [|i l IH]; [done|].
  cbn. rewrite base64_roundtrip. cbn.
  change (mergeChunks (chunkEntry chunkAt <$> l)
          ≫= (λ more, Ok (chunkAt i ++ more))
          = Ok (chunkAt i ++ mjoin (chunkAt <$> l))).
  by rewrite IH.
Qed.

Lemma sorted_entries (chunkAt : nat → bytes) (k : nat) (m : gmap nat string) :
  (∀ j, m !! j
        = if decide (j < k) then Some (bytesToBase64 (chunkAt j)) else None) →
  merge_sort key_le (map_to_list m) = chunkEntry chunkAt <$> seq 0 k.
Proof.
  intros Hm.
  assert (∀ x, x ∈ map_to_list m ↔ x ∈ chunkEntry chunkAt <$> seq 0 k) as Hel.
  { intros [j v]. rewrite elem_of_map_to_list, Hm, list_elem_of_fmap.
    unfold chunkEntry. split.
    - case_decide; [|done]. intros [= <-]. exists j. split; [done|].
      apply elem_of_seq. lia.
    - intros (i & [= -> ->] & Hi). apply elem_of_seq in Hi.
      by rewrite decide_True by lia. }
  apply (StronglySorted_unique_strong key_le).
  - intros x1 x2 H1 H2 Hle1 Hle2.
    rewrite merge_sort_Permutation in H1. apply Hel in H1.
    apply list_elem_of_fmap in H1 as (i1 & -> & _).
    apply list_elem_of_fmap in H2 as (i2 & -> & _).
    unfold key_le, chunkEntry in *. simpl in *.
    by replace i2 with i1 by lia.
  - apply StronglySorted_merge_sort; apply _.
  - apply (StronglySorted_fmap _ le); [by intros|].
    clear. generalize 0. induction k as [|k IH]; intros a; [constructor|].
    cbn. constructor; [apply IH|].
    apply Forall_forall. intros x Hx. apply elem_of_seq in Hx. lia.
  - rewrite merge_sort_Permutation.
    apply NoDup_Permutation; [apply NoDup_map_to_list| |exact Hel].
    apply (NoDup_fmap_2_strong _); [|apply NoDup_seq].
    by intros i1 i2 _ _ [= ->].
Qed.

(** The indices seen so far, as a set. *)
Lemma holdsChunks_size (chunkAt : nat → bytes) (got : list nat)
    (m : gmap nat string) :
  (∀ j, m !! j
        = if decide (j ∈ got) then Some (bytesToBase64 (chunkAt j)) else None) →
  size m = size (list_to_set got : gset nat).
Proof.
  intros Hm. rewrite <- size_dom. f_equal. apply set_eq. intros j.
  rewrite elem_of_dom, Hm, elem_of_list_to_set.
  case_decide; split; done.
Qed.

Lemma all_indices (k : nat) (got : list nat) :
  (∀ i, i ∈ got → i < k) →
  size (list_to_set got : gset nat) = k →
  ∀ j, j ∈ got ↔ j < k.
Proof.
  intros Hlt Hsize j.
  assert ((list_to_set got : gset nat) ≡ set_seq 0 k) as Heq.
  { apply set_subseteq_size_equiv.
    - intros i Hi. apply elem_of_list_to_set in Hi.
      apply elem_of_set_seq. specialize (Hlt i Hi). lia.
    - rewrite size_set_seq. lia. }
  rewrite <- (elem_of_list_to_set (C := gset nat)), Heq, elem_of_set_seq. lia.
Qed.

Ltac world_simpl :=
  cbn [getState setState getIdb putIdb emit now randomId randomBytes
       publishPayload setSession setMessage setAttachment mret M_ret
       store idb subscribedTopics trace clockReads idDraws byteDraws fst snd
       set_requests set_chats set_messages set_reactions set_attachments
       set_sessions set_typing set_errors
       identity unlockedSecretKey chatKey state_inboxTopic requests chats
       messages reactions attachments sessions typing activeChatId wakuReady
       errors
       idb_identity idb_requests idb_requestStates idb_chats idb_sessions
       idb_messages idb_reactions idb_attachments].
Ltac run_step := rewrite bind_run; world_simpl.

Lemma seen_size_le (k : nat) (got : list nat) :
  (∀ i, i ∈ got → i < k) → size (list_to_set got : gset nat) ≤ k.
Proof.
  intros Hlt. rewrite <- (size_set_seq (C := gset nat) 0 k).
  apply subseteq_size. intros i Hi. apply elem_of_list_to_set in Hi.
  apply elem_of_set_seq. specialize (Hlt i Hi). lia.
Qed.

(** One chunk message handled on a store that holds the attachment. *)
Lemma chunk_step (w : World) (cid sender aid : string) (k : nat)
    (chunkAt : nat → bytes) (got : list nat) (i : nat)
    (att : AttachmentRecord) :
  attachments (store w) !! aid = Some att →
  attachment_id att = aid →
  attachment_totalChunks att = Some k →
  holdsChunks chunkAt got att →
  (∀ j, j ∈ got → j < k) →
  i < k →
  let n := size (list_to_set (got ++ [i]) : gset nat) in
  let att' :=
    mkAttachment aid (attachment_messageId att) (attachment_name att)
      (mime att) (attachment_size att)
      (if decide (n = k)
       then Some (bytesToBase64 (mjoin (chunkAt <$> seq 0 k)))
       else attachment_data att)
      (Some k) (Some n)
      (Some (<[i := bytesToBase64 (chunkAt i)]> (default ∅ (chunks att))))
      (bool_decide (Some n = Some k)) in
  ∃ w',
    handleInnerPayload cid sender
      (JInner (inner_attachment_chunk aid i k (bytesToBase64 (chunkAt i))))
      None w = (Ok tt, w') ∧
    attachments (store w') !! aid = Some att' ∧
    idb_attachments (idb w') !! aid = Some att' ∧
    holdsChunks chunkAt (got ++ [i]) att'.
Proof.
  intros Hatt Hid Htotal Hhold Hlt Hi n att'.
  assert (holdsChunks chunkAt (got ++ [i]) att') as Hhold'.
  { intros j. cbn. destruct (decide (j = i)) as [->|Hne].
    - rewrite lookup_insert_eq, decide_True; [done|].
      apply elem_of_app. right. by apply list_elem_of_singleton.
    - rewrite lookup_insert_ne by done. rewrite Hhold.
      destruct (decide (j ∈ got)) as [Hin|Hout].
      + rewrite decide_True; [done|]. apply elem_of_app. by left.
      + rewrite decide_False; [done|]. intros Hj.
        apply elem_of_app in Hj as [?|Hj]; [done|].
        by apply list_elem_of_singleton in Hj. }
  assert (size (<[i := bytesToBase64 (chunkAt i)]> (default ∅ (chunks att)))
          = n) as Hsize
    by exact (holdsChunks_size chunkAt (got ++ [i]) _ Hhold').
  assert (∀ j, j ∈ got ++ [i] → j < k) as Hlt'.
  { intros j Hj. apply elem_of_app in Hj as [Hj|Hj]; [by apply Hlt|].
    apply list_elem_of_singleton in Hj. by subst. }
  destruct w as [st db sub tr cr ir br]; cbn [store] in *.
  subst att'. destruct (decide (n = k)) as [Hn|Hn].
  - eexists. split.
    { unfold handleInnerPayload. run_step. rewrite Hatt. run_step.
      rewrite Hsize, Htotal. fold n.
      rewrite bool_decide_true by congruence.
      rewrite bind_run. rewrite bind_run. unfold liftExc at 1.
      rewrite (sorted_entries chunkAt k).
      2:{ intros j. pose proof (Hhold' j) as Hj. cbn in Hj. rewrite Hj.
          destruct (all_indices k (got ++ [i]) Hlt' Hn j) as [H1 H2].
          destruct (decide (j ∈ got ++ [i])), (decide (j < k)); try done.
          - by specialize (H1 ltac:(done)).
          - by specialize (H2 ltac:(done)). }
      rewrite mergeChunks_entries. world_simpl.
      run_step. rewrite Hid. reflexivity. }
    world_simpl. rewrite !lookup_insert_eq.
    rewrite bool_decide_true by congruence. done.
  - eexists. split.
    { unfold handleInnerPayload. run_step. rewrite Hatt. run_step.
      rewrite Hsize, Htotal. fold n.
      rewrite bool_decide_false by congruence.
      run_step. run_step. rewrite Hid. reflexivity. }
    world_simpl. rewrite !lookup_insert_eq.
    rewrite bool_decide_false by congruence. done.
Qed.

Lemma chunksSeen_step (w : World) (cid sender aid : string) (k : nat)
    (chunkAt : nat → bytes) (a0 : AttachmentRecord) (got : list nat) (i : nat)
    (att : AttachmentRecord) :
  chunksSeen aid k chunkAt a0 got w att →
  (∀ j, j ∈ got → j < k) →
  i < k →
  ∃ w' att',
    handleInnerPayload cid sender
      (JInner (inner_attachment_chunk aid i k (bytesToBase64 (chunkAt i))))
      None w = (Ok tt, w') ∧
    chunksSeen aid k chunkAt a0 (got ++ [i]) w' att'.
Proof.
  intros (Hatt & Hid & Htotal & Hhold & Hdata & Hm & Hn & Hmime & Hsz & _)
    Hlt Hi.
  destruct (chunk_step w cid sender aid k chunkAt got i att
              Hatt Hid Htotal Hhold Hlt Hi)
    as (w' & Hrun & Hst & Hdb & Hhold').
  eexists w', _. split; [exact Hrun|].
  split; [exact Hst|]. cbn.
  split; [done|]. split; [done|]. split; [exact Hhold'|].
  assert (size (list_to_set got : gset nat)
          ≤ size (list_to_set (got ++ [i]) : gset nat)) as Hmono.
  { apply subseteq_size. intros j. rewrite !elem_of_list_to_set, elem_of_app.
    by left. }
  assert (size (list_to_set (got ++ [i]) : gset nat) ≤ k) as Hbound.
  { apply seen_size_le. intros j Hj.
    apply elem_of_app in Hj as [Hj|Hj]; [by apply Hlt|].
    apply list_elem_of_singleton in Hj. by subst. }
  split.
  { destruct (decide (size (list_to_set (got ++ [i]) : gset nat) = k));
      [done|]. rewrite Hdata. by rewrite decide_False by lia. }
  split; [done|]. split; [done|]. split; [done|]. split; [done|].
  intros _. split; [done|]. split; [|exact Hdb].
  apply bool_decide_ext. split; congruence.
Qed.

Lemma chunksSeen_run (cid sender aid : string) (k : nat)
    (chunkAt : nat → bytes) (a0 : AttachmentRecord) (rest : list nat) :
  ∀ got w att,
    chunksSeen aid k chunkAt a0 got w att →
    (∀ j, j ∈ got ++ rest → j < k) →
    ∃ w' att',
      receiveChunks cid sender aid k chunkAt rest w = (Ok tt, w') ∧
      chunksSeen aid k chunkAt a0 (got ++ rest) w' att'.
Proof.
  induction rest as [|i rest IH]; intros got w att Hseen Hlt.
  - exists w, att. rewrite app_nil_r. by split.
  - destruct (chunksSeen_step w cid sender aid k chunkAt a0 got i att Hseen)
      as (w1 & att1 & Hrun1 & Hseen1).
    { intros j Hj. apply Hlt, elem_of_app. by left. }
    { apply Hlt, elem_of_app. right. by left. }
    destruct (IH (got ++ [i]) w1 att1 Hseen1) as (w' & att' & Hrun & Hseen').
    { by rewrite <- app_assoc. }
    exists w', att'. rewrite <- app_assoc in Hseen'. split; [|exact Hseen'].
    unfold receiveChunks in *. cbn [forEachM]. rewrite bind_run, Hrun1.
    exact Hrun.
Qed.


End Attachments.

Section RekeyTheory.
Context `{Primitives} `{Environment}.

Hypothesis base64_roundtrip : ∀ b, base64ToBytes (bytesToBase64 b) = Ok b.

Ltac world_simpl :=
  cbn [getState setState getIdb putIdb emit now randomId randomBytes
       publishPayload setSession setMessage mret M_ret
       store idb subscribedTopics trace clockReads idDraws byteDraws fst snd
       set_requests set_chats set_messages set_reactions set_attachments
       set_sessions set_typing set_errors
       identity unlockedSecretKey chatKey state_inboxTopic requests chats
       messages reactions attachments sessions typing activeChatId wakuReady
       errors
       idb_identity idb_requests idb_requestStates idb_chats idb_sessions
       idb_messages idb_reactions idb_attachments].
Ltac run_step := rewrite bind_run; world_simpl.

(** The envelope of the rekey event sent from [w]. *)
Lemma rekeySession_run (w : World) (cid a p : string) (chat : ChatRecord)
    (sk pb shared c : bytes) :
  chatKey (store w) = Some a →
  truthy a = true →
  unlockedSecretKey (store w) = Some sk →
  List.find (λ item, String.eqb (chat_id item) cid) (chats (store w))
    = Some chat →
  chat_id chat = cid →
  chat_kind chat = dm →
  findPeer chat (store w) = Some p →
  truthy p = true →
  base58ToBytes p = Ok pb →
  box_before pb sk = Ok shared →
  let fresh := resetTo cid dm a p shared in
  let key :=
    hmacSha256
      (ck_send (deriveChainKeys (deriveRootKey shared cid) a p)) MSG_LABEL in
  secretbox (encodePayload (JInner inner_rekey)) (entropy (byteDraws w) 24) key
    = Ok c →
  let fresh' :=
    withSend fresh
      (bytesToBase64
         (hmacSha256
            (ck_send (deriveChainKeys (deriveRootKey shared cid) a p))
            CK_LABEL)) 1 in
  let envelope :=
    dm_message cid (uuid (S (idDraws w))) (Some a) 0
      (bytesToBase64 (entropy (byteDraws w) 24)) (bytesToBase64 c)
      (clock (S (clockReads w))) in
  ∃ w',
    awaited (Rekey.rekeySession cid) w = (Ok tt, w') ∧
    trace w' = trace w ++
      [PutSession fresh; PutSession fresh;
       Publish (dmTopic cid) (encodePayload (JEnvelope envelope));
       PutSession fresh'] ∧
    sessions (store w') = <[cid := fresh']> (sessions (store w)).
Proof.
  intros Hme Htruthy Hsk Hfind Hid Hkind Hpeer Htp Hb58 Hdh fresh key Hc
    fresh' envelope.
  destruct w as [st db sub tr cr ir br]; cbn [store byteDraws idDraws
    clockReads trace] in *.
  eexists. split.
  { unfold awaited. rewrite runTask_Segment. unfold Rekey.rekeySession.
    run_step. rewrite Hfind, Hme, Htruthy, Hpeer, Htp, Hkind.
    unfold Rekey.resetSession. run_step. rewrite Hsk, Hme, Htruthy.
    rewrite bind_run; unfold liftExc at 1; rewrite Hb58.
    rewrite bind_run; unfold liftExc at 1; rewrite Hdh.
    unfold awaitPure. rewrite bind_run. unfold liftExc at 1. world_simpl.
    rewrite runTask_Segment. rewrite bind_run. unfold liftExc at 1.
    world_simpl. rewrite runTask_Segment. unfold awaitIO at 1. world_simpl.
    rewrite runTask_Segment. run_step. rewrite runTask_Segment.
    run_step. unfold returnTo at 1. world_simpl.
    rewrite runTask_Segment. unfold awaitIO at 1. world_simpl.
    rewrite runTask_Segment. run_step. rewrite runTask_Segment.
    rewrite bind_run. unfold createSystemMessage. do 2 run_step.
    run_step.
    (* the event *)
    unfold Async.sendEventMessage. run_step.
    unfold findPeer in Hpeer |- *. world_simpl. rewrite Hpeer, Htp.
    rewrite <- runTask_Segment, Hid.
    rewrite (getSendKey_run _ _ _ _ fresh
               (ck_send (deriveChainKeys (deriveRootKey shared cid) a p)));
      [|by cbn; rewrite lookup_insert_eq | by cbn; rewrite base64_roundtrip].
    rewrite runTask_Segment. cbn [fst snd].
    run_step. rewrite bind_run; unfold liftExc at 1. fold key. rewrite Hc.
    rewrite bind_run. unfold orRandomId. world_simpl. run_step.
    unfold awaitIO. world_simpl.
    rewrite runTask_Segment. run_step. rewrite runTask_Segment. world_simpl.
    rewrite runTask_Segment. run_step. rewrite runTask_Segment.
    run_step. unfold returnTo. world_simpl. rewrite runTask_Segment.
    world_simpl. rewrite runTask_Segment. rewrite Hme. reflexivity. }
  world_simpl. split; [by rewrite <- !app_assoc|].
  rewrite !insert_insert_eq. reflexivity.
Qed.

Lemma handleIncoming_missed (w : World) (payload : bytes)
    (cid id sender me : string) (n : nat) (nonce64 c64 : string)
    (timestamp : Z) (chat : ChatRecord) (s : SessionRecord) :
  decodePayload payload
    = JEnvelope (dm_message cid id (Some sender) n nonce64 c64 timestamp) →
  chatKey (store w) = Some me →
  truthy me = true →
  sender ≠ me →
  is_Some (unlockedSecretKey (store w)) →
  is_Some (identity (store w)) →
  List.find (λ item, String.eqb (chat_id item) cid) (chats (store w))
    = Some chat →
  sessions (store w) !! cid = Some s →
  n < recvN s →
  skippedKeys s !! n = None →
  ∃ w',
    handleIncoming payload w = (Ok tt, w') ∧
    sessions (store w') = sessions (store w) ∧
    idb_sessions (idb w') = idb_sessions (idb w) ∧
    messages (store w')
      = updateMessageList (messages (store w)) cid
          (withKeyMismatch (keyMismatchNotice cid w)) ∧
    trace w' = trace w ++ [PutMessage (keyMismatchNotice cid w)].
Proof.
  intros Hdec Hme Htruthy Hne [sk Hsk] [ident Hident] Hfind Hs Hn Hcache.
  destruct (reportKeyMismatch_run w cid) as (w' & Hrun & Hss & Hdb & Hms & Htr).
  exists w'. split; [|done].
  unfold handleIncoming. run_step.
  rewrite Hdec, Hme, Hsk, Hident, Htruthy.
  unfold handleEncryptedMessage. run_step.
  rewrite Hme, bool_decide_false by congruence.
  rewrite Hfind. rewrite bind_run.
  unfold ensureSession at 1. run_step. rewrite Hs. run_step.
  rewrite bind_run. unfold liftExc at 1. unfold deriveReceiveKey.
  destruct (Nat.ltb_spec n (recvN s)) as [_|?]; [|lia].
  rewrite Hcache. cbn [messageKey]. exact Hrun.
Qed.

(** X21. A rekey does not reach a peer that has received a message.
    [rekeySession] replaces the sender's session by the one seeded from
    the Diffie-Hellman secret, with both counters at 0, and sends the
    [rekey] event on it: the envelope carries [n = 0] and is sealed under
    the first message key of the seeded send chain, whatever the counters
    of the replaced session were.  A receiver whose session has consumed
    counter 0 and does not cache its key finds no key for that envelope:
    it adds the key-mismatch notice, keeps its session, resets nothing and
    acknowledges nothing. *)
Theorem rekey_lost_on_used_session
    (wA wB : World) (cid a b : string) (chatA chatB : ChatRecord)
    (sB : SessionRecord) (sk bBytes shared c : bytes) :
  let chain := ck_send (deriveChainKeys (deriveRootKey shared cid) a b) in
  let envelope :=
    JEnvelope
      (dm_message cid (uuid (S (idDraws wA))) (Some a) 0
         (bytesToBase64 (entropy (byteDraws wA) 24)) (bytesToBase64 c)
         (clock (S (clockReads wA)))) in
  (* the sender *)
  chatKey (store wA) = Some a →
  truthy a = true →
  unlockedSecretKey (store wA) = Some sk →
  List.find (λ item, String.eqb (chat_id item) cid) (chats (store wA))
    = Some chatA →
  chat_id chatA = cid →
  chat_kind chatA = dm →
  findPeer chatA (store wA) = Some b →
  truthy b = true →
  base58ToBytes b = Ok bBytes →
  box_before bBytes sk = Ok shared →
  secretbox (encodePayload (JInner inner_rekey)) (entropy (byteDraws wA) 24)
            (hmacSha256 chain MSG_LABEL) = Ok c →
  (* the receiver *)
  chatKey (store wB) = Some b →
  a ≠ b →
  is_Some (unlockedSecretKey (store wB)) →
  is_Some (identity (store wB)) →
  List.find (λ item, String.eqb (chat_id item) cid) (chats (store wB))
    = Some chatB →
  sessions (store wB) !! cid = Some sB →
  0 < recvN sB →
  skippedKeys sB !! 0 = None →
  decodePayload (encodePayload envelope) = envelope →
  ∃ wA' wB' sA',
    awaited (Rekey.rekeySession cid) wA = (Ok tt, wA') ∧
    trace wA' = trace wA ++
      [PutSession (resetTo cid dm a b shared);
       PutSession (resetTo cid dm a b shared);
       Publish (dmTopic cid) (encodePayload envelope);
       PutSession sA'] ∧
    sessions (store wA') !! cid = Some sA' ∧
    sendN sA' = 1 ∧ recvN sA' = 0 ∧ skippedKeys sA' = ∅ ∧
    sendCK sA' = bytesToBase64 (hmacSha256 chain CK_LABEL) ∧
    handleIncoming (encodePayload envelope) wB = (Ok tt, wB') ∧
    sessions (store wB') = sessions (store wB) ∧
    idb_sessions (idb wB') = idb_sessions (idb wB) ∧
    messages (store wB')
      = updateMessageList (messages (store wB)) cid
          (withKeyMismatch (keyMismatchNotice cid wB)) ∧
    trace wB' = trace wB ++ [PutMessage (keyMismatchNotice cid wB)].
Proof.
  intros chain envelope HmeA HtA HskA HfindA HidA Hkind Hpeer HtB Hb58 Hdh Hc
    HmeB Hne HskB HidentB HfindB HsB Hused Hcache Henv.
  destruct (rekeySession_run wA cid a b chatA sk bBytes shared c
              HmeA HtA HskA HfindA HidA Hkind Hpeer HtB Hb58 Hdh Hc)
    as (wA' & HrunA & HtrA & HssA).
  destruct (handleIncoming_missed wB (encodePayload envelope) cid
              (uuid (S (idDraws wA))) a b 0
              (bytesToBase64 (entropy (byteDraws wA) 24)) (bytesToBase64 c)
              (clock (S (clockReads wA))) chatB sB)
    as (wB' & HrunB & HssB & HdbB & HmsB & HtrB); try done.
  eexists wA', wB', _.
  split; [exact HrunA|]. split; [exact HtrA|].
  split; [by rewrite HssA, lookup_insert_eq|].
  by repeat split.
Qed.

(** X22. Rekeying restores the keys the conversation started with.  The
    session [rekeySession] leaves is the session a newly seeded
    conversation has after its first send: [ensureSession], in any world
    of the same identity that holds no session for the chat, seeds the
    session [rekeySession] resets to, the [rekey] event is sealed under
    the key [advanceSend] derives from it, the key of counter 0, and the
    session stored after the event is the one that call returns. *)
Theorem rekey_restores_initial_keys
    (w0 wA : World) (cid a b : string) (chatA : ChatRecord)
    (sk bBytes shared c : bytes) :
  (* a world before the conversation *)
  sessions (store w0) !! cid = None →
  idb_sessions (idb w0) !! cid = None →
  chatKey (store w0) = Some a →
  unlockedSecretKey (store w0) = Some sk →
  (* the sender, later *)
  chatKey (store wA) = Some a →
  truthy a = true →
  unlockedSecretKey (store wA) = Some sk →
  List.find (λ item, String.eqb (chat_id item) cid) (chats (store wA))
    = Some chatA →
  chat_id chatA = cid →
  chat_kind chatA = dm →
  findPeer chatA (store wA) = Some b →
  truthy b = true →
  base58ToBytes b = Ok bBytes →
  box_before bBytes sk = Ok shared →
  secretbox (encodePayload (JInner inner_rekey)) (entropy (byteDraws wA) 24)
    (hmacSha256 (ck_send (deriveChainKeys (deriveRootKey shared cid) a b))
                MSG_LABEL) = Ok c →
  ∃ s0 w0' key0 s1 wA' pre post,
    ensureSession cid dm (Some b) w0 = (Ok s0, w0') ∧
    advanceSend s0 = Ok (key0, s1) ∧
    awaited (Rekey.rekeySession cid) wA = (Ok tt, wA') ∧
    sessions (store wA') !! cid = Some s1 ∧
    secretbox (encodePayload (JInner inner_rekey))
              (entropy (byteDraws wA) 24) key0 = Ok c ∧
    trace wA' = trace wA ++ pre ++
      [Publish (dmTopic cid)
         (encodePayload (JEnvelope
            (dm_message cid (uuid (S (idDraws wA))) (Some a) 0
               (bytesToBase64 (entropy (byteDraws wA) 24)) (bytesToBase64 c)
               (clock (S (clockReads wA))))))] ++ post ∧
    Forall (λ e, isPublish e = false) (pre ++ post).
Proof.
  intros Hs0 Hi0 Hme0 Hsk0 HmeA HtA HskA HfindA HidA Hkind Hpeer HtB Hb58 Hdh
    Hc.
  destruct (rekeySession_run wA cid a b chatA sk bBytes shared c
              HmeA HtA HskA HfindA HidA Hkind Hpeer HtB Hb58 Hdh Hc)
    as (wA' & HrunA & HtrA & HssA).
  eexists (resetTo cid dm a b shared), _, _, _, wA',
    [PutSession (resetTo cid dm a b shared);
     PutSession (resetTo cid dm a b shared)], [_].
  split.
  { unfold ensureSession. rewrite bind_run. cbn [getState]. rewrite Hs0.
    rewrite bind_run. unfold getSession. rewrite bind_run. cbn [getIdb].
    rewrite Hi0. cbn [mret M_ret].
    unfold seedSession. rewrite bind_run. cbn [getState].
    rewrite Hsk0, Hme0, HtA. rewrite bind_run. cbn [mret M_ret].
    rewrite bind_run. unfold liftExc at 1. rewrite Hb58.
    rewrite bind_run. unfold liftExc at 1. rewrite Hdh.
    reflexivity. }
  split.
  { unfold advanceSend, resetTo. cbn [sendCK].
    rewrite base64_roundtrip. reflexivity. }
  split; [exact HrunA|].
  split; [by rewrite HssA, lookup_insert_eq|].
  split; [exact Hc|].
  split; [exact HtrA|]. by repeat constructor.
Qed.

End RekeyTheory.

Section Updates.
Context `{Primitives} `{Environment}.

Lemma findMessage_only (st : ChatState) (cid : string)
    (before : list MessageRecord) (m : MessageRecord)
    (after : list MessageRecord) :
  onlyMessage (messages st) cid before m after →
  findMessage st cid (message_id m) = Some m.
Proof.
  intros [Hl Honly]. unfold findMessage.
  destruct (messages st !! cid) as [l|]; cbn in Hl;
    [|by destruct before]. subst l.
  induction before as [|x before IH]; cbn.
  - by rewrite String.eqb_refl.
  - destruct (String.eqb_spec (message_id x) (message_id m)) as [Heq|Hne].
    + by destruct (Honly x ltac:(by left)).
    + apply IH. intros y Hy. apply Honly. by right.
Qed.

Lemma mergeMessageUpdate_only (ms : gmap string (list MessageRecord))
    (cid : string) (before : list MessageRecord) (m : MessageRecord)
    (after : list MessageRecord) (f : MessageRecord → MessageRecord) :
  onlyMessage ms cid before m after →
  default [] (mergeMessageUpdate ms cid (message_id m) f !! cid)
    = before ++ f m :: after ∧
  ∀ other, other ≠ cid →
    mergeMessageUpdate ms cid (message_id m) f !! other = ms !! other.
Proof.
  intros [Hl Honly]. split.
  - unfold mergeMessageUpdate, messageListForChat.
    rewrite lookup_insert_eq. cbn [default]. rewrite Hl.
    rewrite fmap_app, fmap_cons, String.eqb_refl.
    assert (∀ l : list MessageRecord,
      (∀ x, x ∈ l → message_id x ≠ message_id m) →
      (λ item, if String.eqb (message_id item) (message_id m)
               then f item else item) <$> l = l) as Hsame.
    { intros l Hl'. rewrite <- (list_fmap_id l) at 2. apply list_fmap_ext.
      intros i x Hx.
      destruct (String.eqb_spec (message_id x) (message_id m)) as [Heq|];
        [|done].
      destruct (Hl' x); [|done]. by eapply list_elem_of_lookup_2. }
    rewrite !Hsame; [done| |].
    + intros x Hx. apply Honly, elem_of_app. by right.
    + intros x Hx. apply Honly, elem_of_app. by left.
  - intros other Hne. unfold mergeMessageUpdate.
    by rewrite lookup_insert_ne.
Qed.

Ltac world_simpl :=
  cbn [getState setState getIdb putIdb emit now randomId randomBytes
       publishPayload setSession setMessage mret M_ret
       store idb subscribedTopics trace clockReads idDraws byteDraws fst snd
       set_requests set_chats set_messages set_reactions set_attachments
       set_sessions set_typing set_errors
       identity unlockedSecretKey chatKey state_inboxTopic requests chats
       messages reactions attachments sessions typing activeChatId wakuReady
       errors
       idb_identity idb_requests idb_requestStates idb_chats idb_sessions
       idb_messages idb_reactions idb_attachments].
Ltac run_step := rewrite bind_run; world_simpl.

(** X23. An acknowledgement marks the message delivered.  On a [dm_ack]
    for a message the chat holds once, [handleIncoming] writes the message
    with status "delivered" to the database and puts it in the message's
    place in the conversation; every other message, the order of the
    list, the other chats and the sessions stay as they are, and nothing
    is published.  Whoever the envelope names as its sender: the
    acknowledgement is not tied to the peer of the chat. *)
Theorem ack_marks_delivered (w : World) (payload : bytes)
    (cid : string) (from : option string) (to : string) (timestamp : Z)
    (before : list MessageRecord) (m : MessageRecord)
    (after : list MessageRecord) :
  decodePayload payload
    = JEnvelope (dm_ack cid (message_id m) from to timestamp) →
  (∃ me, chatKey (store w) = Some me ∧ truthy me = true) →
  is_Some (unlockedSecretKey (store w)) →
  is_Some (identity (store w)) →
  onlyMessage (messages (store w)) cid before m after →
  ∃ w',
    handleIncoming payload w = (Ok tt, w') ∧
    default [] (messages (store w') !! cid)
      = before ++ withStatus msg_delivered m :: after ∧
    (∀ other, other ≠ cid →
       messages (store w') !! other = messages (store w) !! other) ∧
    idb_messages (idb w')
      = <[message_id m := withStatus msg_delivered m]> (idb_messages (idb w)) ∧
    sessions (store w') = sessions (store w) ∧
    chats (store w') = chats (store w) ∧
    trace w' = trace w ++ [PutMessage (withStatus msg_delivered m)].
Proof.
  intros Hdec (me & Hme & Htruthy) [sk Hsk] [ident Hident] Honly.
  destruct (mergeMessageUpdate_only (messages (store w)) cid before m after
              (withStatus msg_delivered) Honly) as [Hlist Hother].
  eexists. split.
  { unfold handleIncoming. run_step.
    rewrite Hdec, Hme, Hsk, Hident, Htruthy.
    unfold handleAck. rewrite (findMessage_only _ _ before m after Honly).
    run_step. reflexivity. }
  world_simpl. split; [exact Hlist|]. split; [exact Hother|]. done.
Qed.

(** X24. An edit or a deletion sent by a participant rewrites the message
    with that id, whoever wrote it.  On an [edit] event the chat's one
    message with the id gets the new body and [edited = true], on a
    [delete] event the empty body and [deleted = true]; the record keeps
    its author, its place in the conversation and its other fields, the
    database gets the same record, the other messages stay as they are and
    nothing is published.  The handler never compares the sender of the
    event with the author of the message. *)
Theorem peer_rewrites_message (w : World) (cid sender : string)
    (messageId : option string)
    (before : list MessageRecord) (m : MessageRecord)
    (after : list MessageRecord) (ev : Inner) (m' : MessageRecord) :
  onlyMessage (messages (store w)) cid before m after →
  (∃ newBody, ev = inner_edit (message_id m) newBody ∧ m' = withEdit newBody m)
  ∨ (ev = inner_delete (message_id m) ∧ m' = withDeleted m) →
  ∃ w',
    handleInnerPayload cid sender (JInner ev) messageId w = (Ok tt, w') ∧
    default [] (messages (store w') !! cid) = before ++ m' :: after ∧
    (∀ other, other ≠ cid →
       messages (store w') !! other = messages (store w) !! other) ∧
    idb_messages (idb w') = <[message_id m := m']> (idb_messages (idb w)) ∧
    message_fromPubKey m' = message_fromPubKey m ∧
    message_id m' = message_id m ∧
    message_timestamp m' = message_timestamp m ∧
    sessions (store w') = sessions (store w) ∧
    trace w' = trace w ++ [PutMessage m'].
Proof.
  intros Honly [(newBody & -> & ->)|[-> ->]].
  - destruct (mergeMessageUpdate_only (messages (store w)) cid before m after
                (withEdit newBody) Honly) as [Hlist Hother].
    eexists. split.
    { unfold handleInnerPayload. run_step.
      rewrite (findMessage_only _ _ before m after Honly).
      run_step. reflexivity. }
    world_simpl. split; [exact Hlist|]. split; [exact Hother|]. done.
  - destruct (mergeMessageUpdate_only (messages (store w)) cid before m after
                withDeleted Honly) as [Hlist Hother].
    eexists. split.
    { unfold handleInnerPayload. run_step.
      rewrite (findMessage_only _ _ before m after Honly).
      run_step. reflexivity. }
    world_simpl. split; [exact Hlist|]. split; [exact Hother|]. done.
Qed.

End Updates.

Section Accept.
Context `{Primitives} `{Environment}.

Hypothesis base64_roundtrip : ∀ b, base64ToBytes (bytesToBase64 b) = Ok b.

Ltac world_simpl :=
  cbn [getState setState getIdb putIdb emit now randomId randomBytes
       publishPayload setSession setMessage setChat setRequest
       setRequestState mret M_ret
       store idb subscribedTopics trace clockReads idDraws byteDraws fst snd
       set_requests set_chats set_messages set_reactions set_attachments
       set_sessions set_typing set_errors
       identity unlockedSecretKey chatKey state_inboxTopic requests chats
       messages reactions attachments sessions typing activeChatId wakuReady
       errors
       idb_identity idb_requests idb_requestStates idb_chats idb_sessions
       idb_messages idb_reactions idb_attachments].
Ltac run_step := rewrite bind_run; world_simpl.

Lemma find_replaced_chat (cid : string) (cs : list ChatRecord)
    (chat : ChatRecord) :
  chat_id chat = cid →
  List.find (λ item, String.eqb (chat_id item) cid)
    (filter (λ item, chat_id item ≠ cid) cs ++ [chat]) = Some chat.
Proof.
  intros Hid. induction cs as [|c cs IH].
  - cbn. by rewrite Hid, String.eqb_refl.
  - rewrite filter_cons. case_decide as Hc; [|exact IH].
    rewrite <- app_comm_cons. cbn [List.find].
    by destruct (String.eqb_spec (chat_id c) cid).
Qed.

Lemma ensureSubscription_run (topic : string) (w : World) :
  ∃ sub' tr',
    ensureSubscription topic w
      = (Ok tt, mkWorld (store w) (idb w) sub' tr'
                  (clockReads w) (idDraws w) (byteDraws w)) ∧
    topic ∈ sub'.
Proof.
  unfold ensureSubscription. destruct (decide (topic ∈ subscribedTopics w)).
  - exists (subscribedTopics w), (trace w). by destruct w.
  - eexists _, _. split; [reflexivity|]. set_solver.
Qed.

(** X25. An acceptance makes the engine ready to send.  On a [chat_accept]
    from [peer], for a conversation the engine holds no session of,
    [handleIncoming] records the accepted direct chat with [peer] (once,
    replacing an older record of it), subscribes to the conversation's
    topic, seeds the session from the Diffie-Hellman secret and publishes
    nothing; afterwards the store is ready to send on the conversation at
    counter 0.  This holds whether or not the store knows a request with
    the id the envelope names. *)
Theorem chat_accept_makes_ready (w : World) (payload : bytes)
    (requestId peer to conv me : string) (timestamp : Z)
    (sk peerBytes shared : bytes) :
  let cid := conversationIdFromPubKeys me peer in
  decodePayload payload
    = JEnvelope (chat_accept requestId peer to conv timestamp) →
  chatKey (store w) = Some me →
  truthy me = true →
  unlockedSecretKey (store w) = Some sk →
  is_Some (identity (store w)) →
  peer ≠ me →
  truthy peer = true →
  sessions (store w) !! cid = None →
  idb_sessions (idb w) !! cid = None →
  base58ToBytes peer = Ok peerBytes →
  box_before peerBytes sk = Ok shared →
  ∃ w' chat,
    handleIncoming payload w = (Ok tt, w') ∧
    readyToSend cid me peer 0 (store w') ∧
    sessions (store w') !! cid = Some (resetTo cid dm me peer shared) ∧
    idb_sessions (idb w') !! cid = Some (resetTo cid dm me peer shared) ∧
    chats (store w')
      = filter (λ item, chat_id item ≠ cid) (chats (store w)) ++ [chat] ∧
    chat_id chat = cid ∧ accepted chat = true ∧
    participants chat = [me; peer] ∧
    idb_chats (idb w') !! cid = Some chat ∧
    dmTopic cid ∈ subscribedTopics w' ∧
    quiet (handleIncoming payload).
Proof.
  intros cid Hdec Hme Htruthy Hsk [ident Hident] Hne Htp Hs Hdb Hb58 Hdh.
  assert (handleIncoming payload w
          = handleChatAccept (store w) me requestId peer w) as Hrun.
  { unfold handleIncoming. run_step.
    by rewrite Hdec, Hme, Hsk, Hident, Htruthy. }
  assert (quiet (handleIncoming payload)) as Hquiet.
  { unfold handleIncoming. apply quiet_bind; [apply quiet_getState|].
    intros st. rewrite Hdec.
    destruct (chatKey st) as [k|]; [|apply quiet_ret].
    destruct (unlockedSecretKey st); [|apply quiet_ret].
    destruct (identity st); [|apply quiet_ret].
    destruct (truthy k); [|apply quiet_ret].
    apply quiet_handleChatAccept. }
  rewrite Hrun. clear Hrun.
  destruct w as [st db sub tr cr ir br]; cbn [store idb] in *.
  pose (chat := mkChat cid dm (String.substring 0 12 peer) [me; peer] true
                  (clock cr) None None None).
  assert (∃ w',
    handleChatAccept st me requestId peer (mkWorld st db sub tr cr ir br)
      = (Ok tt, w') ∧
    chatKey (store w') = Some me ∧
    unlockedSecretKey (store w') = Some sk ∧
    chats (store w')
      = filter (λ item, chat_id item ≠ cid) (chats st) ++ [chat] ∧
    sessions (store w')
      = <[cid := resetTo cid dm me peer shared]> (sessions st) ∧
    idb_sessions (idb w')
      = <[cid := resetTo cid dm me peer shared]> (idb_sessions db) ∧
    idb_chats (idb w') = <[cid := chat]> (idb_chats db) ∧
    dmTopic cid ∈ subscribedTopics w')
    as (w' & Hrun & Hme' & Hsk' & Hchats & Hss & Hdbs & Hdbc & Hin).
  { unfold handleChatAccept. fold cid. do 3 run_step. fold chat.
    rewrite bind_run.
    match goal with
    | |- context [ensureSubscription ?t ?w0] =>
        destruct (ensureSubscription_run t w0) as (sub' & tr' & Hsub & Hin);
        rewrite Hsub
    end.
    world_simpl. rewrite bind_run.
    unfold ensureSession. run_step. rewrite Hs. run_step.
    unfold getSession. run_step. rewrite Hdb. world_simpl.
    unfold seedSession. run_step. rewrite Hsk, Hme, Htruthy.
    run_step. rewrite bind_run; unfold liftExc at 1; rewrite Hb58.
    rewrite bind_run; unfold liftExc at 1; rewrite Hdh.
    do 3 run_step.
    destruct (List.find (λ item, String.eqb (request_id item) requestId)
                (requests st));
      destruct (length (default [] (messages st !! cid)) =? 0)%nat;
      (eexists; split;
       [repeat run_step; unfold createSystemMessage; repeat run_step;
        reflexivity|]);
      world_simpl; repeat (split; [done|]); done. }
  exists w', chat. split; [exact Hrun|].
  split.
  { split; [exact Hme'|]. split; [exact Htruthy|].
    split; [by rewrite Hsk'|]. split.
    - exists chat. rewrite Hchats.
      split; [by apply find_replaced_chat|].
      split; [done|]. split; [done|]. split; [done|].
      split; [|exact Htp]. cbn.
      rewrite bool_decide_false by (by intros Hx; apply Hx).
      rewrite bool_decide_true; [done|]. congruence.
    - eexists _, _. rewrite Hss, lookup_insert_eq.
      split; [done|]. split; [done|]. cbn. apply base64_roundtrip. }
  split; [by rewrite Hss, lookup_insert_eq|].
  split; [by rewrite Hdbs, lookup_insert_eq|].
  split; [exact Hchats|]. split; [done|]. split; [done|]. split; [done|].
  split; [by rewrite Hdbc, lookup_insert_eq|]. by split.
Qed.

End Accept.

(** ** The further properties on the concrete instance *)


Lemma receive_key_issued_once_witness :
  ∃ r,
    deriveReceiveKey (H := demoPrimitives) (demoSession [x01] [x02]) 2 50
      = Ok r ∧
    is_Some (messageKey r) ∧
    deriveReceiveKey (H := demoPrimitives) (nextSession r) 2 50
      = Ok (mkReceive None (nextSession r) false).
Proof.
  eexists. split; [reflexivity|]. split; [by eexists|].
  apply (@receive_key_issued_once demoPrimitives (demoSession [x01] [x02]) 2 50).
  - intros j [v Hv]. unfold demoSession in Hv. cbn [skippedKeys] in Hv.
    by rewrite lookup_empty in Hv.
  - reflexivity.
  - by eexists.
Defined.

Lemma receive_miss_leaves_session_witness :
  let s := mkSession "me:peer" dm "peer" None "a" "b" 0 3 ∅ in
  ∃ r, deriveReceiveKey (H := demoPrimitives) s 1 50 = Ok r ∧
       messageKey r = None ∧ nextSession r = s.
Proof.
  intros s. eexists. split; [reflexivity|]. split; [reflexivity|].
  apply (@receive_miss_leaves_session demoPrimitives s 1 50); reflexivity.
Defined.

Lemma handleIncoming_ignores_witness :
  handleIncoming
    (H := demoPrimitivesWith (JEnvelope (other_envelope "ping")))
    (H0 := demoEnvironment) [] (demoWorld (demoSession [x01] [x02]))
  = (Ok tt, demoWorld (demoSession [x01] [x02])).
Proof.
  apply (@handleIncoming_ignores
           (demoPrimitivesWith (JEnvelope (other_envelope "ping")))
           demoEnvironment [] (demoWorld (demoSession [x01] [x02]))).
  do 5 right. left. exists "ping". reflexivity.
Defined.

Lemma own_dm_message_dropped_witness :
  handleIncoming
    (H := demoPrimitivesWith
            (JEnvelope (dm_message "me:peer" "m1" (Some "me") 0 "" "" 5)))
    (H0 := demoEnvironment) [] (demoWorld (demoSession [x01] [x02]))
  = (Ok tt, demoWorld (demoSession [x01] [x02])).
Proof.
  apply (@own_dm_message_dropped
           (demoPrimitivesWith
              (JEnvelope (dm_message "me:peer" "m1" (Some "me") 0 "" "" 5)))
           demoEnvironment [] (demoWorld (demoSession [x01] [x02]))
           "me:peer" "m1" "" "" 0 5).
  reflexivity.
Defined.

Lemma chat_request_from_blocked_peer_witness :
  ∃ w',
    handleIncoming
      (H := demoPrimitivesWith
              (JEnvelope (chat_request "r1" "eve" "me" "" "" 9)))
      (H0 := demoEnvironment) [] demoWorldWithBlocked
    = (Ok tt, w') ∧
    store w' = store demoWorldWithBlocked ∧
    idb w' = idb demoWorldWithBlocked ∧
    subscribedTopics w' = ∅ ∧
    trace w' =
      [Publish "/app/1/inbox/eve"
         (encodePayload
            (H := demoPrimitivesWith
                    (JEnvelope (chat_request "r1" "eve" "me" "" "" 9)))
            (JEnvelope (chat_blocked "r1" "me" "eve" "eve:me" 1000)))].
Proof.
  apply (@chat_request_from_blocked_peer
           (demoPrimitivesWith
              (JEnvelope (chat_request "r1" "eve" "me" "" "" 9)))
           demoEnvironment demoWorldWithBlocked []
           "r1" "eve" "me" "" "" 9 "me" [x07]
           (mkIdentity "pk" "sealed" "iv" "salt" 0) demoBlockedRequest
           (list_byte_of_string "eve")).
  - reflexivity.
  - reflexivity.
  - reflexivity.
  - reflexivity.
  - reflexivity.
  - intros c Hc. apply list_elem_of_singleton in Hc. by subst.
  - apply list_elem_of_singleton. reflexivity.
  - reflexivity.
  - reflexivity.
  - reflexivity.
  - reflexivity.
Defined.

Lemma chat_request_recorded_witness :
  let request :=
    mkRequest "r1" dm "eve" "me" "ello" status_pending 9 None None None in
  ∃ w' updatedAt,
    handleIncoming
      (H := demoPrimitivesWith
              (JEnvelope (chat_request "r1" "eve" "me" "n" "hello" 9)))
      (H0 := demoEnvironment) [] (demoWorld (demoSession [x01] [x02]))
    = (Ok tt, w') ∧
    requests (store w') = [] ++ [request] ∧
    filter (λ item, request_id item = "r1") (requests (store w')) = [request] ∧
    idb_requests (idb w') = <["r1" := request]> ∅ ∧
    idb_requestStates (idb w')
      = <["r1" := mkRequestState "r1" status_pending updatedAt]> ∅ ∧
    chats (store w') = [demoChat] ∧
    sessions (store w') = {[ "me:peer" := demoSession [x01] [x02] ]} ∧
    trace w' = [] ++
      [PutRequest request;
       PutRequestState (mkRequestState "r1" status_pending updatedAt)].
Proof.
  intros request.
  apply (@chat_request_recorded
           (demoPrimitivesWith
              (JEnvelope (chat_request "r1" "eve" "me" "n" "hello" 9)))
           demoEnvironment (demoWorld (demoSession [x01] [x02])) []
           "r1" "eve" "me" "n" "hello" 9 "me" [x07]
           (mkIdentity "pk" "sealed" "iv" "salt" 0)
           (list_byte_of_string "n") (list_byte_of_string "hello")
           (list_byte_of_string "eve")
           (Some (list_byte_of_string "ello"))).
  - reflexivity.
  - reflexivity.
  - reflexivity.
  - reflexivity.
  - reflexivity.
  - intros c Hc. apply list_elem_of_singleton in Hc. by subst.
  - intros r Hr. by apply elem_of_nil in Hr.
  - reflexivity.
  - reflexivity.
  - reflexivity.
  - reflexivity.
Defined.

Lemma group_receive_failure_silent_witness :
  handleGroupMessage (H := demoPrimitives) (H0 := demoEnvironment)
    "g1" "m1" "peer" [mkSealed "me" 1 "" ""] demoGroupWorld
  = (Ok tt, demoGroupWorld).
Proof.
  apply (@group_receive_failure_silent demoPrimitives demoEnvironment
           demoGroupWorld demoGroupWorld "g1" "m1" "peer" "me"
           [mkSealed "me" 1 "" ""]
           (mkChat "g1" group "friends" ["me"; "peer"] true 0 None None
                   (Some "g1"))
           (mkSealed "me" 1 "" "") demoGroupSession
           (mkReceive None demoGroupSession false)).
  - reflexivity.
  - reflexivity.
  - reflexivity.
  - reflexivity.
  - reflexivity.
  - reflexivity.
  - left. reflexivity.
Defined.

Lemma sendMessage_not_ready_witness :
  ∃ w',
    awaited (Async.sendMessage (H := demoPrimitives) (H0 := demoEnvironment)
               "elsewhere" "hello" None)
      (demoWorld (demoSession [x01] [x02])) = (Ok tt, w') ∧
    addError "Chat not ready." (demoWorld (demoSession [x01] [x02]))
      = (Ok tt, w') ∧
    trace w' = [] ∧ idb w' = idb (demoWorld (demoSession [x01] [x02])) ∧
    sessions (store w') = {[ "me:peer" := demoSession [x01] [x02] ]} ∧
    messages (store w') = ∅.
Proof.
  apply (@sendMessage_not_ready demoPrimitives demoEnvironment
           "elsewhere" "hello" None (demoWorld (demoSession [x01] [x02]))).
  left. reflexivity.
Defined.

Lemma sendEventMessage_without_peer_witness :
  awaited (Async.sendEventMessage (H := demoPrimitives) (H0 := demoEnvironment)
             (mkChat "me:" dm "" ["me"; ""] true 0 None None None)
             (inner_typing true) None)
    (demoWorld (demoSession [x01] [x02]))
  = (Ok tt, demoWorld (demoSession [x01] [x02])).
Proof.
  apply (@sendEventMessage_without_peer demoPrimitives demoEnvironment).
  right. reflexivity.
Defined.

Lemma seeded_sessions_mirror_witness :
  ∃ sA sB wA' wB',
    ensureSession (H := demoPrimitives) "a:ab" dm (Some "ab")
      (demoEmptyWorld "a" [x63]) = (Ok sA, wA') ∧
    ensureSession (H := demoPrimitives) "a:ab" dm (Some "a")
      (demoEmptyWorld "ab" [x62; x63]) = (Ok sB, wB') ∧
    sendCK sA = recvCK sB ∧ recvCK sA = sendCK sB ∧
    sendN sA = 0 ∧ recvN sA = 0 ∧ skippedKeys sA = ∅ ∧
    sendN sB = 0 ∧ recvN sB = 0 ∧ skippedKeys sB = ∅ ∧
    sessions (store wA') !! "a:ab" = Some sA ∧
    idb_sessions (idb wA') !! "a:ab" = Some sA ∧
    sessions (store wB') !! "a:ab" = Some sB ∧
    idb_sessions (idb wB') !! "a:ab" = Some sB.
Proof.
  apply (@seeded_sessions_mirror demoPrimitives
           (demoEmptyWorld "a" [x63]) (demoEmptyWorld "ab" [x62; x63])
           "a:ab" "a" "ab" dm [x63] [x62; x63]
           (list_byte_of_string "a") (list_byte_of_string "ab")
           [x61; x62; x63]); reflexivity.
Defined.

Lemma demoCodec_base64_roundtrip (e : Envelope) (i : Inner) (b : bytes) :
  base64ToBytes (Primitives := demoCodecPrimitives e i)
    (bytesToBase64 (Primitives := demoCodecPrimitives e i) b) = Ok b.
Proof. simpl. by rewrite list_byte_of_string_of_list_byte. Qed.

Lemma demoCodec_secretbox_opens (e : Envelope) (i : Inner)
    (msg nonce key c : bytes) :
  secretbox (Primitives := demoCodecPrimitives e i) msg nonce key = Ok c →
  secretbox_open (Primitives := demoCodecPrimitives e i) c nonce key
    = Ok (Some msg).
Proof.
  simpl. intros [= <-]. rewrite take_app_length, drop_app_length.
  by rewrite decide_True.
Qed.

Lemma text_reaches_the_peer_witness :
  let P := demoCodecPrimitives demoTextEnvelope (inner_text "hello" None) in
  let wA := demoWorld (demoSession [x01] [x02]) in
  ∃ wA' wB' sA' sB' mA mB,
    awaited (Async.sendMessage (H := P) (H0 := demoEnvironment)
               "me:peer" "hello" None) wA = (Ok tt, wA') ∧
    trace wA' = [] ++
      [Publish "/app/1/dm/me:peer" (list_byte_of_string "E");
       PutSession sA'; PutMessage mA] ∧
    handleIncoming (H := P) (H0 := demoEnvironment)
      (list_byte_of_string "E") demoPeerWorld = (Ok tt, wB') ∧
    trace wB' = [] ++
      [PutSession sB';
       Publish "/app/1/inbox/me" (list_byte_of_string "E");
       PutMessage mB] ∧
    messages (store wA') = updateMessageList ∅ "me:peer" mA ∧
    messages (store wB') = updateMessageList ∅ "me:peer" mB ∧
    idb_messages (idb wB') !! message_id mA = Some mB ∧
    message_id mB = message_id mA ∧
    body mA = Some "hello" ∧ body mB = Some "hello" ∧
    replyTo mA = None ∧ replyTo mB = None ∧
    message_fromPubKey mA = "me" ∧ message_fromPubKey mB = "me" ∧
    status mA = Some msg_sent ∧ status mB = Some msg_delivered ∧
    message_n mA = Some 0 ∧
    sessions (store wA') !! "me:peer" = Some sA' ∧
    sessions (store wB') !! "me:peer" = Some sB' ∧
    sendN sA' = 0 + 1 ∧
    recvN sB' = sendN sA' ∧
    recvCK sB' = sendCK sA'.
Proof.
  intros P wA.
  apply (@text_reaches_the_peer P demoEnvironment
           (demoCodec_base64_roundtrip _ _) (demoCodec_secretbox_opens _ _)
           wA demoPeerWorld "me:peer" "me" "peer" "hello" None demoChat
           (mkChat "me:peer" dm "me" ["me"; "peer"] true 0 None None None)
           (demoSession [x01] [x02])
           (mkSession "me:peer" dm "me" None (string_of_list_byte [x02])
                      (string_of_list_byte [x01]) 0 0 ∅)
           [x01]
           ((x68 :: x01 :: list_byte_of_string "msg") ++ list_byte_of_string "I")
           (list_byte_of_string "me")).
  - reflexivity.
  - reflexivity.
  - by eexists.
  - reflexivity.
  - reflexivity.
  - reflexivity.
  - reflexivity.
  - reflexivity.
  - reflexivity.
  - reflexivity.
  - discriminate.
  - reflexivity.
  - discriminate.
  - by eexists.
  - by eexists.
  - reflexivity.
  - reflexivity.
  - reflexivity.
  - reflexivity.
  - reflexivity.
  - reflexivity.
  - reflexivity.
  - reflexivity.
Defined.


(** On that instance: the data after the four messages. *)
Lemma demo_attachment_data :
  (attachment_data <$>
     attachments
       (store (receiveChunks (H := demoPrimitives) (H0 := demoEnvironment)
                 "me:peer" "peer" "a1" 3 demoChunkAt [2; 0; 1; 0]
                 demoAttachmentWorld).2) !! "a1")
  = Some (Some "AAAAAA").
Proof. vm_compute. reflexivity. Qed.

Lemma rekey_lost_on_used_session_witness :
  let P := demoCodecPrimitives demoRekeyEnvelope inner_rekey in
  let wA := demoWorld (demoSession [x01] [x02]) in
  let fresh :=
    resetTo (H := P) "me:peer" dm "me" "peer"
      (list_byte_of_string "peer" ++ [x07]) in
  ∃ wA' wB' sA',
    awaited (Rekey.rekeySession (H := P) (H0 := demoEnvironment) "me:peer") wA
      = (Ok tt, wA') ∧
    trace wA' = [] ++
      [PutSession fresh; PutSession fresh;
       Publish "/app/1/dm/me:peer" (list_byte_of_string "E");
       PutSession sA'] ∧
    sessions (store wA') !! "me:peer" = Some sA' ∧
    sendN sA' = 1 ∧ recvN sA' = 0 ∧ skippedKeys sA' = ∅ ∧
    sendCK sA'
      = bytesToBase64 (Primitives := P)
          (hmacSha256 (Primitives := P)
             (ck_send
                (deriveChainKeys (H := P)
                   (deriveRootKey (H := P)
                      (list_byte_of_string "peer" ++ [x07]) "me:peer")
                   "me" "peer"))
             (CK_LABEL (H := P))) ∧
    handleIncoming (H := P) (H0 := demoEnvironment)
      (list_byte_of_string "E") demoUsedPeerWorld = (Ok tt, wB') ∧
    sessions (store wB') = {[ "me:peer" := demoUsedPeerSession ]} ∧
    idb_sessions (idb wB') = ∅ ∧
    messages (store wB')
      = updateMessageList ∅ "me:peer"
          (withKeyMismatch
             (keyMismatchNotice (H0 := demoEnvironment) "me:peer"
                demoUsedPeerWorld)) ∧
    trace wB' = [] ++
      [PutMessage (keyMismatchNotice (H0 := demoEnvironment) "me:peer"
                     demoUsedPeerWorld)].
Proof.
  intros P wA fresh.
  apply (@rekey_lost_on_used_session P demoEnvironment
           (demoCodec_base64_roundtrip _ _)
           wA demoUsedPeerWorld "me:peer" "me" "peer" demoChat
           (mkChat "me:peer" dm "me" ["me"; "peer"] true 0 None None None)
           demoUsedPeerSession [x07] (list_byte_of_string "peer")
           (list_byte_of_string "peer" ++ [x07]) demoRekeyCiphertext).
  - reflexivity.
  - reflexivity.
  - reflexivity.
  - reflexivity.
  - reflexivity.
  - reflexivity.
  - reflexivity.
  - reflexivity.
  - reflexivity.
  - reflexivity.
  - reflexivity.
  - reflexivity.
  - discriminate.
  - by eexists.
  - by eexists.
  - reflexivity.
  - reflexivity.
  - cbn. lia.
  - reflexivity.
  - reflexivity.
Defined.

Lemma rekey_restores_initial_keys_witness :
  let P := demoPrimitives in
  let wA := demoWorld (demoSession [x01] [x02]) in
  let c :=
    hmacSha256 (Primitives := P)
      (ck_send
         (deriveChainKeys (H := P)
            (deriveRootKey (H := P)
               (list_byte_of_string "peer" ++ [x07]) "me:peer")
            "me" "peer"))
      (list_byte_of_string "msg")
    ++ list_byte_of_string "{}" in
  ∃ s0 w0' key0 s1 wA' pre post,
    ensureSession (H := P) "me:peer" dm (Some "peer")
      (demoEmptyWorld "me" [x07]) = (Ok s0, w0') ∧
    advanceSend (H := P) s0 = Ok (key0, s1) ∧
    awaited (Rekey.rekeySession (H := P) (H0 := demoEnvironment) "me:peer") wA
      = (Ok tt, wA') ∧
    sessions (store wA') !! "me:peer" = Some s1 ∧
    secretbox (Primitives := P)
      (encodePayload (H := P) (JInner inner_rekey))
      (replicate 24 x2a) key0 = Ok c ∧
    trace wA' = [] ++ pre ++
      [Publish "/app/1/dm/me:peer" (list_byte_of_string "{}")] ++ post ∧
    Forall (λ e, isPublish e = false) (pre ++ post).
Proof.
  intros P wA c.
  apply (@rekey_restores_initial_keys P demoEnvironment
           (demo_base64_roundtrip JNull)
           (demoEmptyWorld "me" [x07]) wA "me:peer" "me" "peer" demoChat
           [x07] (list_byte_of_string "peer")
           (list_byte_of_string "peer" ++ [x07]) c); reflexivity.
Defined.

Lemma demo_onlyMessage :
  onlyMessage (messages (store demoMessageWorld)) "me:peer" []
    demoSentMessage [].
Proof.
  split; [reflexivity|]. intros x Hx. by apply elem_of_nil in Hx.
Qed.

Lemma ack_marks_delivered_witness :
  ∃ w',
    handleIncoming
      (H := demoPrimitivesWith
              (JEnvelope (dm_ack "me:peer" "id-0" (Some "peer") "me" 5)))
      (H0 := demoEnvironment) [] demoMessageWorld = (Ok tt, w') ∧
    default [] (messages (store w') !! "me:peer")
      = [] ++ withStatus msg_delivered demoSentMessage :: [] ∧
    (∀ other, other ≠ "me:peer" →
       messages (store w') !! other
         = messages (store demoMessageWorld) !! other) ∧
    idb_messages (idb w')
      = <["id-0" := withStatus msg_delivered demoSentMessage]> ∅ ∧
    sessions (store w') = sessions (store demoMessageWorld) ∧
    chats (store w') = [demoChat] ∧
    trace w' = [] ++ [PutMessage (withStatus msg_delivered demoSentMessage)].
Proof.
  apply (@ack_marks_delivered
           (demoPrimitivesWith
              (JEnvelope (dm_ack "me:peer" "id-0" (Some "peer") "me" 5)))
           demoEnvironment demoMessageWorld [] "me:peer" (Some "peer") "me" 5
           [] demoSentMessage []).
  - reflexivity.
  - by exists "me".
  - by eexists.
  - by eexists.
  - exact demo_onlyMessage.
Defined.

Lemma peer_rewrites_message_witness :
  ∃ w',
    handleInnerPayload (H := demoPrimitives) (H0 := demoEnvironment)
      "me:peer" "peer" (JInner (inner_edit "id-0" "bye")) None
      demoMessageWorld = (Ok tt, w') ∧
    default [] (messages (store w') !! "me:peer")
      = [] ++ withEdit "bye" demoSentMessage :: [] ∧
    (∀ other, other ≠ "me:peer" →
       messages (store w') !! other
         = messages (store demoMessageWorld) !! other) ∧
    idb_messages (idb w') = <["id-0" := withEdit "bye" demoSentMessage]> ∅ ∧
    message_fromPubKey (withEdit "bye" demoSentMessage) = "me" ∧
    message_id (withEdit "bye" demoSentMessage) = "id-0" ∧
    message_timestamp (withEdit "bye" demoSentMessage) = 1001%Z ∧
    sessions (store w') = sessions (store demoMessageWorld) ∧
    trace w' = [] ++ [PutMessage (withEdit "bye" demoSentMessage)].
Proof.
  apply (@peer_rewrites_message demoPrimitives demoEnvironment
           demoMessageWorld "me:peer" "peer" None [] demoSentMessage []
           (inner_edit "id-0" "bye") (withEdit "bye" demoSentMessage)).
  - exact demo_onlyMessage.
  - left. by exists "bye".
Defined.

Lemma chat_accept_makes_ready_witness :
  let P := demoPrimitivesWith
             (JEnvelope (chat_accept "r9" "peer" "me" "me:peer" 7)) in
  ∃ w' chat,
    handleIncoming (H := P) (H0 := demoEnvironment) []
      (demoEmptyWorld "me" [x07]) = (Ok tt, w') ∧
    readyToSend (H := P) "me:peer" "me" "peer" 0 (store w') ∧
    sessions (store w') !! "me:peer"
      = Some (resetTo (H := P) "me:peer" dm "me" "peer"
                (list_byte_of_string "peer" ++ [x07])) ∧
    idb_sessions (idb w') !! "me:peer"
      = Some (resetTo (H := P) "me:peer" dm "me" "peer"
                (list_byte_of_string "peer" ++ [x07])) ∧
    chats (store w') = [] ++ [chat] ∧
    chat_id chat = "me:peer" ∧ accepted chat = true ∧
    participants chat = ["me"; "peer"] ∧
    idb_chats (idb w') !! "me:peer" = Some chat ∧
    "/app/1/dm/me:peer" ∈ subscribedTopics w' ∧
    quiet (handleIncoming (H := P) (H0 := demoEnvironment) []).
Proof.
  intros P.
  apply (@chat_accept_makes_ready P demoEnvironment
           (demo_base64_roundtrip _)
           (demoEmptyWorld "me" [x07]) [] "r9" "peer" "me" "me:peer" "me" 7
           [x07] (list_byte_of_string "peer")
           (list_byte_of_string "peer" ++ [x07])).
  - reflexivity.
  - reflexivity.
  - reflexivity.
  - reflexivity.
  - by eexists.
  - discriminate.
  - reflexivity.
  - reflexivity.
  - reflexivity.
  - reflexivity.
  - reflexivity.
Defined.
